(** * apgbuild: the archive engine and the checksum manifest

    A shallow embedding of [internal/archive/archive.go],
    [internal/checksum/crc32.go] and the checksum commands of
    [internal/builder/builder.go].  The Go standard library functions the
    packages call ([strings], [path/filepath], [hash/crc32], [fmt],
    [bufio], [os]) are modelled first, on a Unix system; the code of the
    repository follows, function by function, under the names it has in
    the source. *)

From stdpp Require Import gmap strings list fin_maps sorting.
From Stdlib Require Import ZArith Ascii Lia.
From Stdlib Require String.

Open Scope Z_scope.

(** ** Package [strings] *)

Module GoStrings.

(** [strings.HasPrefix s prefix]. *)
Definition HasPrefix (s pre : string) : bool := String.prefix pre s.

(** [strings.Contains s substr]: [substr] occurs somewhere in [s]. *)
Fixpoint Contains (s substr : string) : bool :=
  if String.prefix substr s then true
  else match s with
       | EmptyString => false
       | String _ r => Contains r substr
       end.

(** [strings.ContainsRune s r] for a rune below 128, one byte. *)
Fixpoint ContainsRune (s : string) (r : ascii) : bool :=
  match s with
  | EmptyString => false
  | String c s' => if Ascii.eqb c r then true else ContainsRune s' r
  end.

(** [strings.Join elems sep]. *)
Definition Join (elems : list string) (sep : string) : string :=
  String.concat sep elems.

(** Drop the first [n] bytes. *)
Fixpoint skip (n : nat) (s : string) : string :=
  match n, s with
  | O, _ => s
  | S n', String _ r => skip n' r
  | S _, EmptyString => EmptyString
  end.

(** The text before and after the first occurrence of [sep]. *)
Fixpoint cut (s sep : string) : option (string * string) :=
  if String.prefix sep s then Some (EmptyString, skip (String.length sep) s)
  else match s with
       | EmptyString => None
       | String c r =>
           match cut r sep with
           | Some (a, b) => Some (String c a, b)
           | None => None
           end
       end.

(** [strings.SplitN s sep 2] for a non-empty [sep]: at most two
    pieces, split at the first [sep]. *)
Definition SplitN2 (s sep : string) : list string :=
  match cut s sep with
  | Some (a, b) => [a; b]
  | None => [s]
  end.

End GoStrings.

(** ** Package [path/filepath] (Unix: separator [/], no volume names) *)

Module Filepath.

Definition Separator : ascii := "/"%char.

Definition IsPathSeparator (c : ascii) : bool := Ascii.eqb c Separator.

(** [filepath.IsAbs]. *)
Definition IsAbs (path : string) : bool := GoStrings.HasPrefix path "/".

(** The path elements: the pieces between separators, empty ones
    included, so that [elements "a//b" = ["a"; ""; "b"]]. *)
Fixpoint elements (path : string) : list string :=
  match path with
  | EmptyString => [EmptyString]
  | String c r =>
      if IsPathSeparator c then EmptyString :: elements r
      else match elements r with
           | x :: xs => String c x :: xs
           | [] => [String c EmptyString]
           end
  end.

(** One element of [Clean]'s loop.  [out] is the buffer written so far,
    as a list of elements; in a path that is not rooted it starts with
    the [..] elements that could not be resolved, which is what the
    index [dotdot] of the Go code marks. *)
Definition clean_step (rooted : bool) (out : list string) (e : string)
  : list string :=
  if String.eqb e "" then out
  else if String.eqb e "." then out
  else if String.eqb e ".." then
    match last out with
    | Some l =>
        if String.eqb l ".." then out ++ [".."] else removelast out
    | None => if rooted then out else out ++ [".."]
    end
  else out ++ [e].

Definition clean_elements (rooted : bool) (es : list string) : list string :=
  fold_left (clean_step rooted) es [].

(** The buffer as a string. *)
Definition render (rooted : bool) (out : list string) : string :=
  if rooted then "/" +:+ GoStrings.Join out "/"
  else match out with
       | [] => "."
       | _ => GoStrings.Join out "/"
       end.

(** [filepath.Clean]. *)
Definition Clean (path : string) : string :=
  if String.eqb path "" then "."
  else render (IsAbs path) (clean_elements (IsAbs path) (elements path)).

(** [filepath.Join]: empty leading elements are ignored, the rest is
    joined with separators and cleaned. *)
Fixpoint Join (elem : list string) : string :=
  match elem with
  | [] => ""
  | e :: r =>
      if String.eqb e "" then Join r
      else Clean (GoStrings.Join elem "/")
  end.

(** The part of [path] up to and including its last separator. *)
Fixpoint dir_part (path : string) : string :=
  match path with
  | EmptyString => EmptyString
  | String c r =>
      if IsPathSeparator c || GoStrings.ContainsRune r Separator
      then String c (dir_part r)
      else EmptyString
  end.

(** [filepath.Dir]. *)
Definition Dir (path : string) : string := Clean (dir_part path).

(** The elements of a cleaned path, for [Rel]'s comparison loop. *)
Definition rel_elements (p : string) : list string :=
  filter (fun e => e ≠ "") (elements p).

Fixpoint strip_common (b t : list string) : list string * list string :=
  match b, t with
  | x :: b', y :: t' =>
      if String.eqb x y then strip_common b' t' else (b, t)
  | _, _ => (b, t)
  end.

(** [filepath.Rel basepath targpath]; [None] is the error
    "Rel: can't make targpath relative to basepath". *)
Definition Rel (basepath targpath : string) : option string :=
  let base := Clean basepath in
  let targ := Clean targpath in
  if String.eqb targ base then Some "."
  else
    let base := if String.eqb base "." then "" else base in
    if negb (Bool.eqb (IsAbs base) (IsAbs targ)) then None
    else
      let '(b, t) := strip_common (rel_elements base) (rel_elements targ) in
      match b, t with
      | [], _ => Some (GoStrings.Join t "/")
      | x :: _, _ :: _ =>
          if String.eqb x ".." then None
          else Some (GoStrings.Join (map (fun _ => "..") b ++ t) "/")
      | _ :: _, [] => Some (GoStrings.Join (map (fun _ => "..") b) "/")
      end.

End Filepath.

(** ** Package [hash/crc32] *)

Module Crc32.

(** [crc32.IEEE], the reversed polynomial. *)
Definition IEEE : Z := 0xedb88320.

Definition mask32 : Z := 0xffffffff.

(** The inner loop of [simplePopulateTable]: eight shift steps. *)
Fixpoint table_entry (j : nat) (poly crc : Z) : Z :=
  match j with
  | O => crc
  | S j' =>
      table_entry j' poly
        (if Z.testbit crc 0 then Z.lxor (Z.shiftr crc 1) poly
         else Z.shiftr crc 1)
  end.

(** [crc32.MakeTable poly]: 256 entries. *)
Definition MakeTable (poly : Z) : list Z :=
  map (fun i => table_entry 8 poly (Z.of_nat i)) (seq 0 256).

Definition byte_val (b : Byte.byte) : Z := Z.of_N (Byte.to_N b).

(** One byte of [simpleUpdate]'s loop:
    [crc = tab[byte(crc)^v] ^ (crc >> 8)]. *)
Definition update_byte (tab : list Z) (crc : Z) (v : Byte.byte) : Z :=
  Z.lxor (nth (Z.to_nat (Z.lxor (Z.land crc 0xff) (byte_val v))) tab 0)
         (Z.shiftr crc 8).

(** [crc32.Update crc tab p]. *)
Definition Update (crc : Z) (tab : list Z) (p : list Byte.byte) : Z :=
  Z.lxor (fold_left (update_byte tab) p (Z.lxor crc mask32)) mask32.

(** [crc32.Checksum data tab]. *)
Definition Checksum (data : list Byte.byte) (tab : list Z) : Z :=
  Update 0 tab data.

End Crc32.

(** ** Package [fmt]: the two verbs the manifest uses *)

Module Fmt.

Definition hex_digit (d : Z) : ascii :=
  if d <? 10 then ascii_of_nat (Z.to_nat (48 + d))
  else ascii_of_nat (Z.to_nat (87 + d)).

(** The lowest [n] hexadecimal digits of [v], most significant first. *)
Fixpoint hex_digits (n : nat) (v : Z) : string :=
  match n with
  | O => EmptyString
  | S n' =>
      String (hex_digit (Z.land (Z.shiftr v (4 * Z.of_nat n')) 15))
             (hex_digits n' v)
  end.

(** [%08x] applied to a [uint32]: exactly eight lower-case digits. *)
Definition Sprintf_08x (v : Z) : string := hex_digits 8 v.

(** The value of a hexadecimal digit, either case. *)
Definition digit_val (c : ascii) : option Z :=
  let n := Z.of_nat (nat_of_ascii c) in
  if (48 <=? n) && (n <=? 57) then Some (n - 48)
  else if (97 <=? n) && (n <=? 102) then Some (n - 87)
  else if (65 <=? n) && (n <=? 70) then Some (n - 55)
  else None.

(** [hexadecimalDigits]: the bytes [scanNumber] accepts for [%x],
    the underscore included. *)
Definition accepted (c : ascii) : bool :=
  match digit_val c with
  | Some _ => true
  | None => Ascii.eqb c "_"
  end.

(** The UTF-8 encodings of the runes [isSpace] accepts, the newline
    apart (a scanned line holds none). *)
Definition spaces : list string :=
  map String.string_of_list_ascii
    (map (map ascii_of_nat)
       [ [9%nat]; [11%nat]; [12%nat]; [13%nat]; [32%nat];
         [194; 133]%nat; [194; 160]%nat; [225; 154; 128]%nat;
         [226; 128; 128]%nat; [226; 128; 129]%nat; [226; 128; 130]%nat;
         [226; 128; 131]%nat; [226; 128; 132]%nat; [226; 128; 133]%nat;
         [226; 128; 134]%nat; [226; 128; 135]%nat; [226; 128; 136]%nat;
         [226; 128; 137]%nat; [226; 128; 138]%nat; [226; 128; 168]%nat;
         [226; 128; 169]%nat; [226; 128; 175]%nat; [226; 129; 159]%nat;
         [227; 128; 128]%nat ]).

(** The length of the space rune [s] starts with, if any. *)
Definition space_len (s : string) : option nat :=
  match filter (fun sp => String.prefix sp s = true) spaces with
  | sp :: _ => Some (String.length sp)
  | [] => None
  end.

(** [SkipSpace]. *)
Fixpoint SkipSpace (fuel : nat) (s : string) : string :=
  match fuel with
  | O => s
  | S f =>
      match space_len s with
      | Some n => SkipSpace f (GoStrings.skip n s)
      | None => s
      end
  end.

(** The longest prefix of accepted bytes: the token of [scanNumber]. *)
Fixpoint token (s : string) : string :=
  match s with
  | String c r => if accepted c then String c (token r) else EmptyString
  | EmptyString => EmptyString
  end.

(** [strconv.ParseUint tok 16 64] on the digits read so far; an
    underscore is a syntax error in base 16. *)
Fixpoint parse_hex (acc : Z) (tok : string) : option Z :=
  match tok with
  | EmptyString => Some acc
  | String c r =>
      match digit_val c with
      | Some d => parse_hex (16 * acc + d) r
      | None => None
      end
  end.

(** [fmt.Sscanf s "%x" &v] with [v] a [uint32]: leading space is
    skipped, the longest run of digits is converted, what follows it is
    left unread.  [None] is a scan error: no digit, an underscore among
    the digits, or a value that does not fit 32 bits. *)
Definition Sscanf_x (s : string) : option Z :=
  let tok := token (SkipSpace (String.length s) s) in
  if String.eqb tok "" then None
  else match parse_hex 0 tok with
       | Some v => if v <? 2 ^ 32 then Some v else None
       | None => None
       end.

End Fmt.

(** ** Package [bufio]: a [Scanner] with the default [ScanLines] *)

Module Bufio.

(** [bufio.MaxScanTokenSize]. *)
Definition MaxScanTokenSize : Z := 64 * 1024.

Definition too_long (l : string) : bool :=
  MaxScanTokenSize <=? Z.of_nat (String.length l).

Inductive scan_error := ErrTooLong.

(** [dropCR]: one trailing carriage return is removed. *)
Fixpoint dropCR (s : string) : string :=
  match s with
  | EmptyString => EmptyString
  | String c EmptyString =>
      if Ascii.eqb c "013" then EmptyString else s
  | String c r => String c (dropCR r)
  end.

(** The text up to the first newline and the text after it. *)
Fixpoint next_line (s : string) : string * option string :=
  match s with
  | EmptyString => (EmptyString, None)
  | String c r =>
      if Ascii.eqb c "010" then (EmptyString, Some r)
      else let '(l, rest) := next_line r in (String c l, rest)
  end.

(** All calls of [Scan] until it returns false: the tokens [Text]
    yields and the final [Err].  A last line without newline is a token
    unless it is empty; a line of [MaxScanTokenSize] bytes or more
    fills the buffer, which ends the scan with [ErrTooLong]. *)
Fixpoint scan (fuel : nat) (s : string) : list string * option scan_error :=
  match fuel with
  | O => ([], None)
  | S f =>
      match next_line s with
      | (l, Some rest) =>
          if too_long l then ([], Some ErrTooLong)
          else let '(ls, e) := scan f rest in (dropCR l :: ls, e)
      | (l, None) =>
          if too_long l then ([], Some ErrTooLong)
          else (if String.eqb l "" then [] else [dropCR l], None)
      end
  end.

Definition lines (s : string) : list string * option scan_error :=
  scan (S (String.length s)) s.

End Bufio.

(** ** Package [os]: a file system and the calls made on it

    A state maps each location, the list of names leading to it from the
    root, to the object there.  Path strings are resolved the way the
    kernel does it, element by element, following symbolic links up to
    [MAXSYMLINKS].

    The calls are those of a process that access rights do not stop,
    the superuser: the permission bits of an object are kept and set as
    the calls keep and set them, but no call fails for want of a
    permission.  Every statement below about what a call returns is a
    statement about such a process.  A directory that [Mkdir] makes
    takes the set-group-ID bit of the directory that holds it.  A file
    has one name: [Link] gives the new name a copy of the object, so the
    two names are not tied afterwards as those of a hard link are, which
    shows once one of them is written to again.  Devices, pipes and
    sockets do not occur. *)

Module Os.

Inductive node :=
| File (mode : Z) (data : list Byte.byte)
| Dir (mode : Z)
| Symlink (target : string).

Abbreviation loc := (list string).

Record state := mkState {
  nodes : gmap loc node;
  cwd : loc;
  umask : Z
}.

Inductive errno := ENOENT | ENOTDIR | EISDIR | EEXIST | ELOOP | EPERM.

(** Go [error] values: a failed call, a wrapped error
    ([fmt.Errorf "...: %w"]), a plain message. *)
Inductive error :=
| PathError (op : string) (path : string) (e : errno)
| Wrapped (msg : string) (cause : error)
| Plain (msg : string).

Definition is_dir (n : node) : bool :=
  match n with Dir _ => true | _ => false end.

Definition is_regular (n : node) : bool :=
  match n with File _ _ => true | _ => false end.

Definition is_symlink (n : node) : bool :=
  match n with Symlink _ => true | _ => false end.

Definition is_nil {A} (l : list A) : bool :=
  match l with [] => true | _ => false end.

Inductive lookup_step :=
| Found (l : loc)
| Expand (cur : loc) (target : string) (rest : list string)
| Fail (e : errno).

(** Path resolution up to the next symbolic link.  [follow] says
    whether a link in last position is followed.  The location found
    need not exist; every directory on the way to it does. *)
Fixpoint components (m : gmap loc node) (follow : bool) (cur : loc)
    (todo : list string) : lookup_step :=
  match todo with
  | [] => Found cur
  | x :: rest =>
      if String.eqb x "" then components m follow cur rest
      else if String.eqb x "." then components m follow cur rest
      else if String.eqb x ".." then
        components m follow (removelast cur) rest
      else
        match m !! (cur ++ [x]) with
        | Some (Symlink t) =>
            if is_nil rest && negb follow then Found (cur ++ [x])
            else if String.eqb t "" then Fail ENOENT
            else Expand cur t rest
        | Some (Dir _) => components m follow (cur ++ [x]) rest
        | Some (File _ _) =>
            if is_nil rest then Found (cur ++ [x]) else Fail ENOTDIR
        | None =>
            if is_nil rest then Found (cur ++ [x]) else Fail ENOENT
        end
  end.

Definition MAXSYMLINKS : nat := 40.

Fixpoint namei (links : nat) (m : gmap loc node) (follow : bool)
    (cur : loc) (todo : list string) : errno + loc :=
  match components m follow cur todo with
  | Found l => inr l
  | Fail e => inl e
  | Expand c t rest =>
      match links with
      | O => inl ELOOP
      | S links' =>
          namei links' m follow
            (if Filepath.IsAbs t then [] else c)
            (Filepath.elements t ++ rest)
      end
  end.

(** The location a path string names. *)
Definition resolve (st : state) (follow : bool) (path : string)
  : errno + loc :=
  if String.eqb path "" then inl ENOENT
  else namei MAXSYMLINKS (nodes st) follow
         (if Filepath.IsAbs path then [] else cwd st)
         (Filepath.elements path).

Definition stat_with (follow : bool) (st : state) (path : string)
  : errno + node :=
  match resolve st follow path with
  | inl e => inl e
  | inr l =>
      match nodes st !! l with
      | Some n => inr n
      | None => inl ENOENT
      end
  end.

(** [os.Lstat] and [os.Stat]. *)
Definition Lstat := stat_with false.
Definition Stat := stat_with true.

(** [os.Readlink]. *)
Definition Readlink (st : state) (path : string) : errno + string :=
  match Lstat st path with
  | inr (Symlink t) => inr t
  | inr _ => inl EPERM
  | inl e => inl e
  end.

(** [os.Open] for reading, then reading to the end: the bytes of a
    regular file; reading a directory fails. *)
Definition ReadAll (st : state) (path : string) : errno + list Byte.byte :=
  match Stat st path with
  | inr (File _ d) => inr d
  | inr (Dir _) => inl EISDIR
  | inr (Symlink _) => inl ELOOP
  | inl e => inl e
  end.

(** The names in the directory at [l]. *)
Definition child_name (l k : loc) : option string :=
  match last k with
  | Some n => if decide (k = l ++ [n]) then Some n else None
  | None => None
  end.

Definition names_at (m : gmap loc node) (l : loc) : list string :=
  omap (child_name l) (map fst (map_to_list m)).

(** [readDirNames] of [path/filepath]: the names, sorted as
    [sort.Strings] does. *)
Definition readDirNames (st : state) (path : string) : errno + list string :=
  match resolve st true path with
  | inl e => inl e
  | inr l =>
      match nodes st !! l with
      | Some (Dir _) => inr (merge_sort String.leb (names_at (nodes st) l))
      | Some _ => inl ENOTDIR
      | None => inl ENOENT
      end
  end.

(** [os.FileMode] bits and [syscallMode]. *)
Definition ModeSetuid : Z := Z.shiftl 1 23.
Definition ModeSetgid : Z := Z.shiftl 1 22.
Definition ModeSticky : Z := Z.shiftl 1 20.
(** [ModePerm] is 0777; the three special bits are 04000, 02000 and
    01000. *)
Definition ModePerm : Z := 0x1ff.
Definition S_ISUID : Z := 0x800.
Definition S_ISGID : Z := 0x400.
Definition S_ISVTX : Z := 0x200.

(** The conversion [os.FileMode(m)] of an [int64]. *)
Definition FileMode (m : Z) : Z := m mod 2 ^ 32.

Definition syscallMode (i : Z) : Z :=
  Z.lor (Z.land i ModePerm)
    (Z.lor (if Z.eqb (Z.land i ModeSetuid) 0 then 0 else S_ISUID)
       (Z.lor (if Z.eqb (Z.land i ModeSetgid) 0 then 0 else S_ISGID)
              (if Z.eqb (Z.land i ModeSticky) 0 then 0 else S_ISVTX))).

(** The mode the kernel gives a new object. *)
Definition masked (st : state) (m : Z) : Z :=
  Z.ldiff m (Z.land (umask st) ModePerm).

Definition put (st : state) (l : loc) (n : node) : state :=
  mkState (<[l := n]> (nodes st)) (cwd st) (umask st).

(** The set-group-ID bit a directory made at [l] inherits from the
    directory that holds it. *)
Definition inherited (st : state) (l : loc) : Z :=
  match nodes st !! removelast l with
  | Some (Dir m) => Z.land m S_ISGID
  | _ => 0
  end.

(** The mode of a directory [Mkdir] makes at [l]. *)
Definition dir_mode (st : state) (l : loc) (perm : Z) : Z :=
  Z.lor (Z.land (masked st (syscallMode perm)) (Z.lor ModePerm S_ISVTX))
        (inherited st l).

(** [os.Mkdir]. *)
Definition Mkdir (st : state) (path : string) (perm : Z) : errno + state :=
  match resolve st false path with
  | inl e => inl e
  | inr l =>
      match nodes st !! l with
      | Some _ => inl EEXIST
      | None => inr (put st l (Dir (dir_mode st l perm)))
      end
  end.

(** The parent [MkdirAll] recurses on.  [MkdirAll] drops the trailing
    separators of [path], then its last element, and recurses on what
    stands before the separator in front of that element, unless the
    element starts at index 0 or 1. *)
Fixpoint strip_trailing (path : string) : string :=
  match path with
  | EmptyString => EmptyString
  | String c r =>
      match strip_trailing r with
      | EmptyString =>
          if Filepath.IsPathSeparator c then EmptyString
          else String c EmptyString
      | r' => String c r'
      end
  end.

Fixpoint before_last_separator (path : string) : option string :=
  match path with
  | EmptyString => None
  | String c r =>
      match before_last_separator r with
      | Some a => Some (String c a)
      | None => if Filepath.IsPathSeparator c then Some EmptyString else None
      end
  end.

Definition parent_path (path : string) : option string :=
  match before_last_separator (strip_trailing path) with
  | Some (String c a) => Some (String c a)
  | _ => None
  end.

(** [os.MkdirAll]; each call recurses on a shorter path. *)
Fixpoint MkdirAll_rec (fuel : nat) (st : state) (path : string) (perm : Z)
  : errno + state :=
  match Stat st path with
  | inr n => if is_dir n then inr st else inl ENOTDIR
  | inl _ =>
      match fuel with
      | O => inl ENOENT
      | S fuel' =>
          let parent :=
            match parent_path path with
            | Some p => MkdirAll_rec fuel' st p perm
            | None => inr st
            end in
          match parent with
          | inl e => inl e
          | inr st1 =>
              match Mkdir st1 path perm with
              | inr st2 => inr st2
              | inl e =>
                  match Lstat st1 path with
                  | inr (Dir _) => inr st1
                  | _ => inl e
                  end
              end
          end
      end
  end.

Definition MkdirAll (st : state) (path : string) (perm : Z) : errno + state :=
  MkdirAll_rec (String.length path) st path perm.

(** [os.OpenFile path (O_CREATE|O_WRONLY|O_TRUNC) perm], the bytes
    [data] written to it, [Close]. *)
Definition WriteFile (st : state) (path : string) (perm : Z)
    (data : list Byte.byte) : errno + state :=
  match resolve st true path with
  | inl e => inl e
  | inr l =>
      match nodes st !! l with
      | Some (File m _) => inr (put st l (File m data))
      | Some (Dir _) => inl EISDIR
      | Some (Symlink _) => inl ELOOP
      | None => inr (put st l (File (masked st (syscallMode perm)) data))
      end
  end.

(** [os.Symlink oldname newname]; an empty [oldname] is refused. *)
Definition MkSymlink (st : state) (oldname newname : string) : errno + state :=
  if String.eqb oldname "" then inl ENOENT
  else
    match resolve st false newname with
    | inl e => inl e
    | inr l =>
        match nodes st !! l with
        | Some _ => inl EEXIST
        | None => inr (put st l (Symlink oldname))
        end
    end.

(** [os.Link oldname newname]. *)
Definition Link (st : state) (oldname newname : string) : errno + state :=
  match resolve st false oldname with
  | inl e => inl e
  | inr lo =>
      match nodes st !! lo with
      | None => inl ENOENT
      | Some (Dir _) => inl EPERM
      | Some n =>
          match resolve st false newname with
          | inl e => inl e
          | inr l =>
              match nodes st !! l with
              | Some _ => inl EEXIST
              | None => inr (put st l n)
              end
          end
      end
  end.

End Os.

(** ** [filepath.Walk]

    [Walk] calls [fn] on the root, then on what each directory holds, in
    lexical order, a directory before its contents, and returns the first
    error [fn] returns.  The calls [fn] receives are listed first; they
    do not depend on [fn], which never returns [SkipDir] in this
    repository and leaves the walked tree alone. *)

Module Walker.

Import Os.

(** One call [fn path info err]. *)
Record visit := Visit {
  v_path : string;
  v_info : option node;
  v_err : option errno
}.

(** [walk]: the recursion of [path/filepath]; [depth] bounds how deep
    it descends. *)
Fixpoint walk (depth : nat) (st : state) (path : string) (info : node)
  : list visit :=
  if negb (is_dir info) then [Visit path (Some info) None]
  else
    match readDirNames st path with
    | inl e => [Visit path (Some info) (Some e)]
    | inr names =>
        Visit path (Some info) None ::
        match depth with
        | O => []
        | S depth' =>
            flat_map
              (fun name =>
                 let filename := Filepath.Join [path; name] in
                 match Lstat st filename with
                 | inl e => [Visit filename None (Some e)]
                 | inr fileInfo => walk depth' st filename fileInfo
                 end)
              names
        end
    end.

(** No directory lies deeper than the longest location. *)
Definition max_depth (st : state) : nat :=
  max_list (map (fun kv => List.length (fst kv)) (map_to_list (nodes st))).

Definition visits (st : state) (root : string) : list visit :=
  match Lstat st root with
  | inl e => [Visit root None (Some e)]
  | inr info => walk (S (max_depth st)) st root info
  end.

(** The calls of [fn], threading what [fn] has captured, up to the
    first error. *)
Fixpoint run {S : Type} (fn : S -> visit -> S * option error)
    (vs : list visit) (s : S) : S * option error :=
  match vs with
  | [] => (s, None)
  | v :: vs' =>
      match fn s v with
      | (s', None) => run fn vs' s'
      | (s', Some e) => (s', Some e)
      end
  end.

Definition Walk {S : Type} (st : state) (root : string)
    (fn : S -> visit -> S * option error) (s : S) : S * option error :=
  run fn (visits st root) s.

End Walker.

(** ** Package [checksum] of the repository *)

Module Checksum.

Import Os.

(** [CRC32Table]. *)
Definition CRC32Table : list Z :=
  Eval vm_compute in Crc32.MakeTable Crc32.IEEE.

(** The size of the buffer [CalculateCRC32] reads into. *)
Definition bufsize : N := 64 * 1024.

(** [file.Read buf] with a buffer of [k] bytes: the bytes read and the
    bytes left in the file. *)
Fixpoint Read (k : N) (rest : list Byte.byte)
  : list Byte.byte * list Byte.byte :=
  match rest with
  | [] => ([], [])
  | b :: r =>
      if (k =? 0)%N then ([], rest)
      else let '(got, remaining) := Read (N.pred k) r in (b :: got, remaining)
  end.

(** The read loop of [CalculateCRC32]: [Read] fills the buffer from
    what is left of the file, the bytes read go through [hash.Write],
    and a read of nothing at the end of the file ends the loop with
    [hash.Sum32].  [n] is the number of iterations left; it starts at
    the length of the file, which no run exceeds. *)
Fixpoint read_loop (n : nat) (hash : Z) (rest : list Byte.byte) : Z :=
  match n with
  | O => hash
  | S n' =>
      match rest with
      | [] => hash
      | _ =>
          let '(got, remaining) := Read bufsize rest in
          read_loop n' (Crc32.Update hash CRC32Table got) remaining
      end
  end.

(** [CalculateCRC32]. *)
Definition CalculateCRC32 (st : state) (filePath : string) : error + Z :=
  match Stat st filePath with
  | inl e => inl (Wrapped "failed to open file" (PathError "open" filePath e))
  | inr (File _ data) => inr (read_loop (List.length data) 0 data)
  | inr (Dir _) =>
      inl (Wrapped "failed to read file" (PathError "read" filePath EISDIR))
  | inr (Symlink _) =>
      inl (Wrapped "failed to open file" (PathError "open" filePath ELOOP))
  end.

(** [CalculateCRC32Bytes]. *)
Definition CalculateCRC32Bytes (data : list Byte.byte) : Z :=
  Crc32.Checksum data CRC32Table.

(** [Entry]. *)
Record Entry := mkEntry { Checksum : Z; Path : string }.

(** The function [CreateCRC32Sums] passes to [Walk]; [entries] is the
    slice it appends to. *)
Definition sums_fn (st : state) (directory : string)
    (entries : list Entry) (v : Walker.visit) : list Entry * option error :=
  match Walker.v_err v with
  | Some e => (entries, Some (PathError "lstat" (Walker.v_path v) e))
  | None =>
      match Walker.v_info v with
      | None => (entries, None)
      | Some info =>
          if is_dir info then (entries, None)
          else
            match Filepath.Rel directory (Walker.v_path v) with
            | None =>
                (entries,
                 Some (Wrapped "failed to get relative path"
                         (Plain "Rel: can't make path relative")))
            | Some relPath =>
                match CalculateCRC32 st (Walker.v_path v) with
                | inl e =>
                    (entries,
                     Some (Wrapped ("failed to calculate CRC32 for " +:+ relPath) e))
                | inr checksum =>
                    (entries ++ [mkEntry checksum relPath], None)
                end
            end
      end
  end.

(** One line of the manifest: ["%08x  %s\n"]. *)
Definition format_entry (e : Entry) : string :=
  Fmt.Sprintf_08x (Checksum e) +:+ "  " +:+ Path e +:+ String "010" "".

Definition manifest (entries : list Entry) : string :=
  String.concat "" (map format_entry entries).

(** [CreateCRC32Sums]: the entries or the error, and the file system
    it leaves. *)
Definition CreateCRC32Sums (st : state) (directory outputPath : string)
  : (error + list Entry) * state :=
  match Walker.Walk st directory (sums_fn st directory) [] with
  | (_, Some err) => (inl err, st)
  | (entries, None) =>
      match WriteFile st outputPath 0x1b6
              (String.list_byte_of_string (manifest entries)) with
      | inl e =>
          (inl (Wrapped "failed to create crc32sums file"
                  (PathError "open" outputPath e)), st)
      | inr st' => (inr entries, st')
      end
  end.

(** The body of the loop of [VerifyCRC32Sums] on one line. *)
Definition verify_line (st : state) (baseDir : string)
    (acc : list string * list string) (line : string)
  : list string * list string :=
  let '(passed, failed) := acc in
  if String.eqb line "" then acc
  else
    match GoStrings.SplitN2 line "  " with
    | [p0; p1] =>
        match Fmt.Sscanf_x p0 with
        | None => (passed, failed ++ [p1])
        | Some expectedSum =>
            let filePath := Filepath.Join [baseDir; p1] in
            match CalculateCRC32 st filePath with
            | inl _ => (passed, failed ++ [p1])
            | inr actualSum =>
                if Z.eqb actualSum expectedSum
                then (passed ++ [p1], failed)
                else (passed, failed ++ [p1])
            end
        end
    | _ => acc
    end.

(** [VerifyCRC32Sums]: passed, failed, and the error returned. *)
Definition VerifyCRC32Sums (st : state) (sumsFile baseDir : string)
  : list string * list string * option error :=
  match Stat st sumsFile with
  | inl e =>
      ([], [], Some (Wrapped "failed to open crc32sums"
                       (PathError "open" sumsFile e)))
  | inr (File _ data) =>
      let '(lines, serr) := Bufio.lines (String.string_of_list_byte data) in
      let '(passed, failed) := fold_left (verify_line st baseDir) lines ([], []) in
      (passed, failed,
       match serr with
       | Some Bufio.ErrTooLong => Some (Plain "bufio.Scanner: token too long")
       | None => None
       end)
  | inr _ => ([], [], Some (PathError "read" sumsFile EISDIR))
  end.

End Checksum.

(** ** Package [archive/tar]: headers and the record stream

    The container is kept at the level of the records the tar writer is
    given and the tar reader returns: a header and, for a regular file,
    its content.  The framing of the records and the xz filter around
    them are the two libraries' business. *)

Module Tar.

Inductive typeflag :=
| TypeReg | TypeLink | TypeSymlink | TypeDir | TypeOther (flag : ascii).

Record Header := mkHeader {
  Typeflag : typeflag;
  Name : string;
  Linkname : string;
  Size : Z;
  Mode : Z
}.

(** [tar.FileInfoHeader fi link] on what [Lstat] returned for an
    object called [name]: permission and special bits in [Mode], the
    size of a regular file, a slash after the name of a directory. *)
Definition FileInfoHeader (name : string) (fi : Os.node) (link : string)
  : Header :=
  match fi with
  | Os.File m data =>
      mkHeader TypeReg name "" (Z.of_nat (List.length data)) (Z.land m 0xfff)
  | Os.Dir m => mkHeader TypeDir (name +:+ "/") "" 0 (Z.land m 0xfff)
  | Os.Symlink _ => mkHeader TypeSymlink name link 0 Os.ModePerm
  end.

(** A record, and how the stream ends: with [io.EOF]; with the error
    [err] of the reader where the next header should stand; or with a
    last header [h] whose content breaks off with the error [err] after
    the bytes [got]. *)
Definition record : Type := Header * list Byte.byte.

Inductive ending :=
| EOF
| Broken (err : Os.error)
| Cut (h : Header) (got : list Byte.byte) (err : Os.error).

Definition stream : Type := list record * ending.

End Tar.

(** ** Package [archive] of the repository *)

Module Archive.

Import Os Tar.

(** [MaxFileSize], [MaxArchiveSize], [MaxFiles]. *)
Definition MaxFileSize : Z := 100 * 1024 * 1024.
Definition MaxArchiveSize : Z := 1024 * 1024 * 1024.
Definition MaxFiles : Z := 10000.

(** Arithmetic on [int64] and on [int], 64 bits wide. *)
Definition wrap64 (z : Z) : Z := (z + 2 ^ 63) mod 2 ^ 64 - 2 ^ 63.

(** [CreateResult]. *)
Record CreateResult := mkCreateResult { FilesAdded : Z; TotalSize : Z }.

Definition base_name (path : string) : string :=
  default "" (last (Filepath.elements path)).

(** The function [Create] passes to [Walk]; it captures [result] and
    the tar writer, here the records written so far. *)
Definition create_fn (st : state) (sourceDir : string)
    (s : CreateResult * list record) (v : Walker.visit)
  : (CreateResult * list record) * option error :=
  let '(result, out) := s in
  let path := Walker.v_path v in
  match Walker.v_err v, Walker.v_info v with
  | Some e, _ => (s, Some (PathError "lstat" path e))
  | None, None => (s, None)
  | None, Some info =>
      match Filepath.Rel sourceDir path with
      | None =>
          (s, Some (Wrapped "failed to get relative path"
                      (Plain "Rel: can't make path relative")))
      | Some relPath =>
          if String.eqb relPath "." then (s, None)
          else
            let header := FileInfoHeader (base_name path) info "" in
            let header :=
              mkHeader (Typeflag header) relPath (Linkname header)
                       (Size header) (Mode header) in
            let linked :=
              if is_symlink info then
                match Readlink st path with
                | inl e =>
                    inl (Wrapped "failed to read symlink"
                           (PathError "readlink" path e))
                | inr link =>
                    inr (mkHeader (Typeflag header) (Name header) link
                                  (Size header) (Mode header))
                end
              else inr header in
            match linked with
            | inl e => (s, Some e)
            | inr header =>
                if is_regular info then
                  match ReadAll st path with
                  | inl e =>
                      ((result, out ++ [(header, [])]),
                       Some (Wrapped "failed to open file"
                               (PathError "open" path e)))
                  | inr data =>
                      let written := Z.of_nat (List.length data) in
                      ((mkCreateResult
                          (wrap64 (FilesAdded result + 1))
                          (wrap64 (TotalSize result + written)),
                        out ++ [(header, data)]), None)
                  end
                else
                  ((mkCreateResult (wrap64 (FilesAdded result + 1))
                                   (TotalSize result),
                    out ++ [(header, [])]), None)
            end
      end
  end.

(** [Create]: the records written to the archive, and the result or
    the error returned.  [os.Create] makes the archive file, or empties
    the file that is there, before the walk starts; the walk runs on the
    file system that holds it.  The bytes the two writers put into the
    file are not part of the file system of this model: a walk that meets
    the archive file reads it as it was created. *)
Definition Create (st : state) (archivePath sourceDir : string)
  : list record * (error + CreateResult) :=
  match WriteFile st archivePath 0x1b6 [] with
  | inl e =>
      ([], inl (Wrapped "failed to create archive file"
                  (PathError "open" archivePath e)))
  | inr st0 =>
      match Walker.Walk st0 sourceDir (create_fn st0 sourceDir)
              (mkCreateResult 0 0, []) with
      | ((_, out), Some err) => (out, inl err)
      | ((result, out), None) => (out, inr result)
      end
  end.

(** [isPathSafe]. *)
Definition isPathSafe (path baseDir : string) : bool :=
  if String.eqb path "" then false
  else if GoStrings.Contains path ".." then false
  else if Filepath.IsAbs path then false
  else if GoStrings.ContainsRune path "000" then false
  else
    let fullPath := Filepath.Join [baseDir; path] in
    let cleanPath := Filepath.Clean fullPath in
    GoStrings.HasPrefix cleanPath (Filepath.Clean baseDir).

(** What [Extract] prints. *)
Inductive warning :=
| SkipUnsafe (name : string)
| SkipLarge (name : string)
| SymlinkFailed (name : string) (e : errno)
| LinkFailed (name : string) (e : errno).

(** The variables of the loop of [Extract], the file system and what
    was printed. *)
Record progress := mkProgress {
  fsys : state;
  totalSize : Z;
  fileCount : Z;
  printed : list warning
}.

Definition failed (msg op path : string) (e : errno) : error :=
  Wrapped msg (PathError op path e).

(** The [switch] on [header.Typeflag]. *)
Definition apply_entry (destDir : string) (st : state) (header : Header)
    (body : list Byte.byte) : error + (state * list warning) :=
  let targetPath := Filepath.Join [destDir; Name header] in
  match Typeflag header with
  | TypeDir =>
      match MkdirAll st targetPath (FileMode (Mode header)) with
      | inl e => inl (failed "failed to create directory" "mkdir" targetPath e)
      | inr st' => inr (st', [])
      end
  | TypeReg =>
      match MkdirAll st (Filepath.Dir targetPath) 0x1ed with
      | inl e =>
          inl (failed "failed to create parent directory" "mkdir"
                 (Filepath.Dir targetPath) e)
      | inr st1 =>
          match WriteFile st1 targetPath (FileMode (Mode header)) body with
          | inl e => inl (failed "failed to create file" "open" targetPath e)
          | inr st2 => inr (st2, [])
          end
      end
  | TypeSymlink =>
      match MkdirAll st (Filepath.Dir targetPath) 0x1ed with
      | inl e =>
          inl (failed "failed to create parent directory" "mkdir"
                 (Filepath.Dir targetPath) e)
      | inr st1 =>
          match MkSymlink st1 (Linkname header) targetPath with
          | inr st2 => inr (st2, [])
          | inl EEXIST => inr (st1, [])
          | inl e => inr (st1, [SymlinkFailed (Name header) e])
          end
      end
  | TypeLink =>
      match MkdirAll st (Filepath.Dir targetPath) 0x1ed with
      | inl e =>
          inl (failed "failed to create parent directory" "mkdir"
                 (Filepath.Dir targetPath) e)
      | inr st1 =>
          let linkPath := Filepath.Join [destDir; Linkname header] in
          match Link st1 linkPath targetPath with
          | inr st2 => inr (st2, [])
          | inl e => inr (st1, [LinkFailed (Name header) e])
          end
      end
  | TypeOther _ => inr (st, [])
  end.

(** One iteration of the loop of [Extract] on the record [tarReader.Next]
    returned: the variables after it, or the error [Extract] returns,
    with the variables as they are then. *)
Definition extract_step (destDir : string) (p : progress) (r : record)
  : progress * option error :=
  let '(header, body) := r in
  if negb (isPathSafe (Name header) destDir) then
    (mkProgress (fsys p) (totalSize p) (fileCount p)
                (printed p ++ [SkipUnsafe (Name header)]), None)
  else if MaxFileSize <? Size header then
    (mkProgress (fsys p) (totalSize p) (fileCount p)
                (printed p ++ [SkipLarge (Name header)]), None)
  else
    let totalSize' := wrap64 (totalSize p + Size header) in
    if MaxArchiveSize <? totalSize' then
      (mkProgress (fsys p) totalSize' (fileCount p) (printed p),
       Some (Plain "archive too large (>1GB limit)"))
    else
      let fileCount' := wrap64 (fileCount p + 1) in
      if MaxFiles <? fileCount' then
        (mkProgress (fsys p) totalSize' fileCount' (printed p),
         Some (Plain "too many files in archive (>10000 limit)"))
      else
        match apply_entry destDir (fsys p) header body with
        | inl e =>
            (mkProgress (fsys p) totalSize' fileCount' (printed p), Some e)
        | inr (st', ws) =>
            (mkProgress st' totalSize' fileCount' (printed p ++ ws), None)
        end.

(** The entries whose content [io.Copy] reads: regular files that are
    not skipped. *)
Definition copies (destDir : string) (header : Header) : bool :=
  isPathSafe (Name header) destDir
  && negb (MaxFileSize <? Size header)
  && match Typeflag header with TypeReg => true | _ => false end.

(** The iteration on a last record whose content breaks off after
    [got]: [io.Copy] writes [got] and returns the reader's error; an
    entry whose content is not copied is dealt with as usual, and the
    error comes from the next call of [tarReader.Next]. *)
Definition extract_cut (destDir : string) (p : progress) (header : Header)
    (got : list Byte.byte) (err : error) : progress * option error :=
  match extract_step destDir p (header, got) with
  | (p', Some e) => (p', Some e)
  | (p', None) =>
      (p', Some (Wrapped (if copies destDir header
                          then "failed to write file"
                          else "failed to read tar header") err))
  end.

(** The loop over the records of the stream. *)
Fixpoint extract_loop (destDir : string) (p : progress) (rs : list record)
    (e : ending) : progress * option error :=
  match rs with
  | [] =>
      match e with
      | EOF => (p, None)
      | Broken err => (p, Some (Wrapped "failed to read tar header" err))
      | Cut header got err => extract_cut destDir p header got err
      end
  | r :: rs' =>
      match extract_step destDir p r with
      | (p', None) => extract_loop destDir p' rs' e
      | (p', Some err) => (p', Some err)
      end
  end.

(** [Extract], on the stream the archive decodes to. *)
Definition Extract (archive : stream) (destDir : string) (st : state)
  : progress * option error :=
  extract_loop destDir (mkProgress st 0 0 []) (fst archive) (snd archive).

(** [ListContents]. *)
Definition ListContents (archive : stream) : error + list string :=
  match snd archive with
  | EOF => inr (map (fun r => Name (fst r)) (fst archive))
  | Broken err | Cut _ _ err => inl (Wrapped "failed to read tar header" err)
  end.

End Archive.

(** ** Package [builder] of the repository: the checksum commands

    [GenerateChecksums] and [VerifyChecksums], with what they print: each
    element of the list is the text of one call of [fmt.Printf]. *)

Module Builder.

Import Os.

Definition ESC : string := String "027" "".

(** The colour codes for terminal output. *)
Definition ColorReset : string := ESC +:+ "[0m".
Definition ColorRed : string := ESC +:+ "[31m".
Definition ColorGreen : string := ESC +:+ "[32m".
Definition ColorYellow : string := ESC +:+ "[33m".
Definition ColorCyan : string := ESC +:+ "[36m".
Definition ColorBold : string := ESC +:+ "[1m".

Definition nl : string := String "010" "".

(** The decimal digits of a number that is not negative. *)
Fixpoint decimal (fuel : nat) (n : Z) : string :=
  match fuel with
  | O => ""
  | S f =>
      (if n <? 10 then "" else decimal f (n / 10))
      +:+ String (ascii_of_nat (Z.to_nat (48 + n mod 10))) ""
  end.

(** [%d] applied to [len(...)]. *)
Definition Sprintf_d (n : Z) : string := decimal (S (Z.to_nat (Z.log2 n))) n.

Definition len {A} (l : list A) : Z := Z.of_nat (List.length l).

(** [GenerateChecksums]: what is printed, the error returned, and the
    file system left. *)
Definition GenerateChecksums (st : state) (directory outputPath : string)
  : list string * option error * state :=
  let out :=
    [ColorCyan +:+ "Generating CRC32 checksums for: " +:+ directory
     +:+ ColorReset +:+ nl] in
  match Stat st directory with
  | inl _ =>
      (out, Some (Plain ("directory does not exist: " +:+ directory)), st)
  | inr info =>
      if negb (is_dir info) then
        (out, Some (Plain ("path is not a directory: " +:+ directory)), st)
      else
        match Checksum.CreateCRC32Sums st directory outputPath with
        | (inl err, st') =>
            (out, Some (Wrapped "failed to generate checksums" err), st')
        | (inr entries, st') =>
            (out
             ++ map (fun entry =>
                       ColorGreen +:+ "  "
                       +:+ Fmt.Sprintf_08x (Checksum.Checksum entry) +:+ "  "
                       +:+ Checksum.Path entry +:+ ColorReset +:+ nl)
                  entries
             ++ [ColorGreen +:+ " Generated " +:+ Sprintf_d (len entries)
                 +:+ " checksums to " +:+ outputPath +:+ ColorReset +:+ nl],
             None, st')
        end
  end.

(** [VerifyChecksums]: what is printed and the error returned. *)
Definition VerifyChecksums (st : state) (sumsFile baseDir : string)
  : list string * option error :=
  let out :=
    [ColorCyan +:+ "Verifying checksums from: " +:+ sumsFile
     +:+ ColorReset +:+ nl] in
  match Checksum.VerifyCRC32Sums st sumsFile baseDir with
  | (_, _, Some err) => (out, Some (Wrapped "verification failed" err))
  | (passed, failed, None) =>
      let out :=
        out
        ++ map (fun f => ColorGreen +:+ "  " +:+ f +:+ ColorReset +:+ nl)
             passed
        ++ map (fun f => ColorRed +:+ "  " +:+ f +:+ ColorReset +:+ nl)
             failed
        ++ [nl +:+ ColorCyan +:+ "Passed: " +:+ Sprintf_d (len passed)
            +:+ ", Failed: " +:+ Sprintf_d (len failed)
            +:+ ColorReset +:+ nl] in
      if 0 <? len failed then
        (out, Some (Plain (Sprintf_d (len failed)
                           +:+ " files failed verification")))
      else (out, None)
  end.

End Builder.

(** * Notions used in the statements *)

(** A file name: not empty, not [.] or [..], without separator and
    without zero byte. *)
Definition valid_name (n : string) : bool :=
  negb (String.eqb n "") && negb (String.eqb n ".")
  && negb (String.eqb n "..")
  && negb (GoStrings.ContainsRune n "/")
  && negb (GoStrings.ContainsRune n "000").

(** The absolute, clean path string of a location. *)
Definition abs_path (l : Os.loc) : string := Filepath.render true l.

(** The relative path string of a list of names. *)
Definition rel_path (names : list string) : string :=
  GoStrings.Join names "/".

(** Lists of file names. *)
Abbreviation valid_names := (Forall (fun n => valid_name n = true)).

(** Every location above [l] holds a directory. *)
Definition dirs_above (m : gmap Os.loc Os.node) (l : Os.loc) : Prop :=
  forall p, p `prefix_of` l -> p ≠ l -> exists md, m !! p = Some (Os.Dir md).

(** A well-formed tree: names are file names, and what holds something
    is a directory. *)
Definition wf_tree (m : gmap Os.loc Os.node) : Prop :=
  forall l x n, m !! (l ++ [x]) = Some n ->
    valid_name x = true /\ exists md, m !! l = Some (Os.Dir md).

(** The bytes written for a list of records. *)
Definition content_bytes (out : list Tar.record) : Z :=
  foldr (fun r acc => Z.of_nat (length (snd r)) + acc) 0 out.


(** ** States and archives used as examples *)

Definition bytes (s : string) : list Byte.byte := String.list_byte_of_string s.

(** A state with root [/], working directory [/] and umask 022. *)
Definition example_state (objects : list (Os.loc * Os.node)) : Os.state :=
  Os.mkState (list_to_map (([], Os.Dir 493) :: objects)) [] 18.

(** Two files with the same content. *)
Definition ex_twins : Os.state :=
  example_state [ (["a"], Os.File 420 (bytes "hello"));
                  (["b"], Os.File 384 (bytes "hello")) ].


(** An empty destination directory [/dst]. *)
Definition ex_dest : Os.state := example_state [ (["dst"], Os.Dir 493) ].

(** A regular file record of declared size [size], without content. *)
Definition declared (name : string) (size : Z) : Tar.record :=
  (Tar.mkHeader Tar.TypeReg name "" size 420, []).

(** Ten records of 100 MiB each. *)
Definition ex_ten_large : list Tar.record :=
  map (fun n => declared n Archive.MaxFileSize)
      ["f0"; "f1"; "f2"; "f3"; "f4"; "f5"; "f6"; "f7"; "f8"; "f9"].

(** What the loop of [Extract] keeps true of its two counters. *)
Definition counters_ok (p : Archive.progress) : Prop :=
  - 2 ^ 63 <= Archive.totalSize p <= Archive.MaxArchiveSize
  /\ 0 <= Archive.fileCount p <= Archive.MaxFiles.

(** A record that declares one byte more than [MaxFileSize]. *)
Definition ex_too_large : Tar.record :=
  declared "big" (Archive.MaxFileSize + 1).


(** A source directory with two files, a directory and a symbolic
    link. *)
Definition ex_tree : Os.state :=
  example_state
    [ (["src"], Os.Dir 493);
      (["src"; "a"], Os.File 420 (bytes "hello"));
      (["src"; "d"], Os.Dir 448);
      (["src"; "d"; "f"], Os.File 384 (bytes "hello world"));
      (["src"; "l"], Os.Symlink "d/f");
      (["dst"], Os.Dir 493) ].

(** What lies at and below [root ++ ns], in the order of [Walk], each
    object with its names below [root]. *)
Fixpoint listing (depth : nat) (m : gmap Os.loc Os.node) (root : Os.loc)
    (ns : list string) (n : Os.node) : list (list string * Os.node) :=
  (ns, n) ::
  match n, depth with
  | Os.Dir _, S d =>
      flat_map
        (fun x =>
           match m !! (root ++ ns ++ [x]) with
           | Some c => listing d m root (ns ++ [x]) c
           | None => []
           end)
        (merge_sort String.leb (Os.names_at m (root ++ ns)))
  | _, _ => []
  end.

(** The call of the walk function for an object of the listing. *)
Definition visit_of (root : Os.loc) (o : list string * Os.node)
  : Walker.visit :=
  Walker.Visit (abs_path (root ++ fst o)) (Some (snd o)) None.

(** A path the manifest can hold on one line: no newline in it, no
    carriage return at its end, not empty, short enough for the
    scanner's buffer. *)
Definition manifest_safe (path : string) : Prop :=
  GoStrings.ContainsRune path "010" = false
  /\ Bufio.dropCR path = path
  /\ String.eqb path "" = false
  /\ Z.of_nat (String.length path) + 10 < Bufio.MaxScanTokenSize.

(** The line of the manifest for an entry, without its newline. *)
Definition manifest_line (e : Checksum.Entry) : string :=
  Fmt.Sprintf_08x (Checksum.Checksum e) +:+ "  " +:+ Checksum.Path e.

(** The file an entry names, below [baseDir], still has the digest the
    entry records. *)
Definition still_matches (st : Os.state) (baseDir : string)
    (e : Checksum.Entry) : bool :=
  match Checksum.CalculateCRC32 st
          (Filepath.Join [baseDir; Checksum.Path e]) with
  | inr c => Z.eqb c (Checksum.Checksum e)
  | inl _ => false
  end.

(** A call of the walk function on something that is not a
    directory. *)
Definition is_file_visit (v : Walker.visit) : bool :=
  match Walker.v_info v with
  | Some n => negb (Os.is_dir n)
  | None => false
  end.

(** The entry [CreateCRC32Sums] records for a visit: the path relative
    to the walked directory, and the digest of the bytes the path reads
    as a regular file. *)
Definition recorded (st : Os.state) (directory : string)
    (v : Walker.visit) (e : Checksum.Entry) : Prop :=
  Filepath.Rel directory (Walker.v_path v) = Some (Checksum.Path e)
  /\ exists m data,
       Os.Stat st (Walker.v_path v) = inr (Os.File m data)
       /\ Checksum.Checksum e = Checksum.CalculateCRC32Bytes data.

(** The first byte of [x], if any, is not a separator. *)
Definition unrooted (x : string) : Prop :=
  forall s, Filepath.IsAbs (x +:+ s) = false.



(** The spec's words: a checksum field that is valid hexadecimal, one
    digit or more and nothing else. *)
Definition spec_valid_hexadecimal (field : string) : bool :=
  negb (String.eqb field "")
  && forallb (fun c => match Fmt.digit_val c with Some _ => true | None => false end)
       (String.list_ascii_of_string field).

(** A directory with one file and a manifest whose checksum field has
    two letters after the digits. *)
Definition ex_lenient : Os.state :=
  example_state
    [ (["d"], Os.Dir 493);
      (["d"; "hello.txt"], Os.File 420 (bytes "hello"));
      (["m"], Os.File 420 (bytes ("3610a686zz  hello.txt" +:+ String "010" ""))) ].

(** A directory with one file; the state after its manifest is written
    to [/m]; and that state with the file's bytes replaced by other
    bytes of the same digest. *)
Definition ex_plumless : Os.state :=
  example_state
    [ (["d"], Os.Dir 493);
      (["d"; "f"], Os.File 420 (bytes "plumless")) ].




(** Checks of [wf_tree] and [dirs_above] that compute. *)
Definition wf_treeb (m : gmap Os.loc Os.node) : bool :=
  forallb
    (fun kv =>
       match last (fst kv) with
       | None => true
       | Some x =>
           valid_name x
           && match m !! removelast (fst kv) with
              | Some (Os.Dir _) => true
              | _ => false
              end
       end)
    (map_to_list m).

Definition dirs_aboveb (m : gmap Os.loc Os.node) (l : Os.loc) : bool :=
  forallb
    (fun i => match m !! take i l with Some (Os.Dir _) => true | _ => false end)
    (seq 0 (length l)).

(** Each object of a list comes after the directory that holds it;
    [seen] are the directories before the list. *)
Fixpoint parents_first (seen : list (list string))
    (L : list (list string * Os.node)) : Prop :=
  match L with
  | [] => True
  | o :: L' =>
      (exists ns0 x, fst o = ns0 ++ [x] /\ ns0 ∈ seen)
      /\ parents_first (if Os.is_dir (snd o) then fst o :: seen else seen) L'
  end.

(** The record [Create] writes for an object of the listing. *)
Definition record_of (o : list string * Os.node) : Tar.record :=
  match snd o with
  | Os.File m data =>
      (Tar.mkHeader Tar.TypeReg (rel_path (fst o)) ""
         (Z.of_nat (length data)) (Z.land m 0xfff), data)
  | Os.Dir m =>
      (Tar.mkHeader Tar.TypeDir (rel_path (fst o)) "" 0 (Z.land m 0xfff), [])
  | Os.Symlink t =>
      (Tar.mkHeader Tar.TypeSymlink (rel_path (fst o)) t 0 Os.ModePerm, [])
  end.

(** What [Extract] makes of an object under umask [u]: the permission
    bits the umask leaves, the content, the link target.  A directory
    also has the set-group-ID bit [g] of the directory it is made in. *)
Definition extracted_mode (u m : Z) : Z :=
  Z.ldiff (Z.land m Os.ModePerm) (Z.land u Os.ModePerm).

Definition extracted (g u : Z) (n : Os.node) : Os.node :=
  match n with
  | Os.File m data => Os.File (extracted_mode u m) data
  | Os.Dir m => Os.Dir (Z.lor (extracted_mode u m) g)
  | Os.Symlink t => Os.Symlink t
  end.

(** No symbolic link of a list of objects has an empty target. *)
Definition link_named (n : Os.node) : Prop :=
  match n with Os.Symlink t => t ≠ "" | _ => True end.

(** What lies below the directory at [root], in the order of the
    walk. *)
Definition below_root (st : Os.state) (root : Os.loc) (md : Z)
  : list (list string * Os.node) :=
  tail (listing (S (Walker.max_depth st)) (Os.nodes st) root [] (Os.Dir md)).

(** The objects of a list placed below [D], as [Extract] leaves them
    under umask [u]. *)
Definition placed (D : Os.loc) (g u : Z) (m : gmap Os.loc Os.node)
    (L : list (list string * Os.node)) : gmap Os.loc Os.node :=
  foldl (fun m o => <[D ++ fst o := extracted g u (snd o)]> m) m L.

(** A check of every object of a tree that computes. *)
Definition all_nodes (P : Os.loc -> Os.node -> bool)
    (m : gmap Os.loc Os.node) : bool :=
  forallb (fun kv => P (fst kv) (snd kv)) (map_to_list m).




(** The records [Extract] applies: the ones it skips neither as unsafe
    nor as too large. *)
Definition is_applied (destDir : string) (r : Tar.record) : bool :=
  Archive.isPathSafe (Tar.Name (fst r)) destDir
  && negb (Archive.MaxFileSize <? Tar.Size (fst r)).

(** The sizes the headers of a list of records declare, added up. *)
Definition declared_bytes (rs : list Tar.record) : Z :=
  foldr (fun r acc => Tar.Size (fst r) + acc) 0 rs.

(** The path a line of a manifest names, if the line has the two
    fields. *)
Definition path_of_line (line : string) : option string :=
  if String.eqb line "" then None
  else match GoStrings.SplitN2 line "  " with
       | [_; p1] => Some p1
       | _ => None
       end.

(** The destination below [D] already holds the object [o] of an
    archive: the file with its bytes, the directory, or anything at all
    where the archive has a symbolic link. *)
Definition present (m : gmap Os.loc Os.node) (D : Os.loc)
    (o : list string * Os.node) : Prop :=
  match snd o with
  | Os.File _ data => exists m', m !! (D ++ fst o) = Some (Os.File m' data)
  | Os.Dir _ => exists m', m !! (D ++ fst o) = Some (Os.Dir m')
  | Os.Symlink _ => is_Some (m !! (D ++ fst o))
  end.

(** Four records: two that are applied, one too large, one unsafe. *)
Definition ex_mixed : list Tar.record :=
  [declared "a" 5; ex_too_large; declared "../x" 1; declared "b" 7].

(** A directory [/src] with one file, and a symbolic link [/link] to
    it. *)
Definition ex_linked : Os.state :=
  example_state
    [ (["src"], Os.Dir 493);
      (["src"; "a"], Os.File 420 (bytes "hello"));
      (["link"], Os.Symlink "src") ].

(** A directory with a file and a symbolic link that leads nowhere. *)
Definition ex_dangling : Os.state :=
  example_state
    [ (["src"], Os.Dir 493);
      (["src"; "a"], Os.File 420 (bytes "hello"));
      (["src"; "z"], Os.Symlink "nowhere") ].

(** A manifest with a line for an unchanged file, a line for a missing
    file, a line without separator and an empty line. *)
Definition ex_lines : Os.state :=
  example_state
    [ (["d"], Os.Dir 493);
      (["d"; "hello.txt"], Os.File 420 (bytes "hello"));
      (["m"], Os.File 420
                (bytes ("3610a686  hello.txt" +:+ String "010" ""
                        +:+ "no separator here" +:+ String "010" ""
                        +:+ String "010" ""
                        +:+ "00000000  gone.txt" +:+ String "010" ""))) ].

(** The names a relative path adds to the location it is joined to:
    its elements, the empty ones and [.] apart. *)
Definition added_names_of (path : string) : list string :=
  filter (fun e => e ≠ "" /\ e ≠ ".") (Filepath.elements path).

(** A destination that holds a file, a directory and a second file, and
    the objects of an archive with the same file under another mode, the
    same directory under another mode, and a symbolic link where the
    destination has the second file. *)
Definition ex_present : Os.state :=
  example_state
    [ (["dst"], Os.Dir 493);
      (["dst"; "a"], Os.File 384 (bytes "hello"));
      (["dst"; "d"], Os.Dir 448);
      (["dst"; "l"], Os.File 420 (bytes "x")) ].

Definition ex_present_objects : list (list string * Os.node) :=
  [ (["a"], Os.File 420 (bytes "hello"));
    (["d"], Os.Dir 493);
    (["l"], Os.Symlink "a") ].

(** An empty destination [/dst] beside a directory [/etc] that holds a
    file. *)
Definition ex_outside : Os.state :=
  example_state
    [ (["dst"], Os.Dir 493);
      (["etc"], Os.Dir 493);
      (["etc"; "passwd"], Os.File 420 (bytes "root")) ].

(** An empty destination [/srv/dst] beside a file [/srv/secret]. *)
Definition ex_beside : Os.state :=
  example_state
    [ (["srv"], Os.Dir 493);
      (["srv"; "dst"], Os.Dir 493);
      (["srv"; "secret"], Os.File 384 (bytes "key")) ].

(** ** The checksum field of a manifest line, in the words of [fmt]'s
    documentation *)

(** The hexadecimal digits by value, in either case. *)
Definition lower_digits : list ascii :=
  String.list_ascii_of_string "0123456789abcdef".
Definition upper_digits : list ascii :=
  String.list_ascii_of_string "0123456789ABCDEF".

Fixpoint index_of (c : ascii) (l : list ascii) : option Z :=
  match l with
  | [] => None
  | x :: r => if Ascii.eqb c x then Some 0 else Z.succ <$> index_of c r
  end.

Definition digit_of (c : ascii) : option Z :=
  match index_of c lower_digits with
  | Some d => Some d
  | None => index_of c upper_digits
  end.

(** A byte of a number as [%x] reads it: a digit or an underscore. *)
Definition number_byte (c : ascii) : bool :=
  match digit_of c with Some _ => true | None => Ascii.eqb c "_" end.

(** The number a run of digits denotes, most significant digit first;
    none if an underscore stands among them. *)
Fixpoint number (acc : Z) (tok : string) : option Z :=
  match tok with
  | EmptyString => Some acc
  | String c r =>
      match digit_of c with
      | Some d => number (16 * acc + d) r
      | None => None
      end
  end.

(** The value of the run of number bytes [tok] as a [uint32]: none if
    the run is empty, holds an underscore, or denotes 2^32 or more. *)
Definition field_value (tok : string) : option Z :=
  if String.eqb tok "" then None
  else match number 0 tok with
       | Some v => if v <? 2 ^ 32 then Some v else None
       | None => None
       end.

(** [s] starts with none of the space runes. *)
Definition no_space_first (s : string) : Prop :=
  Forall (fun w => String.prefix w s = false) Fmt.spaces.

(** [s] does not start with a number byte. *)
Definition no_number_byte_first (s : string) : Prop :=
  match s with
  | EmptyString => True
  | String c _ => number_byte c = false
  end.

(** The lines of a text file in which every line ends with a newline. *)
Definition text_of_lines (ls : list string) : string :=
  String.concat "" (map (fun l => l +:+ String "010" "") ls).

(** A line the scanner takes whole. *)
Definition scannable (l : string) : Prop :=
  GoStrings.ContainsRune l "010" = false ∧ Bufio.too_long l = false.



(** ** Paths as they are written

    A directory is given to [Create] and [Extract] as a path string of
    any form: absolute or relative, with [.] and [..] elements, doubled
    or trailing separators.  [Join] cleans what it builds, so below a
    directory [p] the code works with the paths [below p ns]. *)

(** The elements [Clean] keeps of a path. *)
Definition clean_of (p : string) : list string :=
  Filepath.clean_elements (Filepath.IsAbs p) (Filepath.elements p).

(** The path of the names [ns] below the directory [p], as [Join]
    builds it. *)
Definition below (p : string) (ns : list string) : string :=
  Filepath.render (Filepath.IsAbs p) (clean_of p ++ ns).

(** An element [Clean] keeps as a name. *)
Definition proper (e : string) : Prop :=
  e ≠ "" ∧ e ≠ "." ∧ e ≠ ".." ∧ GoStrings.ContainsRune e "/" = false.

(** The buffer of [Clean]: names, after the [..] elements that a path
    which is not rooted may start with. *)
Definition cleaned (rooted : bool) (l : list string) : Prop :=
  ∃ k rest, l = replicate k ".." ++ rest
            ∧ (rooted = true → k = 0%nat) ∧ Forall proper rest.

(** The path [Walk] visits the object of names [ns] below the root [p]
    under: the root as it was given, and below it what [Join] builds. *)
Definition path_at (p : string) (ns : list string) : string :=
  match ns with [] => p | _ => below p ns end.

Definition visit_at (p : string) (o : list string * Os.node) : Walker.visit :=
  Walker.Visit (path_at p (fst o)) (Some (snd o)) None.

(** [ex_tree] once the archive file [/out.tar.xz] is made. *)
Definition ex_tree_packing : Os.state :=
  Os.put ex_tree ["out.tar.xz"] (Os.File 420 []).




(** [manifest_safe] as a check that computes. *)
Definition manifest_safeb (path : string) : bool :=
  negb (GoStrings.ContainsRune path "010")
  && String.eqb (Bufio.dropCR path) path
  && negb (String.eqb path "")
  && (Z.of_nat (String.length path) + 10 <? Bufio.MaxScanTokenSize).

(** * Properties *)

(** ** Strings *)

Section StringFacts.

Lemma prefix_app (p s : string) : String.prefix p (p +:+ s) = true.
Proof.
  induction p as [|c p IH]; simpl.
  - by destruct s.
  - destruct (ascii_dec c c); [done | congruence].
Qed.

Lemma Contains_unfold (s sub : string) :
  GoStrings.Contains s sub =
  if String.prefix sub s then true
  else match s with
       | EmptyString => false
       | String _ r => GoStrings.Contains r sub
       end.
Proof. by destruct s. Qed.

Lemma Contains_app (a sub b : string) :
  GoStrings.Contains (a +:+ sub +:+ b) sub = true.
Proof.
  induction a as [|c a IH]; rewrite Contains_unfold.
  - change ("" +:+ sub +:+ b) with (sub +:+ b). by rewrite prefix_app.
  - change (String c a +:+ sub +:+ b) with (String c (a +:+ sub +:+ b)).
    destruct (String.prefix sub _); [done | exact IH].
Qed.

End StringFacts.

(** ** [isPathSafe] *)

Section PathSafety.

Import Archive.

(** Whatever the destination directory, the four unsafe paths of the
    test table are rejected. *)
Lemma isPathSafe_rejects_unsafe (baseDir : string) :
  isPathSafe "../etc/passwd" baseDir = false
  ∧ isPathSafe "/etc/passwd" baseDir = false
  ∧ isPathSafe "" baseDir = false
  ∧ isPathSafe "foo/../../etc/passwd" baseDir = false.
Proof. repeat split; reflexivity. Qed.

Lemma isPathSafe_accepts_test_table :
  isPathSafe "dir/subdir/file.txt" "/tmp/test" = true
  ∧ isPathSafe "file.txt" "/tmp/test" = true.
Proof. split; vm_compute; reflexivity. Qed.

End PathSafety.

(** ** Paths: elements, [Clean], [Join], [Dir], [Rel] *)

Section PathFacts.

Import Filepath.

Lemma eqb_false (a b : string) : a ≠ b → String.eqb a b = false.
Proof. intros H. by apply String.eqb_neq. Qed.

Lemma valid_name_spec (n : string) :
  valid_name n = true ↔
  n ≠ "" ∧ n ≠ "." ∧ n ≠ ".." ∧ GoStrings.ContainsRune n "/" = false
  ∧ GoStrings.ContainsRune n "000" = false.
Proof.
  unfold valid_name. rewrite !andb_true_iff, !negb_true_iff.
  rewrite !String.eqb_neq. tauto.
Qed.

Lemma elements_nonempty (s : string) : elements s ≠ [].
Proof.
  destruct s as [|c s]; simpl; [done|].
  destruct (IsPathSeparator c); [done|]. by destruct (elements s).
Qed.

Lemma elements_app_sep (a b : string) :
  elements (a +:+ "/" +:+ b) = elements a ++ elements b.
Proof.
  induction a as [|c a IH]; [done|].
  change (String c a +:+ "/" +:+ b) with (String c (a +:+ "/" +:+ b)).
  simpl. rewrite IH. destruct (IsPathSeparator c); [done|].
  pose proof (elements_nonempty a). by destruct (elements a).
Qed.

Lemma elements_slashfree (n : string) :
  GoStrings.ContainsRune n "/" = false → elements n = [n].
Proof.
  induction n as [|c n IH]; simpl; [done|].
  unfold IsPathSeparator, Separator.
  destruct (Ascii.eqb c "/"); [done|]. intros H. by rewrite IH.
Qed.

Lemma valid_slashfree (n : string) :
  valid_name n = true → GoStrings.ContainsRune n "/" = false.
Proof. rewrite valid_name_spec. tauto. Qed.

Lemma rel_path_cons (n : string) (ns : list string) :
  ns ≠ [] → rel_path (n :: ns) = n +:+ "/" +:+ rel_path ns.
Proof. by destruct ns. Qed.

Lemma elements_rel_path (ns : list string) :
  ns ≠ [] → valid_names ns →
  elements (rel_path ns) = ns.
Proof.
  induction ns as [|n ns IH]; [done|]. intros _ Hv.
  apply Forall_cons in Hv as [Hn Hv].
  destruct ns as [|n' ns].
  - simpl. by apply elements_slashfree, valid_slashfree.
  - rewrite rel_path_cons by done. rewrite elements_app_sep, IH by done.
    by rewrite elements_slashfree by by apply valid_slashfree.
Qed.

Lemma clean_step_valid (r : bool) (out : list string) (n : string) :
  valid_name n = true → clean_step r out n = out ++ [n].
Proof.
  rewrite valid_name_spec. intros (H1 & H2 & H3 & _).
  unfold clean_step. by rewrite !eqb_false.
Qed.

Lemma clean_fold_valid (r : bool) (ns out : list string) :
  valid_names ns →
  fold_left (clean_step r) ns out = out ++ ns.
Proof.
  revert out. induction ns as [|n ns IH]; intros out Hv; simpl.
  - by rewrite app_nil_r.
  - apply Forall_cons in Hv as [Hn Hv].
    rewrite clean_step_valid, IH by done. by rewrite <- app_assoc.
Qed.

Lemma str_app_cons (x : ascii) (a b : string) :
  String x a +:+ b = String x (a +:+ b).
Proof. done. Qed.

Lemma str_app_assoc (a b c : string) : (a +:+ b) +:+ c = a +:+ b +:+ c.
Proof.
  induction a as [|x a IH]; [done|]. by rewrite !str_app_cons, IH.
Qed.

Lemma str_app_nil_r (a : string) : a +:+ "" = a.
Proof. induction a as [|x a IH]; [done|]. by rewrite str_app_cons, IH. Qed.

Lemma rel_path_snoc (l : list string) (n : string) :
  rel_path (l ++ [n]) =
  match l with [] => n | _ => rel_path l +:+ "/" +:+ n end.
Proof.
  induction l as [|a l IH]; [done|].
  change ((a :: l) ++ [n]) with (a :: (l ++ [n])).
  rewrite rel_path_cons by by destruct l. rewrite IH.
  destruct l as [|b l]; [done|].
  rewrite (rel_path_cons a (b :: l)) by done.
  by rewrite !str_app_assoc.
Qed.

(** [abs_path], one name at a time. *)
Lemma abs_path_snoc (l : list string) (n : string) :
  abs_path (l ++ [n]) =
  (match l with [] => "" | _ => abs_path l end) +:+ "/" +:+ n.
Proof.
  unfold abs_path, render. fold (rel_path (l ++ [n])) (rel_path l).
  rewrite rel_path_snoc. destruct l as [|a l]; [done|].
  by rewrite str_app_assoc.
Qed.

Lemma elements_abs_path (l : list string) :
  valid_names l →
  elements (abs_path l) = match l with [] => [""; ""] | _ => "" :: l end.
Proof.
  induction l as [|n l IH] using rev_ind; [done|]. intros Hv.
  apply Forall_app in Hv as [Hl Hn]. apply Forall_cons in Hn as [Hn _].
  rewrite abs_path_snoc, elements_app_sep.
  rewrite (elements_slashfree n) by by apply valid_slashfree.
  destruct l as [|a l]; [done|]. rewrite IH by done. done.
Qed.

Lemma IsAbs_slash (s : string) : IsAbs ("/" +:+ s) = true.
Proof. by destruct s. Qed.

Lemma IsAbs_abs_path (l : list string) : IsAbs (abs_path l) = true.
Proof. apply IsAbs_slash. Qed.

Lemma abs_path_nonempty (l : list string) : abs_path l ≠ "".
Proof. discriminate. Qed.

Lemma clean_elements_abs (l : list string) :
  valid_names l →
  clean_elements true (elements (abs_path l)) = l.
Proof.
  intros Hv. rewrite elements_abs_path by done. unfold clean_elements.
  destruct l as [|a l]; [done|].
  change (fold_left (clean_step true) ("" :: a :: l) [])
    with (fold_left (clean_step true) (a :: l) []).
  by rewrite clean_fold_valid.
Qed.

(** An absolute path of valid names is clean. *)
Lemma Clean_abs_path (l : list string) :
  valid_names l → Clean (abs_path l) = abs_path l.
Proof.
  intros Hv. unfold Clean. rewrite eqb_false by done.
  rewrite IsAbs_abs_path, clean_elements_abs by done. done.
Qed.

(** Joining a relative path of valid names to an absolute path. *)
Lemma Join_abs_rel (l ns : list string) :
  valid_names l →
  valid_names ns → ns ≠ [] →
  Join [abs_path l; rel_path ns] = abs_path (l ++ ns).
Proof.
  intros Hl Hns Hne. unfold Join. rewrite eqb_false by done.
  change (GoStrings.Join [abs_path l; rel_path ns] "/")
    with (abs_path l +:+ "/" +:+ rel_path ns).
  unfold Clean.
  assert (IsAbs (abs_path l +:+ "/" +:+ rel_path ns) = true) as ->.
  { unfold abs_path, render. rewrite str_app_assoc. apply IsAbs_slash. }
  rewrite eqb_false by done.
  rewrite elements_app_sep, elements_rel_path by done.
  unfold clean_elements. rewrite fold_left_app.
  fold (clean_elements true (elements (abs_path l))).
  rewrite clean_elements_abs, clean_fold_valid by done. done.
Qed.

Lemma Join_abs_name (l : list string) (n : string) :
  valid_names l → valid_name n = true →
  Join [abs_path l; n] = abs_path (l ++ [n]).
Proof.
  intros Hl Hn. apply (Join_abs_rel l [n]); [done| |done].
  by apply Forall_singleton.
Qed.

End PathFacts.

Section PathFacts2.

Import Filepath.


Lemma valid_name_nonempty (n : string) : valid_name n = true → n ≠ "".
Proof. rewrite valid_name_spec. tauto. Qed.

Lemma ContainsRune_app (a b : string) (c : ascii) :
  GoStrings.ContainsRune (a +:+ b) c =
  GoStrings.ContainsRune a c || GoStrings.ContainsRune b c.
Proof.
  induction a as [|x a IH]; [done|]. rewrite (str_app_cons x a b). simpl.
  rewrite IH. by destruct (Ascii.eqb x c).
Qed.

Lemma dir_part_slashfree (n : string) :
  GoStrings.ContainsRune n "/" = false → dir_part n = "".
Proof.
  destruct n as [|c n]; [done|]. simpl.
  unfold IsPathSeparator, Separator.
  destruct (Ascii.eqb c "/"); [done|]. by intros ->.
Qed.

Lemma dir_part_app (a n : string) :
  GoStrings.ContainsRune n "/" = false →
  dir_part (a +:+ "/" +:+ n) = a +:+ "/".
Proof.
  intros Hn. induction a as [|c a IH].
  - change ("" +:+ "/" +:+ n) with (String "/" n). simpl.
    by rewrite dir_part_slashfree.
  - rewrite (str_app_cons c a ("/" +:+ n)), (str_app_cons c a "/").
    simpl. rewrite IH, ContainsRune_app.
    change (GoStrings.ContainsRune ("/" +:+ n) Separator) with true.
    by rewrite !orb_true_r.
Qed.

Lemma Clean_abs_slash (l : list string) :
  valid_names l → l ≠ [] → Clean (abs_path l +:+ "/") = abs_path l.
Proof.
  intros Hv Hne. unfold Clean.
  assert (IsAbs (abs_path l +:+ "/") = true) as ->.
  { unfold abs_path, render. rewrite str_app_assoc. apply IsAbs_slash. }
  rewrite eqb_false by (by unfold abs_path, render; rewrite str_app_assoc).
  rewrite <- (str_app_nil_r (abs_path l +:+ "/")), str_app_assoc.
  rewrite elements_app_sep. unfold clean_elements. rewrite fold_left_app.
  fold (clean_elements true (elements (abs_path l))).
  by rewrite clean_elements_abs.
Qed.

(** [Dir] of an absolute path of valid names is the path of the
    parent. *)
Lemma Dir_abs_path (l : list string) (n : string) :
  valid_names l → valid_name n = true →
  Dir (abs_path (l ++ [n])) = abs_path l.
Proof.
  intros Hl Hn. unfold Dir. rewrite abs_path_snoc.
  rewrite dir_part_app by by apply valid_slashfree.
  destruct l as [|a l]; [done|]. by apply Clean_abs_slash.
Qed.

Lemma strip_trailing_slashfree (n : string) :
  GoStrings.ContainsRune n "/" = false → Os.strip_trailing n = n.
Proof.
  induction n as [|c n IH]; [done|]. simpl.
  unfold IsPathSeparator, Separator.
  destruct (Ascii.eqb c "/"); [done|]. intros H. rewrite IH by done.
  by destruct n.
Qed.

Lemma strip_trailing_app (a n : string) :
  n ≠ "" → Os.strip_trailing n = n → Os.strip_trailing (a +:+ n) = a +:+ n.
Proof.
  intros Hne Hn. induction a as [|c a IH]; [done|].
  rewrite (str_app_cons c a n). simpl. rewrite IH.
  destruct (a +:+ n) eqn:E; [|done]. by destruct a.
Qed.

Lemma before_last_separator_slashfree (n : string) :
  GoStrings.ContainsRune n "/" = false → Os.before_last_separator n = None.
Proof.
  induction n as [|c n IH]; [done|]. simpl.
  unfold IsPathSeparator, Separator.
  destruct (Ascii.eqb c "/"); [done|]. intros H. by rewrite IH.
Qed.

Lemma before_last_separator_app (a n : string) :
  GoStrings.ContainsRune n "/" = false →
  Os.before_last_separator (a +:+ "/" +:+ n) = Some a.
Proof.
  intros Hn. induction a as [|c a IH].
  - change ("" +:+ "/" +:+ n) with (String "/" n). simpl.
    by rewrite before_last_separator_slashfree.
  - rewrite (str_app_cons c a ("/" +:+ n)). simpl. by rewrite IH.
Qed.

(** The parent [MkdirAll] recurses on, for an absolute path of valid
    names. *)
Lemma parent_path_abs (l : list string) (n : string) :
  valid_name n = true →
  Os.parent_path (abs_path (l ++ [n])) =
  match l with [] => None | _ => Some (abs_path l) end.
Proof.
  intros Hn. unfold Os.parent_path. rewrite abs_path_snoc.
  set (a := match l with [] => "" | _ => abs_path l end).
  rewrite <- (str_app_assoc a "/" n).
  rewrite strip_trailing_app; cycle 1.
  { by apply valid_name_nonempty. }
  { by apply strip_trailing_slashfree, valid_slashfree. }
  rewrite str_app_assoc, before_last_separator_app
    by by apply valid_slashfree.
  subst a. by destruct l.
Qed.

Lemma strip_common_app (l ns : list string) :
  strip_common l (l ++ ns) = ([], ns).
Proof.
  induction l as [|a l IH]; simpl; [by destruct ns|].
  by rewrite String.eqb_refl.
Qed.

Lemma rel_elements_abs (l : list string) :
  valid_names l → rel_elements (abs_path l) = l.
Proof.
  intros Hv. unfold rel_elements. rewrite elements_abs_path by done.
  assert (filter (fun e : string => e ≠ "") l = l) as Hf.
  { induction Hv as [|n l Hn Hv IH]; [done|].
    rewrite filter_cons_True by by apply valid_name_nonempty.
    by rewrite IH. }
  destruct l as [|a l]; [done|].
  by rewrite filter_cons_False by naive_solver.
Qed.

Lemma abs_path_inj (l1 l2 : list string) :
  valid_names l1 → valid_names l2 → abs_path l1 = abs_path l2 → l1 = l2.
Proof.
  intros H1 H2 E. apply (f_equal elements) in E.
  rewrite !elements_abs_path in E by done.
  destruct l1, l2; try done; simplify_eq.
  - apply Forall_cons in H2 as [H2 _]. by apply valid_name_nonempty in H2.
  - apply Forall_cons in H1 as [H1 _]. by apply valid_name_nonempty in H1.
  - done.
Qed.

(** What [Walk] hands to [Rel]: the root and a path below it. *)
Lemma Rel_abs_path (l ns : list string) :
  valid_names l → valid_names ns → ns ≠ [] →
  Rel (abs_path l) (abs_path (l ++ ns)) = Some (rel_path ns).
Proof.
  intros Hl Hns Hne. unfold Rel.
  assert (valid_names (l ++ ns)) as Hlns by by apply Forall_app.
  rewrite !Clean_abs_path by done.
  rewrite eqb_false; cycle 1.
  { intros E%abs_path_inj; [|done..].
    rewrite <- (app_nil_r l) in E at 2. by apply app_inv_head in E. }
  rewrite (eqb_false (abs_path l) ".") by done.
  rewrite !IsAbs_abs_path. simpl negb. cbv iota.
  rewrite !rel_elements_abs, strip_common_app by done. done.
Qed.

Lemma Rel_abs_path_same (l : list string) :
  Rel (abs_path l) (abs_path l) = Some ".".
Proof. unfold Rel. by rewrite String.eqb_refl. Qed.

End PathFacts2.

(** ** Path resolution and the calls of [os] on plain paths *)

Section OsFacts.

Import Os.

Lemma prefix_snoc_inv {A} (p l : list A) (x : A) :
  p `prefix_of` l ++ [x] → p `prefix_of` l ∨ p = l ++ [x].
Proof.
  intros [k Hk]. destruct k as [|y k _] using rev_ind.
  - right. by rewrite app_nil_r in Hk.
  - left. rewrite app_assoc in Hk. apply app_inj_tail in Hk as [-> _].
    by exists k.
Qed.

Lemma dirs_above_snoc (m : gmap loc node) (l : loc) (x : string) (md : Z) :
  dirs_above m l → m !! l = Some (Dir md) → dirs_above m (l ++ [x]).
Proof.
  intros Ha Hl p Hp Hne.
  apply prefix_snoc_inv in Hp as [Hp | ->]; [|done].
  destruct (decide (p = l)) as [-> | Hpl]; [eauto|]. by apply Ha.
Qed.

Lemma dirs_above_prefix (m : gmap loc node) (l p : loc) :
  dirs_above m l → p `prefix_of` l → dirs_above m p.
Proof.
  intros Ha Hp q Hq Hne. apply Ha; [by etrans|].
  intros ->. apply Hne. by apply (anti_symm prefix).
Qed.

(** Resolution of valid names below [cur] when only directories are on
    the way. *)
Lemma components_plain (m : gmap loc node) (follow : bool)
    (ns : list string) (cur : loc) :
  valid_names ns →
  (∀ p, p `prefix_of` ns → p ≠ [] → p ≠ ns →
        ∃ md, m !! (cur ++ p) = Some (Dir md)) →
  (follow = false ∨ ∀ t, m !! (cur ++ ns) ≠ Some (Symlink t)) →
  components m follow cur ns = Found (cur ++ ns).
Proof.
  revert cur. induction ns as [|x ns IH]; intros cur Hv Hd Hf.
  - by rewrite app_nil_r.
  - apply Forall_cons in Hv as [Hx Hv].
    apply valid_name_spec in Hx as (H1 & H2 & H3 & _).
    simpl. rewrite !eqb_false by done.
    destruct ns as [|y ns].
    + simpl. destruct (m !! (cur ++ [x])) as [[| |t]|] eqn:E; try done.
      destruct Hf as [-> | Hf]; [done|]. by destruct (Hf t).
    + destruct (Hd [x]) as [md Hmd]; [by exists (y :: ns) | done..|].
      rewrite Hmd. rewrite IH; [by rewrite <- app_assoc|done|..].
      * intros p Hp Hne1 Hne2. rewrite <- app_assoc.
        apply (Hd (x :: p)); [by apply prefix_cons|done|congruence].
      * by rewrite <- app_assoc.
Qed.

Lemma resolve_abs (st : state) (follow : bool) (l : loc) :
  valid_names l → dirs_above (nodes st) l →
  (follow = false ∨ ∀ t, nodes st !! l ≠ Some (Symlink t)) →
  resolve st follow (abs_path l) = inr l.
Proof.
  intros Hv Hd Hf. unfold resolve.
  rewrite eqb_false by apply abs_path_nonempty.
  rewrite IsAbs_abs_path, elements_abs_path by done.
  destruct l as [|x l]; [done|].
  unfold MAXSYMLINKS, namei.
  change (components (nodes st) follow [] ("" :: x :: l))
    with (components (nodes st) follow [] (x :: l)).
  rewrite components_plain; [done..| |done].
  intros p Hp Hne1 Hne2. by apply Hd.
Qed.

Lemma Lstat_abs (st : state) (l : loc) :
  valid_names l → dirs_above (nodes st) l →
  Lstat st (abs_path l) =
  match nodes st !! l with Some n => inr n | None => inl ENOENT end.
Proof.
  intros Hv Hd. unfold Lstat, stat_with. rewrite resolve_abs; auto.
Qed.

Lemma Stat_abs (st : state) (l : loc) :
  valid_names l → dirs_above (nodes st) l →
  (∀ t, nodes st !! l ≠ Some (Symlink t)) →
  Stat st (abs_path l) =
  match nodes st !! l with Some n => inr n | None => inl ENOENT end.
Proof.
  intros Hv Hd Hs. unfold Stat, stat_with. rewrite resolve_abs; auto.
Qed.

Lemma MkdirAll_rec_existing (fuel : nat) (st : state) (l : loc) (perm md : Z) :
  valid_names l → dirs_above (nodes st) l →
  nodes st !! l = Some (Dir md) →
  MkdirAll_rec fuel st (abs_path l) perm = inr st.
Proof.
  intros Hv Hd Hl.
  assert (Stat st (abs_path l) = inr (Dir md)) as HS.
  { rewrite Stat_abs, Hl; [done..|]. intros t. by rewrite Hl. }
  destruct fuel; simpl; by rewrite HS.
Qed.

(** [MkdirAll] on a directory that exists does nothing. *)
Lemma MkdirAll_existing (st : state) (l : loc) (perm md : Z) :
  valid_names l → dirs_above (nodes st) l →
  nodes st !! l = Some (Dir md) →
  MkdirAll st (abs_path l) perm = inr st.
Proof. apply MkdirAll_rec_existing. Qed.

Lemma Mkdir_abs (st : state) (l : loc) (perm : Z) :
  valid_names l → dirs_above (nodes st) l → nodes st !! l = None →
  Mkdir st (abs_path l) perm = inr (put st l (Dir (dir_mode st l perm))).
Proof.
  intros Hv Hd Hl. unfold Mkdir. rewrite resolve_abs by auto.
  by rewrite Hl.
Qed.

(** [MkdirAll] on a missing directory whose parent exists makes it. *)
Lemma MkdirAll_new (st : state) (l : loc) (x : string) (perm : Z) :
  valid_names (l ++ [x]) → dirs_above (nodes st) (l ++ [x]) →
  nodes st !! (l ++ [x]) = None →
  MkdirAll st (abs_path (l ++ [x])) perm =
  inr (put st (l ++ [x]) (Dir (dir_mode st (l ++ [x]) perm))).
Proof.
  intros Hv Hd Hl. unfold MkdirAll.
  assert (Stat st (abs_path (l ++ [x])) = inl ENOENT) as HS.
  { rewrite Stat_abs, Hl; [done..|]. intros t. by rewrite Hl. }
  destruct (String.length (abs_path (l ++ [x]))) as [|fuel] eqn:Hlen.
  { by destruct (abs_path_nonempty (l ++ [x]));
      destruct (abs_path (l ++ [x])). }
  simpl. rewrite HS.
  apply Forall_app in Hv as [Hvl Hvx]. apply Forall_cons in Hvx as [Hvx _].
  assert (match parent_path (abs_path (l ++ [x])) with
          | Some p => MkdirAll_rec fuel st p perm
          | None => inr st
          end = inr st) as ->.
  { rewrite parent_path_abs by done.
    destruct l as [|a l']; [done|]. set (l := a :: l') in *.
    destruct (Hd l) as [md Hmd]; [by exists [x]| |].
    { intros E. apply (f_equal length) in E.
      rewrite length_app in E. simpl in E. lia. }
    eapply MkdirAll_rec_existing; [done| |done].
    eapply dirs_above_prefix; [done|]. by exists [x]. }
  rewrite Mkdir_abs; [done| |done..]. apply Forall_app. split; [done|].
  by apply Forall_singleton.
Qed.

Lemma WriteFile_new (st : state) (l : loc) (perm : Z) (data : list Byte.byte) :
  valid_names l → dirs_above (nodes st) l → nodes st !! l = None →
  WriteFile st (abs_path l) perm data =
  inr (put st l (File (masked st (syscallMode perm)) data)).
Proof.
  intros Hv Hd Hl. unfold WriteFile. rewrite resolve_abs, Hl; [done..|].
  right. intros t. by rewrite Hl.
Qed.

Lemma MkSymlink_new (st : state) (l : loc) (target : string) :
  target ≠ "" →
  valid_names l → dirs_above (nodes st) l → nodes st !! l = None →
  MkSymlink st target (abs_path l) = inr (put st l (Symlink target)).
Proof.
  intros Ht Hv Hd Hl. unfold MkSymlink. rewrite eqb_false by done.
  rewrite resolve_abs, Hl; auto.
Qed.

End OsFacts.

(** ** [isPathSafe] below an absolute destination *)

Section PathSafety2.

Import Archive.

Lemma prefix_nil (s : string) : String.prefix "" s = true.
Proof. by destruct s. Qed.

Lemma prefix_cons_cons (c1 c2 : ascii) (s1 s2 : string) :
  String.prefix (String c1 s1) (String c2 s2) =
  if ascii_dec c1 c2 then String.prefix s1 s2 else false.
Proof. done. Qed.

Lemma Contains_sep (a b : string) :
  GoStrings.Contains a ".." = false → GoStrings.Contains b ".." = false →
  GoStrings.Contains (a +:+ "/" +:+ b) ".." = false.
Proof.
  intros Ha Hb. induction a as [|c a IH].
  - change ("" +:+ "/" +:+ b) with (String "/" b).
    rewrite Contains_unfold.
    change (String.prefix ".." (String "/" b)) with false. exact Hb.
  - rewrite (str_app_cons c a ("/" +:+ b)), Contains_unfold.
    rewrite Contains_unfold in Ha.
    destruct (String.prefix ".." (String c a)) eqn:Hp; [done|].
    rewrite IH by done.
    assert (String.prefix ".." (String c (a +:+ "/" +:+ b)) = false) as ->;
      [|done].
    rewrite prefix_cons_cons in *. destruct (ascii_dec "." c); [|done].
    destruct a as [|c' a].
    { by change ("" +:+ "/" +:+ b) with (String "/" b). }
    rewrite (str_app_cons c' a ("/" +:+ b)).
    rewrite prefix_cons_cons in *.
    destruct (ascii_dec "." c'); [|done]. by rewrite prefix_nil in Hp.
Qed.

Lemma Contains_rel_path (ns : list string) :
  Forall (fun n => GoStrings.Contains n ".." = false) ns →
  GoStrings.Contains (rel_path ns) ".." = false.
Proof.
  induction ns as [|n ns IH]; [done|]. intros [Hn Hns]%Forall_cons.
  destruct ns as [|n' ns]; [done|].
  rewrite rel_path_cons by done. apply Contains_sep; auto.
Qed.

Lemma ContainsRune_rel_path (ns : list string) (c : ascii) :
  c ≠ "/"%char → Forall (fun n => GoStrings.ContainsRune n c = false) ns →
  GoStrings.ContainsRune (rel_path ns) c = false.
Proof.
  intros Hc. induction ns as [|n ns IH]; [done|].
  intros [Hn Hns]%Forall_cons. destruct ns as [|n' ns]; [done|].
  rewrite rel_path_cons, !ContainsRune_app, Hn, IH by done.
  change (GoStrings.ContainsRune "/" c)
    with (if Ascii.eqb "/" c then true else false).
  destruct (Ascii.eqb_spec "/" c) as [E|E]; [by subst|done].
Qed.

Lemma rel_path_first (n : string) (ns : list string) :
  ∃ s, rel_path (n :: ns) = n +:+ s.
Proof.
  destruct ns as [|n' ns].
  - exists "". by rewrite str_app_nil_r.
  - eexists. by rewrite rel_path_cons.
Qed.

Lemma rel_path_not_abs (ns : list string) :
  valid_names ns → Filepath.IsAbs (rel_path ns) = false.
Proof.
  destruct ns as [|n ns]; [done|]. intros [Hn _]%Forall_cons.
  destruct (rel_path_first n ns) as [s ->].
  apply valid_name_spec in Hn as (Hne & _ & _ & Hs & _).
  destruct n as [|c n]; [done|]. rewrite str_app_cons.
  unfold Filepath.IsAbs, GoStrings.HasPrefix.
  change "/" with (String "/" "") at 1. rewrite prefix_cons_cons.
  destruct (ascii_dec "/" c) as [<-|]; done.
Qed.

Lemma rel_path_nonempty (ns : list string) :
  valid_names ns → ns ≠ [] → rel_path ns ≠ "".
Proof.
  destruct ns as [|n ns]; [done|]. intros [Hn _]%Forall_cons _.
  destruct (rel_path_first n ns) as [s ->].
  apply valid_name_nonempty in Hn. by destruct n.
Qed.

Lemma abs_path_app (l ns : list string) :
  ∃ s, abs_path (l ++ ns) = abs_path l +:+ s.
Proof.
  induction ns as [|x ns [s IH]] using rev_ind.
  - exists "". by rewrite app_nil_r, str_app_nil_r.
  - rewrite app_assoc, abs_path_snoc.
    destruct (l ++ ns) as [|a k] eqn:E.
    + apply app_eq_nil in E as [-> _]. by exists x.
    + rewrite IH. eexists. by rewrite str_app_assoc.
Qed.

(** A relative path of file names without [..] passes under every
    absolute, clean destination. *)
Lemma isPathSafe_abs (l ns : list string) :
  valid_names l → valid_names ns → ns ≠ [] →
  Forall (fun n => GoStrings.Contains n ".." = false) ns →
  isPathSafe (rel_path ns) (abs_path l) = true.
Proof.
  intros Hl Hns Hne Hdd. unfold isPathSafe.
  rewrite eqb_false by by apply rel_path_nonempty.
  rewrite Contains_rel_path, rel_path_not_abs by done.
  rewrite ContainsRune_rel_path; [|done|]; cycle 1.
  { eapply Forall_impl; [exact Hns|]. intros n Hn. simpl in Hn.
    apply valid_name_spec in Hn. tauto. }
  rewrite Join_abs_rel by done.
  rewrite !Clean_abs_path by (done || by apply Forall_app).
  destruct (abs_path_app l ns) as [s ->]. apply prefix_app.
Qed.

End PathSafety2.

(** C1: the safe path of the test table is rejected when the destination
    directory is the current directory: [isPathSafe] returns false on
    ["dir/subdir/file.txt"] under ["."], and [Extract] skips the entry.
    The four unsafe paths are rejected under every destination, and the
    safe one passes under every absolute one ([isPathSafe_rejects_unsafe],
    [isPathSafe_abs]). *)
Theorem C1_safe_path_rejected_under_dot :
  Archive.isPathSafe "dir/subdir/file.txt" "." = false
  ∧ ∀ (st : Os.state) (body : list Byte.byte),
      Archive.Extract
        ([(Tar.mkHeader Tar.TypeReg "dir/subdir/file.txt" "" 0 420, body)],
         Tar.EOF) "." st
      = (Archive.mkProgress st 0 0 [Archive.SkipUnsafe "dir/subdir/file.txt"],
         None).
Proof. split; [by vm_compute|]. intros st body. reflexivity. Qed.

(** C10: a path in which two dots stand next to each other, anywhere, is
    rejected whatever the destination, and [Extract] skips the entry with
    a warning, leaving its variables and the file system as they were;
    ["a..b/file.txt"] is such a path, has no [..] element, and would pass
    the other checks. *)
Theorem C10_dotdot_substring_rejected :
  (∀ (a b baseDir : string),
      Archive.isPathSafe (a +:+ ".." +:+ b) baseDir = false)
  ∧ (∀ (a b destDir : string) (p : Archive.progress) (tf : Tar.typeflag)
       (link : string) (size mode : Z) (body : list Byte.byte),
      Archive.extract_step destDir p
        (Tar.mkHeader tf (a +:+ ".." +:+ b) link size mode, body)
      = (Archive.mkProgress (Archive.fsys p) (Archive.totalSize p)
           (Archive.fileCount p)
           (Archive.printed p ++ [Archive.SkipUnsafe (a +:+ ".." +:+ b)]),
         None))
  ∧ (("a..b/file.txt" = "a" +:+ ".." +:+ "b/file.txt")
     ∧ Filepath.elements "a..b/file.txt" = ["a..b"; "file.txt"]
     ∧ Filepath.IsAbs "a..b/file.txt" = false
     ∧ GoStrings.ContainsRune "a..b/file.txt" "000" = false
     ∧ GoStrings.HasPrefix
         (Filepath.Clean (Filepath.Join ["/tmp/test"; "a..b/file.txt"]))
         (Filepath.Clean "/tmp/test") = true).
Proof.
  assert (∀ a b baseDir, Archive.isPathSafe (a +:+ ".." +:+ b) baseDir = false)
    as Hsafe.
  { intros a b baseDir. unfold Archive.isPathSafe.
    rewrite Contains_app. by destruct (String.eqb _ _). }
  split; [done|]. split.
  - intros. unfold Archive.extract_step. simpl Tar.Name. by rewrite Hsafe.
  - repeat split; by vm_compute.
Qed.

(** ** The digest *)

Section Digest.

Import Checksum.

Lemma lxor_mask_twice (x : Z) :
  Z.lxor (Z.lxor x Crc32.mask32) Crc32.mask32 = x.
Proof. by rewrite Z.lxor_assoc, Z.lxor_nilpotent, Z.lxor_0_r. Qed.

(** Feeding a file to the hash in pieces or at once is the same. *)
Lemma Update_app (crc : Z) (tab : list Z) (a b : list Byte.byte) :
  Crc32.Update (Crc32.Update crc tab a) tab b = Crc32.Update crc tab (a ++ b).
Proof.
  unfold Crc32.Update. by rewrite lxor_mask_twice, fold_left_app.
Qed.

Lemma Update_nil (crc : Z) (tab : list Z) : Crc32.Update crc tab [] = crc.
Proof. apply lxor_mask_twice. Qed.

Lemma Read_spec (k : N) (rest got rem : list Byte.byte) :
  Read k rest = (got, rem) →
  rest = got ++ rem ∧ (k ≠ 0%N → rest ≠ [] → length rem < length rest)%nat.
Proof.
  revert k got rem. induction rest as [|b r IH]; intros k got rem.
  - simpl. intros [= <- <-]. done.
  - simpl. destruct (N.eqb_spec k 0) as [->|Hk].
    + intros [= <- <-]. done.
    + destruct (Read (N.pred k) r) as [g l] eqn:E. intros [= <- <-].
      apply IH in E as [-> Hlen]. split; [done|]. intros _ _.
      simpl. rewrite length_app. lia.
Qed.

(** The read loop returns the checksum of the whole file, however many
    reads it takes. *)
Lemma read_loop_spec (n : nat) (hash : Z) (rest : list Byte.byte) :
  (length rest ≤ n)%nat →
  read_loop n hash rest = Crc32.Update hash CRC32Table rest.
Proof.
  revert hash rest. induction n as [|n IH]; intros hash rest Hn.
  - destruct rest; [|simpl in Hn; lia]. by rewrite Update_nil.
  - destruct rest as [|b rest]; [by rewrite Update_nil|].
    cbn [read_loop].
    destruct (Read bufsize (b :: rest)) as [got rem] eqn:E.
    apply Read_spec in E as [E Hlen]. rewrite IH.
    + by rewrite Update_app, E.
    + assert (length rem < length (b :: rest))%nat by by apply Hlen.
      lia.
Qed.

Lemma CalculateCRC32_file (st : Os.state) (path : string) (m : Z)
    (data : list Byte.byte) :
  Os.Stat st path = inr (Os.File m data) →
  CalculateCRC32 st path = inr (CalculateCRC32Bytes data).
Proof.
  intros H. unfold CalculateCRC32. rewrite H.
  by rewrite read_loop_spec.
Qed.

End Digest.

(** C4: the digest of a file depends on its bytes only: two files with
    the same content, whatever their names and wherever they are, have
    the checksum [CalculateCRC32Bytes] gives for that content; the digest
    of the empty input is 0, of ["hello"] 0x3610a686 and of
    ["hello world"] 0x0d4a1185. *)
Theorem C4_digest_of_bytes (st1 st2 : Os.state) (path1 path2 : string)
    (m1 m2 : Z) (data : list Byte.byte)
    (H1 : Os.Stat st1 path1 = inr (Os.File m1 data))
    (H2 : Os.Stat st2 path2 = inr (Os.File m2 data)) :
  Checksum.CalculateCRC32 st1 path1 = Checksum.CalculateCRC32 st2 path2
  ∧ Checksum.CalculateCRC32 st1 path1 = inr (Checksum.CalculateCRC32Bytes data)
  ∧ Checksum.CalculateCRC32Bytes [] = 0
  ∧ Checksum.CalculateCRC32Bytes (String.list_byte_of_string "hello")
    = 0x3610a686
  ∧ Checksum.CalculateCRC32Bytes (String.list_byte_of_string "hello world")
    = 0x0d4a1185.
Proof.
  rewrite (CalculateCRC32_file _ _ _ _ H1), (CalculateCRC32_file _ _ _ _ H2).
  repeat split; by vm_compute.
Qed.

Lemma C4_digest_of_bytes_witness :
  Checksum.CalculateCRC32 ex_twins "/a" = Checksum.CalculateCRC32 ex_twins "/b"
  ∧ Checksum.CalculateCRC32 ex_twins "/a"
    = inr (Checksum.CalculateCRC32Bytes (bytes "hello"))
  ∧ Checksum.CalculateCRC32Bytes [] = 0
  ∧ Checksum.CalculateCRC32Bytes (String.list_byte_of_string "hello")
    = 0x3610a686
  ∧ Checksum.CalculateCRC32Bytes (String.list_byte_of_string "hello world")
    = 0x0d4a1185.
Proof.
  apply (C4_digest_of_bytes ex_twins ex_twins "/a" "/b" 420 384 (bytes "hello"));
    vm_compute; reflexivity.
Defined.

(** ** The loop of [Extract] *)

Section ExtractLoop.

Import Archive.

Lemma wrap64_id (z : Z) : - 2 ^ 63 <= z < 2 ^ 63 → wrap64 z = z.
Proof. intros H. unfold wrap64. rewrite Z.mod_small; lia. Qed.

Lemma wrap64_range (z : Z) : - 2 ^ 63 <= wrap64 z < 2 ^ 63.
Proof.
  unfold wrap64. pose proof (Z.mod_pos_bound (z + 2 ^ 63) (2 ^ 64)). lia.
Qed.

Lemma extract_loop_app (destDir : string) (p : progress)
    (rs1 rs2 : list Tar.record) (e : Tar.ending) :
  extract_loop destDir p (rs1 ++ rs2) e =
  match extract_loop destDir p rs1 Tar.EOF with
  | (p', None) => extract_loop destDir p' rs2 e
  | (p', Some err) => (p', Some err)
  end.
Proof.
  revert p. induction rs1 as [|r rs1 IH]; intros p; [done|].
  simpl. destruct (extract_step destDir p r) as [p' [err|]]; [done|].
  apply IH.
Qed.

Lemma extract_step_counters (destDir : string) (p p' : progress)
    (r : Tar.record) :
  counters_ok p → extract_step destDir p r = (p', None) → counters_ok p'.
Proof.
  intros [Ht Hc]. destruct r as [header body]. unfold extract_step.
  destruct (negb _); [by intros [= <-]|].
  destruct (MaxFileSize <? _); [by intros [= <-]|].
  destruct (Z.ltb_spec MaxArchiveSize (wrap64 (totalSize p + Tar.Size header)));
    [done|].
  destruct (Z.ltb_spec MaxFiles (wrap64 (fileCount p + 1))); [done|].
  assert (wrap64 (fileCount p + 1) = fileCount p + 1) as Hw.
  { apply wrap64_id. unfold MaxFiles in *. lia. }
  pose proof (wrap64_range (totalSize p + Tar.Size header)).
  destruct (apply_entry _ _ _ _) as [err|[st' ws]]; [done|].
  intros [= <-]. split; simpl; lia.
Qed.

Lemma extract_loop_counters (destDir : string) (rs : list Tar.record)
    (p p' : progress) :
  counters_ok p → extract_loop destDir p rs Tar.EOF = (p', None) →
  counters_ok p'.
Proof.
  revert p. induction rs as [|r rs IH]; intros p Hp; simpl.
  - by intros [= <-].
  - destruct (extract_step destDir p r) as [p1 [err|]] eqn:E; [done|].
    apply IH. by eapply extract_step_counters.
Qed.

(** A record that reaches the two ceilings and breaks one of them ends
    the loop with an error, the file system untouched. *)
Lemma extract_step_ceiling (destDir : string) (p : progress)
    (header : Tar.Header) (body : list Byte.byte) :
  counters_ok p →
  isPathSafe (Tar.Name header) destDir = true →
  Tar.Size header <= MaxFileSize →
  MaxArchiveSize < totalSize p + Tar.Size header
  ∨ MaxFiles < fileCount p + 1 →
  ∃ p' err, extract_step destDir p (header, body) = (p', Some err)
            ∧ fsys p' = fsys p ∧ printed p' = printed p.
Proof.
  intros [Ht Hc] Hsafe Hsize Hover. unfold extract_step. rewrite Hsafe.
  simpl negb. cbv iota.
  destruct (Z.ltb_spec MaxFileSize (Tar.Size header)); [lia|].
  destruct (Z.ltb_spec MaxArchiveSize (wrap64 (totalSize p + Tar.Size header)));
    [by eauto|].
  destruct Hover as [Hover|Hover].
  - assert (wrap64 (totalSize p + Tar.Size header)
            = totalSize p + Tar.Size header) as Hw.
    { apply wrap64_id. unfold MaxArchiveSize, MaxFileSize in *. lia. }
    lia.
  - assert (wrap64 (fileCount p + 1) = fileCount p + 1) as ->.
    { apply wrap64_id. unfold MaxFiles in *. lia. }
    destruct (Z.ltb_spec MaxFiles (fileCount p + 1)); [by eauto|lia].
Qed.

End ExtractLoop.

(** C3: when the records before have been processed without error and
    the next record, one that passes the path check and the per-file
    check, takes the running total above [MaxArchiveSize] or the count
    above [MaxFiles], [Extract] returns an error, whatever follows in the
    archive, and the file system is the one the records before left. *)
Theorem C3_ceilings_abort (destDir : string) (st : Os.state)
    (pre post : list Tar.record) (header : Tar.Header)
    (body : list Byte.byte) (e : Tar.ending) (p : Archive.progress)
    (Hpre : Archive.Extract (pre, Tar.EOF) destDir st = (p, None))
    (Hsafe : Archive.isPathSafe (Tar.Name header) destDir = true)
    (Hsize : Tar.Size header <= Archive.MaxFileSize)
    (Hover : Archive.MaxArchiveSize < Archive.totalSize p + Tar.Size header
             ∨ Archive.MaxFiles < Archive.fileCount p + 1) :
  ∃ p' err,
    Archive.Extract (pre ++ (header, body) :: post, e) destDir st
    = (p', Some err)
    ∧ Archive.fsys p' = Archive.fsys p
    ∧ Archive.printed p' = Archive.printed p.
Proof.
  unfold Archive.Extract in *. simpl in *.
  assert (counters_ok p) as Hok.
  { eapply extract_loop_counters; [|exact Hpre].
    unfold counters_ok, Archive.MaxArchiveSize, Archive.MaxFiles. simpl. lia. }
  destruct (extract_step_ceiling destDir p header body Hok Hsafe Hsize Hover)
    as (p' & err & Hstep & Hfs & Hpr).
  exists p', err. rewrite extract_loop_app, Hpre.
  cbn [Archive.extract_loop]. by rewrite Hstep.
Qed.

Lemma C3_ceilings_abort_witness :
  ∃ p' err,
    Archive.Extract
      (ex_ten_large ++ declared "f10" Archive.MaxFileSize :: [], Tar.EOF)
      "/dst" ex_dest
    = (p', Some err)
    ∧ Archive.fsys p'
      = Archive.fsys (fst (Archive.Extract (ex_ten_large, Tar.EOF) "/dst" ex_dest))
    ∧ Archive.printed p'
      = Archive.printed
          (fst (Archive.Extract (ex_ten_large, Tar.EOF) "/dst" ex_dest)).
Proof.
  apply (C3_ceilings_abort "/dst" ex_dest ex_ten_large []
           (Tar.mkHeader Tar.TypeReg "f10" "" Archive.MaxFileSize 420) []
           Tar.EOF
           (fst (Archive.Extract (ex_ten_large, Tar.EOF) "/dst" ex_dest))).
  - vm_compute. reflexivity.
  - vm_compute. reflexivity.
  - vm_compute. discriminate.
  - left. vm_compute. reflexivity.
Defined.

(** A record above the per-file ceiling is skipped. *)
Lemma extract_step_skips_large (destDir : string) (p : Archive.progress)
    (header : Tar.Header) (body : list Byte.byte) :
  Archive.MaxFileSize < Tar.Size header →
  ∃ ws, Archive.extract_step destDir p (header, body)
        = (Archive.mkProgress (Archive.fsys p) (Archive.totalSize p)
             (Archive.fileCount p) (Archive.printed p ++ ws), None).
Proof.
  intros Hbig. unfold Archive.extract_step.
  destruct (negb _); [by eexists|].
  destruct (Z.ltb_spec Archive.MaxFileSize (Tar.Size header)); [|lia].
  by eexists.
Qed.

(** C8, as stated, fails: whatever destination directory and file system
    [Extract] is called with, a record that declares one byte more than
    100 MiB is never applied; the call has no argument that raises the
    ceiling. *)
Lemma C8_ceiling_cannot_be_overridden :
  ¬ ∃ (destDir : string) (st : Os.state),
      Archive.fsys (fst (Archive.Extract ([ex_too_large], Tar.EOF) destDir st))
      ≠ st.
Proof.
  intros (destDir & st & H). apply H.
  unfold Archive.Extract, ex_too_large, declared.
  cbn [fst snd Archive.extract_loop].
  edestruct (extract_step_skips_large destDir (Archive.mkProgress st 0 0 []))
    as [ws ->]; [|done].
  by vm_compute.
Qed.

(** C8, amended: the three ceilings are the constants 100 MiB, 1 GiB and
    10000 of the package, and every call of [Extract] applies them: a
    record that passes the path check is skipped when it declares more
    than 104857600 bytes, and otherwise ends the extraction with an error
    when it takes the running total above 1073741824 or the count above
    10000. *)
Theorem C8_ceilings_are_constants (destDir : string) (p : Archive.progress)
    (header : Tar.Header) (body : list Byte.byte)
    (Hsafe : Archive.isPathSafe (Tar.Name header) destDir = true)
    (Hok : counters_ok p) :
  Archive.MaxFileSize = 104857600
  ∧ Archive.MaxArchiveSize = 1073741824
  ∧ Archive.MaxFiles = 10000
  ∧ (104857600 < Tar.Size header →
     Archive.extract_step destDir p (header, body)
     = (Archive.mkProgress (Archive.fsys p) (Archive.totalSize p)
          (Archive.fileCount p)
          (Archive.printed p ++ [Archive.SkipLarge (Tar.Name header)]), None))
  ∧ (Tar.Size header <= 104857600 →
     1073741824 < Archive.totalSize p + Tar.Size header
     ∨ 10000 < Archive.fileCount p + 1 →
     ∃ p' err, Archive.extract_step destDir p (header, body) = (p', Some err)
               ∧ Archive.fsys p' = Archive.fsys p).
Proof.
  repeat split.
  - intros Hbig. unfold Archive.extract_step. rewrite Hsafe. simpl negb.
    cbv iota. by destruct (Z.ltb_spec Archive.MaxFileSize (Tar.Size header));
      [|unfold Archive.MaxFileSize in *; lia].
  - intros Hsize Hover.
    destruct (extract_step_ceiling destDir p header body Hok Hsafe)
      as (p' & err & H1 & H2 & _); [done..|]. by exists p', err.
Qed.

Lemma C8_ceilings_are_constants_witness :
  Archive.MaxFileSize = 104857600
  ∧ Archive.MaxArchiveSize = 1073741824
  ∧ Archive.MaxFiles = 10000
  ∧ (104857600 < Tar.Size (fst ex_too_large) →
     Archive.extract_step "/dst" (Archive.mkProgress ex_dest 0 0 []) ex_too_large
     = (Archive.mkProgress ex_dest 0 0 [Archive.SkipLarge "big"], None))
  ∧ (Tar.Size (fst ex_too_large) <= 104857600 →
     1073741824 < 0 + Tar.Size (fst ex_too_large) ∨ 10000 < 0 + 1 →
     ∃ p' err,
       Archive.extract_step "/dst" (Archive.mkProgress ex_dest 0 0 []) ex_too_large
       = (p', Some err)
       ∧ Archive.fsys p' = ex_dest).
Proof.
  apply (C8_ceilings_are_constants "/dst" (Archive.mkProgress ex_dest 0 0 [])
           (fst ex_too_large) (snd ex_too_large)).
  - vm_compute. reflexivity.
  - unfold counters_ok. vm_compute. intuition discriminate.
Defined.

(** ** The counters of [Create] *)

Section CreateCounters.

Import Archive.


Lemma content_bytes_nonneg (a : list Tar.record) : 0 <= content_bytes a.
Proof. unfold content_bytes. induction a; simpl; lia. Qed.




End CreateCounters.

(** ** [Walk] on a well-formed tree *)

Section WalkFacts.

Import Os.

Lemma child_name_spec (l k : loc) (x : string) :
  child_name l k = Some x ↔ k = l ++ [x].
Proof.
  unfold child_name. split.
  - destruct (last k) as [n|]; [|done].
    destruct (decide (k = l ++ [n])); by intros [= <-].
  - intros ->. rewrite last_snoc. by rewrite decide_True.
Qed.

Lemma names_at_spec (m : gmap loc node) (l : loc) (x : string) :
  x ∈ names_at m l ↔ is_Some (m !! (l ++ [x])).
Proof.
  unfold names_at. rewrite list_elem_of_omap. split.
  - intros (k & Hk & Hc). apply child_name_spec in Hc as ->.
    apply list_elem_of_fmap in Hk as ([k' n] & -> & Hk).
    apply elem_of_map_to_list in Hk. by exists n.
  - intros [n Hn]. exists (l ++ [x]). split; [|by apply child_name_spec].
    apply list_elem_of_fmap. exists (l ++ [x], n). split; [done|].
    by apply elem_of_map_to_list.
Qed.

Lemma sorted_names_spec (m : gmap loc node) (l : loc) (x : string) :
  x ∈ merge_sort String.leb (names_at m l) ↔ is_Some (m !! (l ++ [x])).
Proof. by rewrite merge_sort_Permutation, names_at_spec. Qed.

Lemma flat_map_fmap_ext {A B C} (f : A → list C) (g : A → list B)
    (h : B → C) (l : list A) :
  (∀ x, x ∈ l → f x = map h (g x)) →
  flat_map f l = map h (flat_map g l).
Proof.
  induction l as [|a l IH]; intros H; simpl; [done|].
  rewrite map_app, H, IH; [done| |by left].
  intros x Hx. apply H. by right.
Qed.

Lemma readDirNames_abs (st : state) (l : loc) (md : Z) :
  valid_names l → dirs_above (nodes st) l →
  nodes st !! l = Some (Dir md) →
  readDirNames st (abs_path l)
  = inr (merge_sort String.leb (names_at (nodes st) l)).
Proof.
  intros Hv Hd Hl. unfold readDirNames.
  rewrite resolve_abs, Hl; [done..|]. right. intros t. by rewrite Hl.
Qed.

(** What [walk] visits is the listing. *)
Lemma walk_listing (depth : nat) (st : state) (root ns : list string)
    (n : node) :
  wf_tree (nodes st) → valid_names (root ++ ns) →
  dirs_above (nodes st) (root ++ ns) →
  nodes st !! (root ++ ns) = Some n →
  Walker.walk depth st (abs_path (root ++ ns)) n
  = map (visit_of root) (listing depth (nodes st) root ns n).
Proof.
  intros Hwf. revert ns n.
  induction depth as [|d IH]; intros ns n Hv Hd Hn.
  - destruct n as [m data|md|t]; simpl; try done.
    by rewrite (readDirNames_abs st _ md).
  - destruct n as [m data|md|t]; try done.
    cbn [Walker.walk listing is_dir negb map].
    rewrite (readDirNames_abs st _ md) by done.
    f_equal. apply flat_map_fmap_ext. intros x Hx.
    apply sorted_names_spec in Hx as [c Hc].
    destruct (Hwf _ _ _ Hc) as [Hx _].
    rewrite Join_abs_name by done.
    rewrite Lstat_abs; cycle 1.
    { apply Forall_app. split; [done|]. by apply Forall_singleton. }
    { by eapply dirs_above_snoc. }
    rewrite Hc. rewrite (app_assoc root ns [x]), Hc.
    rewrite <- (app_assoc root ns [x]). apply IH.
    + rewrite app_assoc. apply Forall_app. split; [done|].
      by apply Forall_singleton.
    + rewrite app_assoc. by eapply dirs_above_snoc.
    + by rewrite app_assoc.
Qed.

Lemma max_depth_bound (st : state) (l : loc) (n : node) :
  nodes st !! l = Some n → (length l ≤ Walker.max_depth st)%nat.
Proof.
  intros H. unfold Walker.max_depth.
  apply max_list_elem_of_le, list_elem_of_fmap.
  exists (l, n). split; [done|]. by apply elem_of_map_to_list.
Qed.

(** [Walk] from an absolute, clean root that is reached through
    directories. *)
Lemma visits_abs (st : state) (root : loc) (n : node) :
  wf_tree (nodes st) → valid_names root → dirs_above (nodes st) root →
  nodes st !! root = Some n →
  Walker.visits st (abs_path root)
  = map (visit_of root)
      (listing (S (Walker.max_depth st)) (nodes st) root [] n).
Proof.
  intros Hwf Hv Hd Hn. unfold Walker.visits.
  rewrite Lstat_abs, Hn by done.
  rewrite <- (app_nil_r root) at 1.
  apply walk_listing; by rewrite ?app_nil_r.
Qed.

End WalkFacts.

(** ** The listing of a well-formed tree *)

Section ListingFacts.

Import Os.

Lemma wf_tree_names (m : gmap loc node) (l k : loc) (n : node) :
  wf_tree m → m !! (l ++ k) = Some n → valid_names k.
Proof.
  intros Hwf. revert n. induction k as [|x k IH] using rev_ind; intros n H.
  - constructor.
  - rewrite app_assoc in H. destruct (Hwf _ _ _ H) as [Hx [md Hmd]].
    apply Forall_app. split; [by eapply IH|]. by apply Forall_singleton.
Qed.

Lemma wf_tree_dir_above (m : gmap loc node) (l k : loc) (n : node) :
  wf_tree m → m !! (l ++ k) = Some n → k ≠ [] →
  ∃ md, m !! l = Some (Dir md).
Proof.
  intros Hwf. revert n. induction k as [|x k IH] using rev_ind; intros n H Hne.
  - done.
  - rewrite app_assoc in H. destruct (Hwf _ _ _ H) as [_ [md Hmd]].
    destruct k as [|y k]; [rewrite app_nil_r in Hmd; eauto|].
    by eapply IH.
Qed.

(** Every object of the listing is in the tree, at or below the place
    the listing starts from. *)
Lemma listing_lookup (d : nat) (m : gmap loc node) (root ns ns' : loc)
    (n n' : node) :
  m !! (root ++ ns) = Some n →
  (ns', n') ∈ listing d m root ns n →
  m !! (root ++ ns') = Some n' ∧ ns `prefix_of` ns'.
Proof.
  revert ns n. induction d as [|d IH]; intros ns n Hn Hin.
  - destruct n; apply list_elem_of_singleton in Hin; by simplify_eq.
  - cbn [listing] in Hin. apply elem_of_cons in Hin as [Hin|Hin];
      [by simplify_eq|].
    destruct n as [| md |]; try by apply elem_of_nil in Hin.
    apply list_elem_of_In, in_flat_map in Hin as (x & _ & Hin).
    apply list_elem_of_In in Hin.
    destruct (m !! (root ++ ns ++ [x])) as [c|] eqn:Hc;
      [|by apply elem_of_nil in Hin].
    apply IH in Hin as [H1 H2]; [|done]. split; [done|].
    etrans; [|done]. by apply prefix_app_r.
Qed.

(** Depth permitting, every object of the tree is in the listing. *)
Lemma listing_complete (d : nat) (m : gmap loc node) (root ns k : loc)
    (n n' : node) :
  wf_tree m → m !! (root ++ ns) = Some n →
  m !! (root ++ ns ++ k) = Some n' → (length k ≤ d)%nat →
  (ns ++ k, n') ∈ listing d m root ns n.
Proof.
  intros Hwf. revert ns n k. induction d as [|d IH]; intros ns n k Hn Hk Hlen.
  - destruct k; [|simpl in Hlen; lia]. rewrite !app_nil_r in *.
    simplify_eq. cbn [listing]. by left.
  - destruct k as [|x k].
    { rewrite !app_nil_r in *. simplify_eq. by left. }
    destruct (wf_tree_dir_above m (root ++ ns) (x :: k) n' Hwf) as [md Hmd];
      [by rewrite <- app_assoc|done|].
    simplify_eq. cbn [listing]. right.
    apply list_elem_of_In, in_flat_map. exists x.
    change (x :: k) with ([x] ++ k) in *.
    destruct (m !! (root ++ ns ++ [x])) as [c|] eqn:Hc; cycle 1.
    { destruct k as [|y k]; [by rewrite app_nil_r in Hk; simplify_eq|].
      destruct (wf_tree_dir_above m (root ++ ns ++ [x]) (y :: k) n' Hwf);
        [by rewrite <- !app_assoc|done|congruence]. }
    split.
    + apply list_elem_of_In, sorted_names_spec. rewrite <- app_assoc. eauto.
    + apply list_elem_of_In. rewrite (app_assoc ns [x] k).
      apply IH; [done| |simpl in Hlen; lia].
      by rewrite <- !app_assoc.
Qed.

End ListingFacts.

(** ** The manifest: printing and scanning a checksum *)

Section HexFacts.

Import Fmt.

Ltac hex_cases d H :=
  assert (d = 0 ∨ d = 1 ∨ d = 2 ∨ d = 3 ∨ d = 4 ∨ d = 5 ∨ d = 6 ∨ d = 7
          ∨ d = 8 ∨ d = 9 ∨ d = 10 ∨ d = 11 ∨ d = 12 ∨ d = 13 ∨ d = 14
          ∨ d = 15) as Hcases by lia;
  clear H;
  repeat (destruct Hcases as [-> | Hcases]); [..|subst d].

Lemma hex_digit_val (d : Z) : 0 <= d < 16 → digit_val (hex_digit d) = Some d.
Proof. intros H. hex_cases d H; reflexivity. Qed.

Lemma hex_digit_accepted (d : Z) : 0 <= d < 16 → accepted (hex_digit d) = true.
Proof. intros H. unfold accepted. by rewrite hex_digit_val. Qed.

Lemma hex_digit_no_space (d : Z) (r : string) :
  0 <= d < 16 → space_len (String (hex_digit d) r) = None.
Proof. intros H. hex_cases d H; reflexivity. Qed.

Lemma hex_digit_not_blank (d : Z) (r : string) :
  0 <= d < 16 → String.prefix "  " (String (hex_digit d) r) = false.
Proof. intros H. hex_cases d H; reflexivity. Qed.

Lemma hex_digit_not_newline (d : Z) :
  0 <= d < 16 → Ascii.eqb (hex_digit d) "010" = false.
Proof. intros H. hex_cases d H; reflexivity. Qed.

Lemma nibble_range (v : Z) (k : Z) : 0 <= Z.land (Z.shiftr v k) 15 < 16.
Proof.
  change 15 with (Z.ones 4). rewrite Z.land_ones by lia.
  apply Z.mod_pos_bound. lia.
Qed.

Lemma hex_digits_token (n : nat) (v : Z) :
  token (hex_digits n v) = hex_digits n v.
Proof.
  induction n as [|n IH]; [done|]. simpl.
  by rewrite hex_digit_accepted, IH by apply nibble_range.
Qed.

Lemma hex_digits_length (n : nat) (v : Z) :
  String.length (hex_digits n v) = n.
Proof. induction n as [|n IH]; [done|]. simpl. by rewrite IH. Qed.

Lemma hex_digits_SkipSpace (fuel n : nat) (v : Z) :
  SkipSpace fuel (hex_digits (S n) v) = hex_digits (S n) v.
Proof.
  destruct fuel; [done|]. cbn [SkipSpace hex_digits].
  by rewrite hex_digit_no_space by apply nibble_range.
Qed.

Lemma parse_hex_digits (n : nat) (v acc : Z) :
  0 <= v →
  parse_hex acc (hex_digits n v)
  = Some (acc * 16 ^ Z.of_nat n + v mod 16 ^ Z.of_nat n).
Proof.
  intros Hv. revert acc. induction n as [|n IH]; intros acc.
  - simpl. rewrite Z.mod_1_r. f_equal. lia.
  - cbn [hex_digits parse_hex].
    rewrite hex_digit_val by apply nibble_range. rewrite IH. f_equal.
    change 15 with (Z.ones 4). rewrite Z.land_ones by lia.
    rewrite Z.shiftr_div_pow2 by lia.
    replace (Z.of_nat (S n)) with (Z.of_nat n + 1) by lia.
    rewrite Z.pow_add_r by lia.
    replace (2 ^ (4 * Z.of_nat n)) with (16 ^ Z.of_nat n)
      by (change 16 with (2 ^ 4); rewrite <- Z.pow_mul_r by lia; done).
    change (2 ^ 4) with 16. change (16 ^ 1) with 16.
    assert (0 < 16 ^ Z.of_nat n) by (apply Z.pow_pos_nonneg; lia).
    rewrite (Z.rem_mul_r v (16 ^ Z.of_nat n) 16) by lia. lia.
Qed.

(** What [%08x] prints, [%x] reads back. *)
Lemma Sscanf_x_Sprintf (v : Z) :
  0 <= v < 2 ^ 32 → Sscanf_x (Sprintf_08x v) = Some v.
Proof.
  intros Hv. unfold Sscanf_x, Sprintf_08x.
  rewrite hex_digits_SkipSpace, hex_digits_token.
  rewrite parse_hex_digits by lia.
  change (String.eqb (hex_digits 8 v) "") with false. cbv iota.
  change (16 ^ Z.of_nat 8) with (2 ^ 32).
  rewrite Z.mod_small by lia. rewrite Z.mul_0_l, Z.add_0_l.
  by destruct (Z.ltb_spec v (2 ^ 32)); [|lia].
Qed.

Lemma cut_hex_digits (n : nat) (v : Z) (p : string) :
  GoStrings.cut (hex_digits n v +:+ "  " +:+ p) "  "
  = Some (hex_digits n v, p).
Proof.
  induction n as [|n IH].
  - change (hex_digits 0 v +:+ "  " +:+ p) with (String " " (String " " p)).
    by destruct p.
  - cbn [hex_digits]. rewrite str_app_cons. cbn [GoStrings.cut].
    rewrite hex_digit_not_blank by apply nibble_range. by rewrite IH.
Qed.

End HexFacts.

(** ** The digest fits 32 bits *)

Section DigestRange.

Import Checksum.

Lemma log2_lt_32 (a : Z) : 0 <= a < 2 ^ 32 → Z.log2 a < 32.
Proof.
  intros H. destruct (decide (a = 0)) as [->|]; [done|].
  apply Z.log2_lt_pow2; lia.
Qed.

Lemma lxor_range32 (a b : Z) :
  0 <= a < 2 ^ 32 → 0 <= b < 2 ^ 32 → 0 <= Z.lxor a b < 2 ^ 32.
Proof.
  intros Ha Hb. assert (0 <= Z.lxor a b) by (apply Z.lxor_nonneg; lia).
  split; [done|]. destruct (decide (Z.lxor a b = 0)) as [->|]; [done|].
  apply Z.log2_lt_pow2; [lia|].
  pose proof (Z.log2_lxor a b). pose proof (log2_lt_32 a Ha).
  pose proof (log2_lt_32 b Hb). lia.
Qed.

Lemma CRC32Table_range (i : nat) : 0 <= nth i CRC32Table 0 < 2 ^ 32.
Proof.
  assert (Forall (fun x => 0 <= x < 2 ^ 32) CRC32Table) as H.
  { apply Forall_forall. intros x Hx.
    assert (forallb (fun x => (0 <=? x) && (x <? 2 ^ 32)) CRC32Table = true)
      as Hb by by vm_compute.
    rewrite forallb_forall in Hb. apply list_elem_of_In, Hb in Hx. lia. }
  destruct (nth_in_or_default i CRC32Table 0) as [Hin | ->]; [|done].
  rewrite Forall_forall in H. by apply H, list_elem_of_In.
Qed.

Lemma update_byte_range (crc : Z) (v : Byte.byte) :
  0 <= crc < 2 ^ 32 → 0 <= Crc32.update_byte CRC32Table crc v < 2 ^ 32.
Proof.
  intros H. unfold Crc32.update_byte. apply lxor_range32.
  - apply CRC32Table_range.
  - rewrite Z.shiftr_div_pow2 by lia. split; [apply Z.div_pos; lia|].
    apply Z.div_lt_upper_bound; lia.
Qed.

Lemma Update_range (crc : Z) (p : list Byte.byte) :
  0 <= crc < 2 ^ 32 → 0 <= Crc32.Update crc CRC32Table p < 2 ^ 32.
Proof.
  intros H. unfold Crc32.Update. apply lxor_range32; [|done].
  assert (0 <= Z.lxor crc Crc32.mask32 < 2 ^ 32) as H0
      by by apply lxor_range32.
  revert H0. generalize (Z.lxor crc Crc32.mask32).
  induction p as [|b p IH]; intros c Hc; [done|].
  simpl. by apply IH, update_byte_range.
Qed.

Lemma CalculateCRC32Bytes_range (data : list Byte.byte) :
  0 <= CalculateCRC32Bytes data < 2 ^ 32.
Proof. by apply Update_range. Qed.

(** [CalculateCRC32] succeeds exactly when the path reads as a regular
    file. *)
Lemma CalculateCRC32_inr (st : Os.state) (path : string) (c : Z) :
  CalculateCRC32 st path = inr c ↔
  ∃ data, Os.ReadAll st path = inr data ∧ c = CalculateCRC32Bytes data.
Proof.
  unfold CalculateCRC32, Os.ReadAll.
  destruct (Os.Stat st path) as [e|[m data|m|t]];
    try (split; [done|by intros (? & ? & ?)]).
  rewrite read_loop_spec by done. split.
  - intros [= <-]. by exists data.
  - by intros (d & [= <-] & ->).
Qed.

Lemma CalculateCRC32_range (st : Os.state) (path : string) (c : Z) :
  CalculateCRC32 st path = inr c → 0 <= c < 2 ^ 32.
Proof.
  intros (data & _ & ->)%CalculateCRC32_inr. apply CalculateCRC32Bytes_range.
Qed.

End DigestRange.

(** ** The manifest: lines *)

Section ManifestFacts.

Import Checksum.

Lemma str_length_app (a b : string) :
  String.length (a +:+ b) = (String.length a + String.length b)%nat.
Proof.
  induction a as [|c a IH]; [done|]. rewrite str_app_cons. simpl.
  by rewrite IH.
Qed.

Lemma next_line_app (l rest : string) :
  GoStrings.ContainsRune l "010" = false →
  Bufio.next_line (l +:+ String "010" rest) = (l, Some rest).
Proof.
  induction l as [|c l IH]; [done|]. rewrite str_app_cons. simpl.
  destruct (Ascii.eqb c "010"); [done|]. intros H. by rewrite IH.
Qed.

Lemma dropCR_app (a b : string) :
  b ≠ "" → Bufio.dropCR (a +:+ b) = a +:+ Bufio.dropCR b.
Proof.
  intros Hb. induction a as [|c a IH]; [done|].
  rewrite !str_app_cons. cbn [Bufio.dropCR]. rewrite IH.
  destruct (a +:+ b) eqn:E; [|done]. by destruct a.
Qed.

Lemma hex_digits_no_newline (n : nat) (v : Z) :
  GoStrings.ContainsRune (Fmt.hex_digits n v) "010" = false.
Proof.
  induction n as [|n IH]; [done|]. simpl.
  by rewrite hex_digit_not_newline, IH by apply nibble_range.
Qed.

Lemma format_entry_line (e : Entry) :
  format_entry e = manifest_line e +:+ String "010" "".
Proof.
  unfold format_entry, manifest_line. by rewrite !str_app_assoc.
Qed.

Lemma manifest_cons (e : Entry) (es : list Entry) :
  manifest (e :: es) = manifest_line e +:+ String "010" (manifest es).
Proof.
  unfold manifest. cbn [map]. rewrite format_entry_line.
  destruct es as [|e' es].
  - done.
  - cbn [map String.concat].
    change ("" +:+ ?x) with x. by rewrite str_app_assoc.
Qed.

Lemma manifest_line_clean (e : Entry) :
  manifest_safe (Path e) →
  GoStrings.ContainsRune (manifest_line e) "010" = false
  ∧ Bufio.dropCR (manifest_line e) = manifest_line e
  ∧ Bufio.too_long (manifest_line e) = false
  ∧ String.eqb (manifest_line e) "" = false.
Proof.
  intros (H1 & H2 & H3 & H4). unfold manifest_line, Fmt.Sprintf_08x.
  apply String.eqb_neq in H3. repeat split.
  - by rewrite !ContainsRune_app, hex_digits_no_newline, H1.
  - rewrite !dropCR_app, H2; [done..|]. by destruct (Path e).
  - unfold Bufio.too_long. rewrite !str_length_app, hex_digits_length.
    apply Z.leb_gt. unfold Bufio.MaxScanTokenSize in *. simpl String.length.
    lia.
Qed.

(** The scanner returns the lines of a manifest of safe paths. *)
Lemma scan_manifest (es : list Entry) (fuel : nat) :
  Forall (fun e => manifest_safe (Path e)) es → (length es < fuel)%nat →
  Bufio.scan fuel (manifest es) = (map manifest_line es, None).
Proof.
  revert fuel. induction es as [|e es IH]; intros fuel Hs Hf.
  - destruct fuel; [lia|]. done.
  - destruct fuel as [|fuel]; [lia|].
    apply Forall_cons in Hs as [He Hs].
    destruct (manifest_line_clean e He) as (H1 & H2 & H3 & H4).
    rewrite manifest_cons. cbn [Bufio.scan].
    rewrite next_line_app, H3 by done.
    rewrite IH, H2; [done|done|]. simpl in Hf. lia.
Qed.

Lemma manifest_length (es : list Entry) :
  (length es ≤ String.length (manifest es))%nat.
Proof.
  induction es as [|e es IH]; [done|].
  rewrite manifest_cons, str_length_app. simpl. lia.
Qed.

Lemma lines_manifest (es : list Entry) :
  Forall (fun e => manifest_safe (Path e)) es →
  Bufio.lines (manifest es) = (map manifest_line es, None).
Proof.
  intros Hs. apply scan_manifest; [done|].
  pose proof (manifest_length es). lia.
Qed.

(** One line of a manifest, verified. *)
Lemma verify_manifest_line (st : Os.state) (baseDir : string) (e : Entry)
    (passed failed : list string) :
  manifest_safe (Path e) → 0 <= Checksum e < 2 ^ 32 →
  verify_line st baseDir (passed, failed) (manifest_line e)
  = if still_matches st baseDir e
    then (passed ++ [Path e], failed)
    else (passed, failed ++ [Path e]).
Proof.
  intros Hs Hc. destruct (manifest_line_clean e Hs) as (_ & _ & _ & H4).
  unfold verify_line. rewrite H4. unfold GoStrings.SplitN2, manifest_line.
  unfold Fmt.Sprintf_08x at 1. rewrite cut_hex_digits.
  fold (Fmt.Sprintf_08x (Checksum e)). rewrite Sscanf_x_Sprintf by done.
  unfold still_matches.
  destruct (CalculateCRC32 st _) as [err|c]; [done|].
  by destruct (Z.eqb c (Checksum e)).
Qed.

Lemma verify_manifest_lines (st : Os.state) (baseDir : string)
    (es : list Entry) (passed failed : list string) :
  Forall (fun e => manifest_safe (Path e)) es →
  Forall (fun e => 0 <= Checksum e < 2 ^ 32) es →
  fold_left (verify_line st baseDir) (map manifest_line es) (passed, failed)
  = (passed ++ map Path (filter (fun e => still_matches st baseDir e = true) es),
     failed ++ map Path (filter (fun e => still_matches st baseDir e ≠ true) es)).
Proof.
  revert passed failed. induction es as [|e es IH]; intros passed failed Hs Hc.
  - by rewrite !app_nil_r.
  - apply Forall_cons in Hs as [He Hs]. apply Forall_cons in Hc as [Hce Hc].
    cbn [map fold_left]. rewrite verify_manifest_line by done.
    destruct (still_matches st baseDir e) eqn:E.
    + rewrite IH by done.
      rewrite filter_cons_True by done.
      rewrite filter_cons_False by (intros H; by apply H).
      by rewrite <- app_assoc.
    + rewrite IH by done.
      rewrite filter_cons_False, filter_cons_True by (by rewrite E).
      by rewrite <- app_assoc.
Qed.

(** [VerifyCRC32Sums] on a manifest of safe paths: an entry passes when
    its file still has the digest recorded, and fails otherwise. *)
Lemma Verify_manifest (st : Os.state) (sumsFile baseDir : string) (m : Z)
    (es : list Entry) :
  Os.Stat st sumsFile = inr (Os.File m (bytes (manifest es))) →
  Forall (fun e => manifest_safe (Path e)) es →
  Forall (fun e => 0 <= Checksum e < 2 ^ 32) es →
  VerifyCRC32Sums st sumsFile baseDir
  = (map Path (filter (fun e => still_matches st baseDir e = true) es),
     map Path (filter (fun e => still_matches st baseDir e ≠ true) es),
     None).
Proof.
  intros HS Hs Hc. unfold VerifyCRC32Sums. rewrite HS. unfold bytes.
  rewrite String.string_of_list_byte_of_string, lines_manifest by done.
  by rewrite verify_manifest_lines.
Qed.

End ManifestFacts.

(** ** [Rel] returns a relative path *)

Section RelFacts.

Import Filepath.

Lemma elements_no_separator (p e : string) :
  e ∈ elements p → GoStrings.ContainsRune e "/" = false.
Proof.
  revert e. induction p as [|c p IH]; intros e; simpl.
  - by intros ->%list_elem_of_singleton.
  - unfold IsPathSeparator, Separator.
    destruct (Ascii.eqb c "/") eqn:Ec.
    + intros [->|H]%elem_of_cons; [done|]. by apply IH.
    + pose proof (elements_nonempty p) as Hne.
      destruct (elements p) as [|x xs]; [done|].
      intros [->|H]%elem_of_cons.
      * simpl. rewrite Ec. apply IH. by left.
      * apply IH. by right.
Qed.

Lemma unrooted_slashfree (x : string) :
  x ≠ "" → GoStrings.ContainsRune x "/" = false → unrooted x.
Proof.
  intros Hne Hs s. destruct x as [|c x]; [done|]. rewrite str_app_cons.
  unfold IsAbs, GoStrings.HasPrefix. change "/" with (String "/" "").
  rewrite prefix_cons_cons. simpl in Hs.
  destruct (ascii_dec "/" c) as [<-|]; done.
Qed.






End RelFacts.

(** ** [CreateCRC32Sums] *)

Section SumsFacts.

Import Checksum.

(** One call of the function of [CreateCRC32Sums]. *)
Lemma sums_fn_step (st : Os.state) (directory : string)
    (entries entries' : list Entry) (v : Walker.visit) :
  sums_fn st directory entries v = (entries', None) →
  (is_file_visit v = false ∧ entries' = entries)
  ∨ (is_file_visit v = true ∧ ∃ e, entries' = entries ++ [e]
                            ∧ recorded st directory v e
                            ∧ CalculateCRC32 st (Walker.v_path v)
                              = inr (Checksum e)).
Proof.
  unfold sums_fn, is_file_visit, recorded.
  destruct (Walker.v_err v); [done|].
  destruct (Walker.v_info v) as [info|]; [|intros [= <-]; by left].
  destruct (Os.is_dir info) eqn:Edir; [intros [= <-]; by left|].
  destruct (Filepath.Rel directory (Walker.v_path v)) as [relPath|]; [|done].
  destruct (CalculateCRC32 st (Walker.v_path v)) as [err|c] eqn:Ec; [done|].
  intros [= <-]. right. split; [done|]. eexists. split; [done|].
  split; [|done]. split; [done|].
  unfold CalculateCRC32 in Ec.
  destruct (Os.Stat st (Walker.v_path v)) as [e|[m data|m|t]]; try done.
  injection Ec as <-. exists m, data. split; [done|]. simpl.
  by rewrite read_loop_spec.
Qed.

Lemma run_sums (st : Os.state) (directory : string) (vs : list Walker.visit)
    (entries entries' : list Entry) :
  Walker.run (sums_fn st directory) vs entries = (entries', None) →
  ∃ new, entries' = entries ++ new
         ∧ Forall2 (fun v e => recorded st directory v e
                               ∧ CalculateCRC32 st (Walker.v_path v)
                                 = inr (Checksum e))
             (filter is_file_visit vs) new.
Proof.
  revert entries. induction vs as [|v vs IH]; intros entries;
    cbn [Walker.run].
  - intros [= <-]. exists []. by rewrite app_nil_r.
  - destruct (sums_fn st directory entries v) as [entries1 [err|]] eqn:E;
      [done|].
    intros (new & -> & Hnew)%IH.
    apply sums_fn_step in E as [[Hv ->]|(Hv & e & -> & He & Hc)].
    + exists new. by rewrite filter_cons_False by (rewrite Hv; exact id).
    + exists (e :: new). rewrite <- app_assoc. split; [done|].
      rewrite filter_cons_True by (rewrite Hv; exact I). by constructor.
Qed.

End SumsFacts.

(** C6, as stated, fails: the checksum field ["3610a686zz"] is not valid
    hexadecimal, yet the line passes, because [Sscanf] with [%x] reads
    the digits and leaves the rest. *)
Lemma C6_trailing_letters_pass :
  spec_valid_hexadecimal "3610a686zz" = false
  ∧ Checksum.VerifyCRC32Sums ex_lenient "/m" "/d" = (["hello.txt"], [], None).
Proof. split; by vm_compute. Qed.

(** ** Generating, then verifying *)

Section GenerateVerify.

Import Checksum.

Lemma filter_all {A} (P : A → Prop) `{∀ x, Decision (P x)} (l : list A) :
  (∀ x, x ∈ l → P x) → filter P l = l.
Proof.
  induction l as [|a l IH]; intros HP; [done|].
  rewrite filter_cons_True by (apply HP; by left).
  rewrite IH; [done|]. intros x Hx. apply HP. by right.
Qed.

Lemma filter_none {A} (P : A → Prop) `{∀ x, Decision (P x)} (l : list A) :
  (∀ x, x ∈ l → ¬ P x) → filter P l = [].
Proof.
  induction l as [|a l IH]; intros HP; [done|].
  rewrite filter_cons_False by (apply HP; by left).
  apply IH. intros x Hx. apply HP. by right.
Qed.

(** Below an absolute, clean root, the path of an entry joined to the
    root is the path the walk visited, so it reads the digest
    recorded. *)
Lemma sums_paths (st st1 : Os.state) (root : Os.loc) (md : Z)
    (outputPath : string) (entries : list Entry) :
  wf_tree (Os.nodes st) → valid_names root →
  dirs_above (Os.nodes st) root → Os.nodes st !! root = Some (Os.Dir md) →
  CreateCRC32Sums st (abs_path root) outputPath = (inr entries, st1) →
  Forall (fun e => CalculateCRC32 st (Filepath.Join [abs_path root; Path e])
                   = inr (Checksum e)) entries.
Proof.
  intros Hwf Hv Hd Hroot Hgen.
  unfold CreateCRC32Sums, Walker.Walk in Hgen.
  destruct (Walker.run _ _ _) as [es [err|]] eqn:E; [done|].
  apply run_sums in E as (new & -> & Hnew). simpl in Hgen.
  destruct (Os.WriteFile _ _ _ _); [done|]. injection Hgen as <- _.
  eapply Forall2_Forall_r; [exact Hnew|]. apply Forall_forall.
  intros v Hin e [[Hrel _] Hcrc].
  apply list_elem_of_filter in Hin as [Hfile Hin].
  rewrite (visits_abs st root (Os.Dir md)) in Hin by done.
  apply list_elem_of_fmap in Hin as ([ns n] & -> & Hin).
  apply listing_lookup in Hin as [Hn _]; [|by rewrite app_nil_r].
  unfold visit_of in *. cbn [Walker.v_path Walker.v_info fst snd] in *.
  assert (valid_names ns) as Hns by by eapply wf_tree_names.
  destruct (decide (ns = [])) as [->|Hne].
  { rewrite app_nil_r in Hn. by simplify_eq. }
  rewrite Rel_abs_path in Hrel by done. injection Hrel as <-.
  by rewrite Join_abs_rel.
Qed.

Lemma still_matches_same (st st2 : Os.state) (baseDir : string) (e : Entry) :
  CalculateCRC32 st (Filepath.Join [baseDir; Path e]) = inr (Checksum e) →
  Os.ReadAll st2 (Filepath.Join [baseDir; Path e])
  = Os.ReadAll st (Filepath.Join [baseDir; Path e]) →
  still_matches st2 baseDir e = true.
Proof.
  intros (d & Hd & Hc)%CalculateCRC32_inr Hsame. unfold still_matches.
  assert (CalculateCRC32 st2 (Filepath.Join [baseDir; Path e])
          = inr (Checksum e)) as ->.
  { apply CalculateCRC32_inr. exists d. by rewrite Hsame. }
  apply Z.eqb_refl.
Qed.


End GenerateVerify.


(** ** Checking the hypotheses on a given state *)

Section Checks.

Import Os.

Lemma wf_treeb_spec (m : gmap loc node) : wf_treeb m = true → wf_tree m.
Proof.
  unfold wf_treeb. rewrite forallb_forall. intros H l x n Hl.
  specialize (H (l ++ [x], n)). cbn [fst] in H.
  rewrite last_snoc, removelast_last in H.
  assert ((valid_name x
           && match m !! l with Some (Dir _) => true | _ => false end) = true)
    as [Hx Hd]%andb_true_iff.
  { apply H, list_elem_of_In. by apply elem_of_map_to_list. }
  split; [done|]. destruct (m !! l) as [[| md |]|]; try done. by exists md.
Qed.

Lemma dirs_aboveb_spec (m : gmap loc node) (l : loc) :
  dirs_aboveb m l = true → dirs_above m l.
Proof.
  unfold dirs_aboveb. rewrite forallb_forall. intros H p [k ->] Hne.
  specialize (H (length p)).
  rewrite take_app_length in H.
  destruct (m !! p) as [[| md |]|]; try (by exists md);
    exfalso; (assert (false = true) as Hf; [|done]); apply H, in_seq;
    (destruct k; [by rewrite app_nil_r in Hne|]);
    rewrite length_app; simpl; lia.
Qed.

End Checks.

(** ** The order of the listing *)

Section ListingOrder.

Import Os.

Lemma NoDup_omap_inj {A B} (f : A → option B) (l : list A) :
  (∀ a b y, f a = Some y → f b = Some y → a = b) →
  NoDup l → NoDup (omap f l).
Proof.
  intros Hinj. induction 1 as [|a l Ha Hl IH]; simpl; [constructor|].
  destruct (f a) as [y|] eqn:E; [|done]. constructor; [|done].
  intros (b & Hb & Hfb)%list_elem_of_omap.
  by rewrite (Hinj _ _ _ E Hfb) in Ha.
Qed.

Lemma names_at_NoDup (m : gmap loc node) (l : loc) : NoDup (names_at m l).
Proof.
  unfold names_at. apply NoDup_omap_inj.
  - intros a b y Ha%child_name_spec Hb%child_name_spec. congruence.
  - apply NoDup_fst_map_to_list.
Qed.

Lemma NoDup_flat_map {A B C} (f : A → list B) (g : B → C) (l : list A) :
  NoDup l →
  (∀ x, x ∈ l → NoDup (map g (f x))) →
  (∀ x y z z', x ∈ l → y ∈ l → x ≠ y → z ∈ f x → z' ∈ f y → g z ≠ g z') →
  NoDup (map g (flat_map f l)).
Proof.
  induction 1 as [|a l Ha Hl IH]; intros Hnd Hdis; simpl; [constructor|].
  rewrite map_app. apply NoDup_app. split; [apply Hnd; by left|]. split.
  - intros c (z & -> & Hz)%list_elem_of_fmap (z' & Hzz & Hz')%list_elem_of_fmap.
    apply list_elem_of_In, in_flat_map in Hz' as (y & Hy%list_elem_of_In & Hz').
    apply (Hdis a y z z'); [by left|by right| |done|by apply list_elem_of_In|done].
    intros ->. done.
  - apply IH.
    + intros x Hx. apply Hnd. by right.
    + intros x y z z' Hx Hy. apply Hdis; by right.
Qed.

(** The listing names no object twice. *)
Lemma listing_NoDup (d : nat) (m : gmap loc node) (root ns : loc) (n : node) :
  m !! (root ++ ns) = Some n →
  NoDup (map fst (listing d m root ns n)).
Proof.
  revert ns n. induction d as [|d IH]; intros ns n Hn.
  - destruct n; simpl; repeat constructor; by intros ?%elem_of_nil.
  - destruct n as [| md |]; try (simpl; repeat constructor; by intros ?%elem_of_nil).
    cbn [listing map fst]. constructor.
    + intros ([ns' n'] & Heq & Hin)%list_elem_of_fmap. simpl in Heq. subst ns'.
      apply list_elem_of_In, in_flat_map in Hin as (x & _ & Hin).
      apply list_elem_of_In in Hin.
      destruct (m !! (root ++ ns ++ [x])) as [c|] eqn:Hc;
        [|by apply elem_of_nil in Hin].
      apply listing_lookup in Hin as [_ Hpre]; [|done].
      by apply prefix_snoc_not in Hpre.
    + apply NoDup_flat_map.
      * rewrite merge_sort_Permutation. apply names_at_NoDup.
      * intros x _. destruct (m !! (root ++ ns ++ [x])) as [c|] eqn:Hc;
          [by apply IH|constructor].
      * intros x y [k1 n1] [k2 n2] _ _ Hxy H1 H2. simpl. intros <-.
        destruct (m !! (root ++ ns ++ [x])) as [c1|] eqn:Hc1;
          [|by apply elem_of_nil in H1].
        destruct (m !! (root ++ ns ++ [y])) as [c2|] eqn:Hc2;
          [|by apply elem_of_nil in H2].
        apply listing_lookup in H1 as [_ [j1 E1]]; [|done].
        apply listing_lookup in H2 as [_ [j2 E2]]; [|done].
        rewrite E1, <- !app_assoc in E2. apply app_inv_head in E2.
        by simplify_eq.
Qed.

Lemma parents_first_mono (seen seen' : list (list string))
    (L : list (list string * node)) :
  seen ⊆ seen' → parents_first seen L → parents_first seen' L.
Proof.
  revert seen seen'. induction L as [|o L IH]; intros seen seen' Hsub; [done|].
  simpl. intros [(ns0 & x & E & Hin) H]. split.
  - exists ns0, x. split; [done|]. by apply Hsub.
  - eapply IH; [|exact H]. destruct (is_dir (snd o)); [|done].
    intros k [->|Hk]%elem_of_cons; [by left|right; by apply Hsub].
Qed.

Lemma parents_first_app (seen : list (list string))
    (L1 L2 : list (list string * node)) :
  parents_first seen L1 →
  (∀ seen', seen ⊆ seen' → parents_first seen' L2) →
  parents_first seen (L1 ++ L2).
Proof.
  revert seen. induction L1 as [|o L1 IH]; intros seen H1 H2.
  - by apply H2.
  - simpl in *. destruct H1 as [Ho H1]. split; [done|].
    apply IH; [done|]. intros seen' Hsub. apply H2.
    destruct (is_dir (snd o)); [|done].
    intros k Hk. apply Hsub. by right.
Qed.

Lemma parents_first_flat_map {A} (f : A → list (list string * node))
    (l : list A) (seen : list (list string)) (parent : list string) :
  parent ∈ seen →
  (∀ x seen', parent ∈ seen' → parents_first seen' (f x)) →
  parents_first seen (flat_map f l).
Proof.
  intros Hin Hf. revert seen Hin. induction l as [|a l IH]; intros seen Hin;
    [done|].
  simpl. apply parents_first_app; [by apply Hf|].
  intros seen' Hsub. apply IH. by apply Hsub.
Qed.

(** In the listing of what a directory holds, every object comes after
    the directory that holds it. *)
Lemma listing_parents_first (d : nat) (m : gmap loc node) (root ns : loc)
    (x : string) (c : node) (seen : list (list string)) :
  ns ∈ seen → parents_first seen (listing d m root (ns ++ [x]) c).
Proof.
  revert ns x c seen. induction d as [|d IH]; intros ns x c seen Hin.
  - destruct c; simpl; (split; [by exists ns, x|done]).
  - destruct c as [| md |]; try (simpl; split; [by exists ns, x|done]).
    cbn [listing parents_first fst snd is_dir]. split; [by exists ns, x|].
    apply (parents_first_flat_map _ _ _ (ns ++ [x])); [by left|].
    intros y seen' Hin'.
    destruct (m !! (root ++ (ns ++ [x]) ++ [y])) as [c'|]; [|done].
    by apply IH.
Qed.

End ListingOrder.

(** ** [Create] on a well-formed tree *)

Section CreateFacts.

Import Os Archive.

Lemma wf_dirs_above (m : gmap loc node) (root ns : loc) (n : node) :
  wf_tree m → dirs_above m root → m !! (root ++ ns) = Some n →
  dirs_above m (root ++ ns).
Proof.
  intros Hwf Hd Hn p Hp Hne.
  destruct (prefix_weak_total p root (root ++ ns)) as [Hpr|[q ->]];
    [done|by apply prefix_app_r|..].
  - destruct (decide (p = root)) as [->|Hpr']; [|by apply Hd].
    eapply wf_tree_dir_above; [done..|]. intros ->. by rewrite app_nil_r in Hne.
  - apply prefix_app_inv in Hp as [k ->].
    rewrite app_assoc in Hn. eapply wf_tree_dir_above; [done..|].
    intros ->. by rewrite app_nil_r in Hne.
Qed.

Lemma rel_path_not_dot (ns : list string) :
  valid_names ns → ns ≠ [] → rel_path ns ≠ ".".
Proof.
  intros Hv Hne E. apply (f_equal Filepath.elements) in E.
  rewrite elements_rel_path in E by done. subst ns.
  by apply Forall_cons in Hv as [Hv _].
Qed.

(** The function of [Create] on an object below the root writes its
    record. *)
Lemma create_fn_visit (st : state) (root ns : loc) (n : node)
    (res : CreateResult) (out : list Tar.record) :
  valid_names root → valid_names ns → ns ≠ [] →
  dirs_above (nodes st) (root ++ ns) → nodes st !! (root ++ ns) = Some n →
  ∃ res', create_fn st (abs_path root) (res, out) (visit_of root (ns, n))
          = ((res', out ++ [record_of (ns, n)]), None).
Proof.
  intros Hroot Hns Hne Hd Hn. unfold create_fn, visit_of.
  cbn [Walker.v_err Walker.v_info Walker.v_path fst snd].
  assert (valid_names (root ++ ns)) as Hv by by apply Forall_app.
  rewrite Rel_abs_path by done.
  rewrite eqb_false by by apply rel_path_not_dot.
  unfold record_of. cbn [fst snd].
  destruct n as [m data|m|t]; cbn [is_symlink is_regular Tar.FileInfoHeader
    Tar.Typeflag Tar.Linkname Tar.Size Tar.Mode Tar.Name].
  - unfold ReadAll. rewrite Stat_abs, Hn; [by eexists|done..|].
    intros t. by rewrite Hn.
  - by eexists.
  - unfold Readlink. rewrite Lstat_abs, Hn by done. by eexists.
Qed.

Lemma run_create_listing (st : state) (root : loc)
    (L : list (list string * node)) (res : CreateResult)
    (out : list Tar.record) :
  valid_names root →
  Forall (fun o => valid_names (fst o) ∧ fst o ≠ []
                   ∧ dirs_above (nodes st) (root ++ fst o)
                   ∧ nodes st !! (root ++ fst o) = Some (snd o)) L →
  ∃ res', Walker.run (create_fn st (abs_path root)) (map (visit_of root) L)
            (res, out)
          = ((res', out ++ map record_of L), None).
Proof.
  intros Hroot. revert res out.
  induction L as [|[ns n] L IH]; intros res out HL.
  - exists res. by rewrite app_nil_r.
  - apply Forall_cons in HL as [(Hns & Hne & Hd & Hn) HL].
    cbn [fst snd] in *. cbn [map Walker.run].
    destruct (create_fn_visit st root ns n res out) as [res1 ->]; [done..|].
    destruct (IH res1 (out ++ [record_of (ns, n)]) HL) as [res' ->].
    exists res'. by rewrite <- app_assoc.
Qed.

Lemma below_root_spec (st : state) (root : loc) (md : Z) :
  wf_tree (nodes st) → dirs_above (nodes st) root →
  nodes st !! root = Some (Dir md) →
  Forall (fun o => valid_names (fst o) ∧ fst o ≠ []
                   ∧ dirs_above (nodes st) (root ++ fst o)
                   ∧ nodes st !! (root ++ fst o) = Some (snd o))
    (below_root st root md)
  ∧ NoDup (map fst (below_root st root md))
  ∧ parents_first [[]] (below_root st root md)
  ∧ ∀ k n, k ≠ [] →
           ((k, n) ∈ below_root st root md ↔ nodes st !! (root ++ k) = Some n).
Proof.
  intros Hwf Hd Hroot. unfold below_root.
  set (L := listing _ _ _ _ _).
  assert (nodes st !! (root ++ []) = Some (Dir md)) as Hroot'
    by by rewrite app_nil_r.
  assert (L = ([], Dir md) :: tail L) as HL by done.
  assert (NoDup (map fst L)) as Hnd by by apply listing_NoDup.
  rewrite HL in Hnd. apply NoDup_cons in Hnd as [Hhead Hnd].
  assert (∀ k n, (k, n) ∈ tail L → k ≠ []) as Hne.
  { intros k n Hin ->. apply Hhead. apply list_elem_of_fmap.
    by exists ([], n). }
  assert (∀ k n, (k, n) ∈ tail L → nodes st !! (root ++ k) = Some n) as Hlook.
  { intros k n Hin.
    apply (listing_lookup (S (Walker.max_depth st)) _ root [] k (Dir md) n
             Hroot').
    change ((k, n) ∈ L). rewrite HL. by right. }
  repeat split.
  - apply Forall_forall. intros [k n] Hin. cbn [fst snd].
    pose proof (Hlook k n Hin). repeat split.
    + by eapply wf_tree_names.
    + by eapply Hne.
    + by eapply wf_dirs_above.
    + done.
  - done.
  - subst L. cbn [listing tail].
    apply (parents_first_flat_map _ _ _ []); [by left|].
    intros x seen Hin.
    destruct (nodes st !! (root ++ [] ++ [x])) as [c|]; [|done].
    by apply (listing_parents_first _ _ _ []).
  - by apply Hlook.
  - intros Hk.
    assert ((k, n) ∈ L) as Hin.
    { apply (listing_complete _ _ root [] k (Dir md) n); [done..| ].
      pose proof (max_depth_bound st _ _ Hk) as Hlen.
      rewrite length_app in Hlen. lia. }
    rewrite HL in Hin. apply elem_of_cons in Hin as [Heq|Hin]; [|done].
    by simplify_eq.
Qed.

End CreateFacts.

(** ** [Extract] on the records of a tree *)

Section ExtractTree.

Import Os Archive.

Lemma land_header_range (m : Z) : 0 <= Z.land m 0xfff < 2 ^ 12.
Proof.
  change 0xfff with (Z.ones 12). rewrite Z.land_ones by lia.
  apply Z.mod_pos_bound. lia.
Qed.

Lemma FileMode_header (m : Z) : FileMode (Z.land m 0xfff) = Z.land m 0xfff.
Proof.
  unfold FileMode. pose proof (land_header_range m).
  apply Z.mod_small. lia.
Qed.

Lemma syscallMode_header (m : Z) :
  syscallMode (Z.land m 0xfff) = Z.land m ModePerm.
Proof.
  unfold syscallMode.
  rewrite <- !(Z.land_assoc m 0xfff).
  change (Z.land 0xfff ModePerm) with ModePerm.
  change (Z.land 0xfff ModeSetuid) with 0.
  change (Z.land 0xfff ModeSetgid) with 0.
  change (Z.land 0xfff ModeSticky) with 0.
  rewrite Z.land_0_r. simpl. by rewrite Z.lor_0_r.
Qed.

Lemma masked_header (st : state) (m : Z) :
  masked st (syscallMode (FileMode (Z.land m 0xfff)))
  = extracted_mode (umask st) m.
Proof. by rewrite FileMode_header, syscallMode_header. Qed.

Lemma extracted_mode_dir (u m : Z) :
  Z.land (extracted_mode u m) (Z.lor ModePerm S_ISVTX) = extracted_mode u m.
Proof.
  unfold extracted_mode. rewrite !Z.ldiff_land.
  rewrite <- (Z.land_assoc (Z.land m ModePerm)).
  rewrite (Z.land_comm (Z.lnot _)), Z.land_assoc.
  rewrite <- (Z.land_assoc m ModePerm).
  by change (Z.land ModePerm (Z.lor ModePerm S_ISVTX)) with ModePerm.
Qed.

Lemma extracted_mode_setgid (u m g : Z) :
  Z.land g S_ISGID = g →
  Z.land (Z.lor (extracted_mode u m) g) S_ISGID = g.
Proof.
  intros Hg. rewrite Z.land_lor_distr_l, Hg.
  unfold extracted_mode. rewrite Z.ldiff_land.
  rewrite <- (Z.land_assoc _ (Z.lnot _) S_ISGID).
  rewrite (Z.land_comm (Z.lnot _) S_ISGID), Z.land_assoc.
  rewrite <- (Z.land_assoc m ModePerm S_ISGID).
  change (Z.land ModePerm S_ISGID) with 0.
  by rewrite Z.land_0_r, Z.land_0_l.
Qed.

Lemma land_setgid_idem (m : Z) :
  Z.land (Z.land m S_ISGID) S_ISGID = Z.land m S_ISGID.
Proof. by rewrite <- Z.land_assoc, Z.land_diag. Qed.

Lemma dirs_above_insert (m : gmap loc node) (l k : loc) (v : node) :
  dirs_above m l → m !! k = None → dirs_above (<[k := v]> m) l.
Proof.
  intros Hd Hk p Hp Hne. destruct (Hd p Hp Hne) as [md Hmd].
  exists md. rewrite lookup_insert_ne; [done|]. congruence.
Qed.

(** The [switch] of [Extract] on the record of an object whose parent
    directory exists and which does not exist itself. *)
Lemma apply_entry_record (st : state) (D ns0 : loc) (x : string) (n : node)
    (mdp : Z) :
  valid_names D → valid_names (ns0 ++ [x]) →
  dirs_above (nodes st) (D ++ ns0) →
  nodes st !! (D ++ ns0) = Some (Dir mdp) →
  nodes st !! (D ++ ns0 ++ [x]) = None → link_named n →
  apply_entry (abs_path D) st (fst (record_of (ns0 ++ [x], n)))
    (snd (record_of (ns0 ++ [x], n)))
  = inr (put st (D ++ ns0 ++ [x])
           (extracted (Z.land mdp S_ISGID) (umask st) n), []).
Proof.
  intros HD Hns Hd Hp Hn Hln.
  assert (valid_names (D ++ ns0)) as HDns0.
  { apply Forall_app in Hns as [? _]. by apply Forall_app. }
  assert (valid_name x = true) as Hx.
  { apply Forall_app in Hns as [_ Hx]. by apply Forall_cons in Hx as [? _]. }
  assert (valid_names ((D ++ ns0) ++ [x])) as HDns.
  { apply Forall_app. split; [done|]. by apply Forall_singleton. }
  assert (dirs_above (nodes st) ((D ++ ns0) ++ [x])) as Hd'
    by by eapply dirs_above_snoc.
  assert (Filepath.Join [abs_path D; rel_path (ns0 ++ [x])]
          = abs_path ((D ++ ns0) ++ [x])) as Htarget.
  { rewrite Join_abs_rel; [by rewrite app_assoc|done..|]. by destruct ns0. }
  rewrite (app_assoc D ns0 [x]) in *.
  unfold apply_entry, record_of. cbn [fst snd].
  destruct n as [m data|m|t];
    cbn [Tar.Typeflag Tar.Name Tar.Mode Tar.Linkname fst snd];
    rewrite Htarget.
  - rewrite Dir_abs_path by done.
    rewrite (MkdirAll_existing st (D ++ ns0) _ mdp) by done.
    rewrite WriteFile_new by done. by rewrite masked_header.
  - rewrite MkdirAll_new by done. unfold dir_mode, inherited.
    rewrite removelast_last, Hp.
    by rewrite masked_header, extracted_mode_dir.
  - rewrite Dir_abs_path by done.
    rewrite (MkdirAll_existing st (D ++ ns0) _ mdp) by done.
    by rewrite MkSymlink_new.
Qed.

Lemma record_of_size (o : list string * node) :
  Tar.Size (fst (record_of o)) = Z.of_nat (length (snd (record_of o)))
  ∧ Tar.Name (fst (record_of o)) = rel_path (fst o).
Proof. unfold record_of. by destruct (snd o). Qed.

(** One iteration of the loop on such a record. *)
Lemma extract_step_record (p : progress) (D ns0 : loc) (x : string)
    (n : node) (mdp : Z) :
  valid_names D → valid_names (ns0 ++ [x]) →
  Forall (fun n => GoStrings.Contains n ".." = false) (ns0 ++ [x]) →
  dirs_above (nodes (fsys p)) (D ++ ns0) →
  nodes (fsys p) !! (D ++ ns0) = Some (Dir mdp) →
  nodes (fsys p) !! (D ++ ns0 ++ [x]) = None → link_named n →
  Z.of_nat (length (snd (record_of (ns0 ++ [x], n)))) <= MaxFileSize →
  counters_ok p → 0 <= totalSize p →
  totalSize p + Z.of_nat (length (snd (record_of (ns0 ++ [x], n))))
  <= MaxArchiveSize →
  fileCount p + 1 <= MaxFiles →
  extract_step (abs_path D) p (record_of (ns0 ++ [x], n))
  = (mkProgress
       (put (fsys p) (D ++ ns0 ++ [x])
          (extracted (Z.land mdp S_ISGID) (umask (fsys p)) n))
       (totalSize p + Z.of_nat (length (snd (record_of (ns0 ++ [x], n)))))
       (fileCount p + 1) (printed p),
     None).
Proof.
  intros HD Hns Hdd Hd Hp Hn Hln Hsize [Ht Hc] Ht0 Htotal Hcount.
  unfold extract_step.
  destruct (record_of (ns0 ++ [x], n)) as [header body] eqn:Er.
  pose proof (record_of_size (ns0 ++ [x], n)) as [HS HN].
  pose proof (apply_entry_record (fsys p) D ns0 x n mdp HD Hns Hd Hp Hn Hln)
    as Ha.
  rewrite Er in *. cbn [fst snd] in *.
  rewrite HN, isPathSafe_abs; [|done..|by destruct ns0|done].
  cbn [negb]. rewrite HS.
  destruct (Z.ltb_spec MaxFileSize (Z.of_nat (length body))); [lia|].
  rewrite !wrap64_id by (unfold MaxArchiveSize, MaxFiles in *; lia).
  destruct (Z.ltb_spec MaxArchiveSize (totalSize p + Z.of_nat (length body)));
    [lia|].
  destruct (Z.ltb_spec MaxFiles (fileCount p + 1)); [lia|].
  rewrite Ha. by rewrite app_nil_r.
Qed.

End ExtractTree.

Section ExtractListing.

Import Os Archive.

Lemma content_bytes_cons (r : Tar.record) (rs : list Tar.record) :
  content_bytes (r :: rs) = Z.of_nat (length (snd r)) + content_bytes rs.
Proof. done. Qed.

(** The loop of [Extract] on the records of a list of objects in which
    each comes after its directory, into a place where none of them
    exists. *)
Lemma extract_listing (D : loc) (g u : Z) (L : list (list string * node))
    (p : progress) (seen : list (list string)) :
  valid_names D → umask (fsys p) = u →
  (∀ s, s ∈ seen →
        dirs_above (nodes (fsys p)) (D ++ s)
        ∧ ∃ md, nodes (fsys p) !! (D ++ s) = Some (Dir md)
                ∧ Z.land md S_ISGID = g) →
  parents_first seen L → NoDup (map fst L) →
  Forall (fun o => valid_names (fst o)
                   ∧ Forall (fun n => GoStrings.Contains n ".." = false) (fst o)
                   ∧ nodes (fsys p) !! (D ++ fst o) = None
                   ∧ link_named (snd o)
                   ∧ Z.of_nat (length (snd (record_of o))) <= MaxFileSize) L →
  counters_ok p → 0 <= totalSize p →
  totalSize p + content_bytes (map record_of L) <= MaxArchiveSize →
  fileCount p + Z.of_nat (length L) <= MaxFiles →
  ∃ p', extract_loop (abs_path D) p (map record_of L) Tar.EOF = (p', None)
        ∧ nodes (fsys p') = placed D g u (nodes (fsys p)) L
        ∧ printed p' = printed p.
Proof.
  intros HD. revert p seen.
  induction L as [|[ns n] L IH];
    intros p seen Hu Hseen Hpf Hnd HL Hok Ht0 Htotal Hcount.
  - by exists p.
  - cbn [map parents_first fst snd] in *.
    destruct Hpf as [(ns0 & x & -> & Hin) Hpf].
    apply NoDup_cons in Hnd as [Hfresh Hnd].
    apply Forall_cons in HL as [(Hns & Hdd & Hnone & Hln & Hsize) HL].
    cbn [fst snd] in *.
    destruct (Hseen ns0 Hin) as [Hd (mdp & Hp & Hg)].
    rewrite content_bytes_cons in Htotal.
    pose proof (content_bytes_nonneg (map record_of L)).
    cbn [length] in Hcount.
    cbn [extract_loop].
    rewrite (extract_step_record p D ns0 x n mdp); try done; try lia.
    rewrite Hg.
    set (p1 := mkProgress _ _ _ _).
    destruct (IH p1 (if is_dir n then (ns0 ++ [x]) :: seen else seen))
      as (p' & Hloop & Hnodes & Hprinted).
    + done.
    + intros s Hs. cbn [p1 fsys put nodes].
      assert (∀ s, s ∈ seen →
                dirs_above (<[D ++ ns0 ++ [x] := extracted g (umask (fsys p)) n]>
                              (nodes (fsys p))) (D ++ s)
                ∧ ∃ md, <[D ++ ns0 ++ [x] := extracted g (umask (fsys p)) n]>
                          (nodes (fsys p)) !! (D ++ s) = Some (Dir md)
                        ∧ Z.land md S_ISGID = g)
        as Hold.
      { clear s Hs. intros s Hs'.
        destruct (Hseen s Hs') as [Hds (md & Hmd & Hgs)]. split.
        - by apply dirs_above_insert.
        - exists md. split; [|done].
          rewrite lookup_insert_ne; [done|]. congruence. }
      destruct (is_dir n) eqn:Edir; [|by apply Hold].
      apply elem_of_cons in Hs as [->|Hs]; [|by apply Hold].
      split.
      * rewrite (app_assoc D ns0 [x]).
        destruct (Hold ns0 Hin) as [Hd' (md' & Hp' & _)].
        rewrite (app_assoc D ns0 [x]) in Hp', Hd'.
        by eapply dirs_above_snoc.
      * rewrite lookup_insert_eq. destruct n; try done.
        eexists. split; [done|]. apply extracted_mode_setgid.
        by rewrite <- Hg, land_setgid_idem.
    + done.
    + done.
    + apply Forall_forall. intros o Ho.
      rewrite Forall_forall in HL.
      destruct (HL o Ho) as (H1 & H2 & H3 & H4 & H5).
      repeat split; try done. cbn [p1 fsys put nodes].
      rewrite lookup_insert_ne; [done|]. intros E%app_inv_head.
      apply Hfresh. apply list_elem_of_fmap. by exists o.
    + destruct Hok as [Ht Hc]. split; cbn [p1 totalSize fileCount];
        unfold MaxArchiveSize, MaxFiles in *; lia.
    + cbn [p1 totalSize]. lia.
    + cbn [p1 totalSize]. lia.
    + cbn [p1 fileCount]. lia.
    + exists p'. split; [done|]. split; [|done].
      rewrite Hnodes. cbn [p1 fsys put nodes umask]. by rewrite Hu.
Qed.

Lemma placed_lookup_other (D : loc) (g u : Z) (m : gmap loc node)
    (L : list (list string * node)) (l : loc) :
  (∀ o, o ∈ L → l ≠ D ++ fst o) → placed D g u m L !! l = m !! l.
Proof.
  unfold placed. revert m. induction L as [|o L IH]; intros m Hl; [done|].
  cbn [foldl]. rewrite IH.
  - rewrite lookup_insert_ne; [done|]. intros E. by apply (Hl o); [left|].
  - intros o' Ho'. apply Hl. by right.
Qed.

Lemma placed_lookup (D : loc) (g u : Z) (m : gmap loc node)
    (L : list (list string * node)) (ns : list string) (n : node) :
  NoDup (map fst L) → (ns, n) ∈ L →
  placed D g u m L !! (D ++ ns) = Some (extracted g u n).
Proof.
  revert m. induction L as [|[k c] L IH]; intros m Hnd Hin.
  - by apply elem_of_nil in Hin.
  - cbn [map fst] in Hnd. apply NoDup_cons in Hnd as [Hfresh Hnd].
    change (placed D g u (<[D ++ k := extracted g u c]> m) L !! (D ++ ns)
            = Some (extracted g u n)).
    apply elem_of_cons in Hin as [Heq|Hin]; [|by apply IH].
    injection Heq as -> ->.
    rewrite placed_lookup_other; [by rewrite lookup_insert_eq|].
    intros o Ho E%app_inv_head. apply Hfresh. apply list_elem_of_fmap.
    by exists o.
Qed.

End ExtractListing.

Lemma all_nodes_spec (P : Os.loc → Os.node → bool) (m : gmap Os.loc Os.node)
    (l : Os.loc) (n : Os.node) :
  all_nodes P m = true → m !! l = Some n → P l n = true.
Proof.
  unfold all_nodes. rewrite forallb_forall. intros H Hl.
  apply (H (l, n)), list_elem_of_In. by apply elem_of_map_to_list.
Qed.


(** ** A stream that breaks off *)

Lemma extract_loop_ending (destDir : string) (rs : list Tar.record)
    (p : Archive.progress) (e : Tar.ending) :
  e ≠ Tar.EOF → snd (Archive.extract_loop destDir p rs e) ≠ None.
Proof.
  intros He. revert p.
  induction rs as [|r rs IH]; intros p; cbn [Archive.extract_loop].
  - destruct e as [|err|h got err]; [done..|].
    unfold Archive.extract_cut.
    by destruct (Archive.extract_step destDir p (h, got)) as [p' [e|]].
  - destruct (Archive.extract_step destDir p r) as [p' [err|]]; [done|].
    apply IH.
Qed.

Lemma extract_loop_broken (destDir : string) (rs : list Tar.record)
    (p : Archive.progress) (err : Os.error) :
  fst (Archive.extract_loop destDir p rs (Tar.Broken err))
  = fst (Archive.extract_loop destDir p rs Tar.EOF)
  ∧ (snd (Archive.extract_loop destDir p rs Tar.EOF) = None →
     snd (Archive.extract_loop destDir p rs (Tar.Broken err))
     = Some (Os.Wrapped "failed to read tar header" err)).
Proof.
  revert p. induction rs as [|r rs IH]; intros p; cbn [Archive.extract_loop].
  - done.
  - destruct (Archive.extract_step destDir p r) as [p' [e|]]; [done|].
    apply IH.
Qed.

(** ** What a successful extraction has counted *)

Section Counted.

Import Archive.

Lemma extract_loop_counted (destDir : string) (rs : list Tar.record)
    (p p' : progress) :
  Forall (fun r => 0 <= Tar.Size (fst r)) rs →
  0 <= totalSize p <= MaxArchiveSize → 0 <= fileCount p <= MaxFiles →
  extract_loop destDir p rs Tar.EOF = (p', None) →
  fileCount p'
  = fileCount p + Z.of_nat (length (filter (is_applied destDir) rs))
  ∧ totalSize p'
    = totalSize p + declared_bytes (filter (is_applied destDir) rs)
  ∧ fileCount p' <= MaxFiles ∧ totalSize p' <= MaxArchiveSize.
Proof.
  intros Hsz. revert p. induction Hsz as [|[h b] rs Hh Hsz IH];
    intros p Ht Hc Hrun; cbn [extract_loop] in Hrun.
  - injection Hrun as <-. rewrite filter_nil. cbn [length declared_bytes foldr].
    lia.
  - unfold extract_step in Hrun. cbn [fst] in Hh.
    destruct (isPathSafe (Tar.Name h) destDir) eqn:Hsafe; cbn [negb] in Hrun.
    + destruct (MaxFileSize <? Tar.Size h) eqn:Hlarge.
      * rewrite filter_cons_False
          by (unfold is_applied; cbn [fst]; rewrite Hsafe, Hlarge; exact id).
        apply IH in Hrun; done.
      * apply Z.ltb_ge in Hlarge.
        assert (wrap64 (totalSize p + Tar.Size h) = totalSize p + Tar.Size h)
          as Hw1
          by (apply wrap64_id; unfold MaxArchiveSize, MaxFileSize in *; lia).
        assert (wrap64 (fileCount p + 1) = fileCount p + 1) as Hw2
          by (apply wrap64_id; unfold MaxFiles in *; lia).
        rewrite Hw1, Hw2 in Hrun.
        destruct (MaxArchiveSize <? totalSize p + Tar.Size h) eqn:Ha;
          [done|].
        destruct (MaxFiles <? fileCount p + 1) eqn:Hf; [done|].
        apply Z.ltb_ge in Ha, Hf.
        destruct (apply_entry destDir (fsys p) h b) as [e|[st' ws]]; [done|].
        apply IH in Hrun; cbn [totalSize fileCount] in *; [|lia|lia].
        rewrite filter_cons_True
          by (unfold is_applied; cbn [fst]; rewrite Hsafe;
              destruct (MaxFileSize <? Tar.Size h) eqn:E;
              [apply Z.ltb_lt in E; lia|exact I]).
        unfold declared_bytes in *. cbn [length foldr fst]. lia.
    + rewrite filter_cons_False
        by (unfold is_applied; cbn [fst]; rewrite Hsafe; exact id).
      apply IH in Hrun; done.
Qed.

End Counted.

(** X4: when [Extract] returns without error, the entries it applied,
    the ones it skipped neither as unsafe nor as too large, are at most
    [MaxFiles] and the sizes their headers declare add up to at most
    [MaxArchiveSize]; the two counters hold exactly these two numbers,
    so a skipped entry counts towards neither.  (The tar reader returns
    no header with a negative size.) *)
Theorem Extract_success_within_ceilings (rs : list Tar.record)
    (destDir : string) (st : Os.state) (p : Archive.progress)
    (e : Tar.ending)
    (Hsizes : Forall (fun r => 0 <= Tar.Size (fst r)) rs)
    (Hok : Archive.Extract (rs, e) destDir st = (p, None)) :
  e = Tar.EOF
  ∧ Archive.fileCount p
    = Z.of_nat (length (filter (is_applied destDir) rs))
  ∧ Archive.totalSize p = declared_bytes (filter (is_applied destDir) rs)
  ∧ Z.of_nat (length (filter (is_applied destDir) rs)) <= Archive.MaxFiles
  ∧ declared_bytes (filter (is_applied destDir) rs) <= Archive.MaxArchiveSize.
Proof.
  assert (e = Tar.EOF) as ->.
  { pose proof (extract_loop_ending destDir rs (Archive.mkProgress st 0 0 []) e)
      as Hne.
    unfold Archive.Extract in Hok. cbn [fst snd] in Hok.
    rewrite Hok in Hne. destruct e; [done|..]; by destruct Hne. }
  split; [done|].
  unfold Archive.Extract in Hok. cbn [fst snd] in Hok.
  apply extract_loop_counted in Hok; cbn; try done.
  cbn in Hok. destruct Hok as (Hc & Ht & Hcm & Htm).
  rewrite Hc, Ht in *. repeat split; lia.
Qed.

Lemma Extract_success_within_ceilings_witness :
  Tar.EOF = Tar.EOF
  ∧ Archive.fileCount
      (fst (Archive.Extract (ex_mixed, Tar.EOF) "/dst" ex_dest))
    = Z.of_nat (length (filter (is_applied "/dst") ex_mixed))
  ∧ Archive.totalSize
      (fst (Archive.Extract (ex_mixed, Tar.EOF) "/dst" ex_dest))
    = declared_bytes (filter (is_applied "/dst") ex_mixed)
  ∧ Z.of_nat (length (filter (is_applied "/dst") ex_mixed))
    <= Archive.MaxFiles
  ∧ declared_bytes (filter (is_applied "/dst") ex_mixed)
    <= Archive.MaxArchiveSize.
Proof.
  apply (Extract_success_within_ceilings ex_mixed "/dst" ex_dest
           (fst (Archive.Extract (ex_mixed, Tar.EOF) "/dst" ex_dest))).
  - repeat constructor; vm_compute; discriminate.
  - vm_compute. reflexivity.
Defined.

(** ** The root of the walk *)

Lemma Rel_same (path : string) : Filepath.Rel path path = Some ".".
Proof. unfold Filepath.Rel. by rewrite String.eqb_refl. Qed.

Lemma visits_non_directory (st : Os.state) (root : string) (n : Os.node) :
  Os.Lstat st root = inr n → Os.is_dir n = false →
  Walker.visits st root = [Walker.Visit root (Some n) None].
Proof.
  intros Hl Hn. unfold Walker.visits. rewrite Hl.
  cbn [Walker.walk]. by rewrite Hn.
Qed.

(** ** Every line of a manifest is classified once *)

Section Partition.

Import Checksum.

Lemma verify_line_cases (st : Os.state) (baseDir line : string)
    (passed failed : list string) :
  match path_of_line line with
  | None => verify_line st baseDir (passed, failed) line = (passed, failed)
  | Some p1 =>
      verify_line st baseDir (passed, failed) line = (passed ++ [p1], failed)
      ∨ verify_line st baseDir (passed, failed) line
        = (passed, failed ++ [p1])
  end.
Proof.
  unfold path_of_line, verify_line.
  destruct (String.eqb line ""); [done|].
  destruct (GoStrings.SplitN2 line "  ") as [|p0 [|p1 [|]]]; try done.
  destruct (Fmt.Sscanf_x p0) as [v|]; [|by right].
  destruct (CalculateCRC32 st _) as [e|c]; [by right|].
  destruct (c =? v); [by left|by right].
Qed.

Lemma omap_cons_eq {A B} (f : A → option B) (x : A) (l : list A) :
  omap f (x :: l)
  = match f x with Some y => y :: omap f l | None => omap f l end.
Proof. reflexivity. Qed.

Lemma verify_lines_partition (st : Os.state) (baseDir : string)
    (ls : list string) (passed failed : list string) :
  ∃ x y,
    fold_left (verify_line st baseDir) ls (passed, failed)
    = (passed ++ x, failed ++ y)
    ∧ x `sublist_of` omap path_of_line ls
    ∧ y `sublist_of` omap path_of_line ls
    ∧ x ++ y ≡ₚ omap path_of_line ls.
Proof.
  revert passed failed.
  induction ls as [|l ls IH]; intros passed failed; cbn [fold_left].
  - exists [], []. by rewrite !app_nil_r.
  - pose proof (verify_line_cases st baseDir l passed failed) as Hl.
    rewrite omap_cons_eq.
    destruct (path_of_line l) as [p1|].
    + destruct Hl as [-> | ->].
      * destruct (IH (passed ++ [p1]) failed) as (x & y & -> & Hx & Hy & Hp).
        exists (p1 :: x), y. rewrite <- app_assoc. repeat split.
        -- by apply sublist_skip.
        -- by apply sublist_cons.
        -- cbn. by rewrite Hp.
      * destruct (IH passed (failed ++ [p1])) as (x & y & -> & Hx & Hy & Hp).
        exists x, (p1 :: y). rewrite <- app_assoc. repeat split.
        -- by apply sublist_cons.
        -- by apply sublist_skip.
        -- rewrite <- Hp. by rewrite Permutation_middle.
    + rewrite Hl. apply IH.
Qed.

End Partition.

(** ** A digest in the manifest *)

(** X10: a digest [CalculateCRC32] returns fits 32 bits, so [%08x] prints
    it as exactly eight digits, and [Sscanf] with [%x] reads these digits
    back as the same number; two digests print the same text only when
    they are equal. *)
Theorem digest_prints_and_scans (st : Os.state) (path : string) (c : Z)
    (Hc : Checksum.CalculateCRC32 st path = inr c) :
  String.length (Fmt.Sprintf_08x c) = 8%nat
  ∧ Fmt.Sscanf_x (Fmt.Sprintf_08x c) = Some c
  ∧ ∀ st' path' c',
      Checksum.CalculateCRC32 st' path' = inr c' →
      Fmt.Sprintf_08x c = Fmt.Sprintf_08x c' → c = c'.
Proof.
  pose proof (CalculateCRC32_range st path c Hc) as Hr.
  split; [apply hex_digits_length|].
  split; [by apply Sscanf_x_Sprintf|].
  intros st' path' c' Hc' Heq.
  pose proof (CalculateCRC32_range st' path' c' Hc') as Hr'.
  apply Sscanf_x_Sprintf in Hr, Hr'. rewrite Heq in Hr. congruence.
Qed.

Lemma digest_prints_and_scans_witness :
  String.length (Fmt.Sprintf_08x 0x3610a686) = 8%nat
  ∧ Fmt.Sscanf_x (Fmt.Sprintf_08x 0x3610a686) = Some 0x3610a686
  ∧ ∀ st' path' c',
      Checksum.CalculateCRC32 st' path' = inr c' →
      Fmt.Sprintf_08x 0x3610a686 = Fmt.Sprintf_08x c' → 0x3610a686 = c'.
Proof.
  apply (digest_prints_and_scans ex_twins "/a" 0x3610a686).
  vm_compute. reflexivity.
Defined.

(** ** What stops [CreateCRC32Sums] *)

Section Stops.

Import Checksum.

Lemma run_sums_error (st : Os.state) (directory : string)
    (vs : list Walker.visit) (v : Walker.visit) (entries : list Entry) :
  v ∈ vs →
  (∀ es, snd (sums_fn st directory es v) ≠ None) →
  snd (Walker.run (sums_fn st directory) vs entries) ≠ None.
Proof.
  intros Hin Hbad. revert entries.
  induction vs as [|w vs IH]; intros entries; [by apply elem_of_nil in Hin|].
  cbn [Walker.run].
  destruct (sums_fn st directory entries w) as [es' [e|]] eqn:Hw; [done|].
  apply elem_of_cons in Hin as [->|Hin].
  - specialize (Hbad entries). by rewrite Hw in Hbad.
  - by apply IH.
Qed.

Lemma sums_fn_unreadable (st : Os.state) (directory : string)
    (v : Walker.visit) (es : list Entry) :
  Walker.v_err v ≠ None
  ∨ (∃ n, Walker.v_info v = Some n ∧ Os.is_dir n = false
          ∧ ∀ c, CalculateCRC32 st (Walker.v_path v) ≠ inr c) →
  snd (sums_fn st directory es v) ≠ None.
Proof.
  unfold sums_fn. intros [Herr | (n & -> & Hn & Hc)].
  - by destruct (Walker.v_err v).
  - destruct (Walker.v_err v); [done|]. rewrite Hn.
    destruct (Filepath.Rel directory (Walker.v_path v)); [|done].
    destruct (CalculateCRC32 st (Walker.v_path v)) as [e|c] eqn:E; [done|].
    by destruct (Hc c).
Qed.

End Stops.

(** X12: [CreateCRC32Sums] is all or nothing.  When the walk reports an
    error for some path, or meets something that is not a directory and
    that [CalculateCRC32] cannot read, such as a symbolic link that
    leads nowhere or to a directory, [CreateCRC32Sums] returns an error,
    and the file system is as before: no manifest is written, not even
    for the files before that path. *)
Theorem CreateCRC32Sums_all_or_nothing (st : Os.state)
    (directory outputPath : string) (v : Walker.visit)
    (Hin : v ∈ Walker.visits st directory)
    (Hbad : Walker.v_err v ≠ None
            ∨ (∃ n, Walker.v_info v = Some n ∧ Os.is_dir n = false
                    ∧ ∀ c, Checksum.CalculateCRC32 st (Walker.v_path v)
                           ≠ inr c)) :
  ∃ err, Checksum.CreateCRC32Sums st directory outputPath = (inl err, st).
Proof.
  unfold Checksum.CreateCRC32Sums, Walker.Walk.
  pose proof (run_sums_error st directory _ v [] Hin
                (fun es => sums_fn_unreadable st directory v es Hbad)) as Hrun.
  destruct (Walker.run _ _ _) as [entries [err|]]; [|done].
  by exists err.
Qed.

Lemma CreateCRC32Sums_all_or_nothing_witness :
  ∃ err, Checksum.CreateCRC32Sums ex_dangling "/src" "/sums"
         = (inl err, ex_dangling).
Proof.
  apply (CreateCRC32Sums_all_or_nothing ex_dangling "/src" "/sums"
           (Walker.Visit "/src/z" (Some (Os.Symlink "nowhere")) None)).
  - apply list_elem_of_In. vm_compute. right. right. left. reflexivity.
  - right. exists (Os.Symlink "nowhere"). split; [reflexivity|].
    split; [reflexivity|]. intros c. vm_compute. discriminate.
Defined.

(** ** [isPathSafe] under an absolute destination *)

Section AbsoluteDestination.

Import Filepath.

Lemma elements_head (r x : string) (xs : list string) :
  elements r = x :: xs → ∃ rest, r = x +:+ rest.
Proof.
  revert x xs. induction r as [|a r IH]; intros x xs; cbn [elements].
  - intros [= <- <-]. by exists "".
  - destruct (IsPathSeparator a).
    + intros [= <- <-]. by exists (String a r).
    + destruct (elements r) as [|y ys] eqn:E.
      * by destruct (elements_nonempty r).
      * intros [= <- <-]. destruct (IH y ys eq_refl) as [rest ->].
        exists rest. by rewrite str_app_cons.
Qed.

Lemma elements_free (c : ascii) (p : string) :
  GoStrings.ContainsRune p c = false →
  Forall (fun e => GoStrings.ContainsRune e c = false) (elements p).
Proof.
  induction p as [|a p IH]; cbn [elements GoStrings.ContainsRune].
  - by repeat constructor.
  - destruct (Ascii.eqb a c) eqn:Hac; [done|]. intros Hp.
    specialize (IH Hp). destruct (IsPathSeparator a).
    + by constructor.
    + destruct (elements p) as [|y ys] eqn:E;
        [by destruct (elements_nonempty p)|].
      apply Forall_cons in IH as [Hy Hys]. constructor; [|done].
      cbn [GoStrings.ContainsRune]. by rewrite Hac.
Qed.

Lemma elements_no_dotdot (p : string) :
  GoStrings.Contains p ".." = false → Forall (fun e => e ≠ "..") (elements p).
Proof.
  induction p as [|a p IH]; cbn [elements].
  - by repeat constructor.
  - rewrite Contains_unfold.
    destruct (String.prefix ".." (String a p)) eqn:Hpre; [done|].
    intros Hp. specialize (IH Hp). destruct (IsPathSeparator a).
    + by constructor.
    + destruct (elements p) as [|y ys] eqn:E;
        [by destruct (elements_nonempty p)|].
      apply Forall_cons in IH as [Hy Hys]. constructor; [|done].
      intros [= -> ->]. destruct (elements_head p "." ys E) as [rest ->].
      change ("." +:+ rest) with (String "." rest) in Hpre.
      rewrite !prefix_cons_cons, prefix_nil in Hpre.
      by destruct (ascii_dec "." ".").
Qed.

Lemma clean_step_rooted_valid (out : list string) (e : string) :
  valid_names out →
  GoStrings.ContainsRune e "/" = false →
  GoStrings.ContainsRune e "000" = false →
  valid_names (clean_step true out e).
Proof.
  intros Hout Hs Hz. unfold clean_step.
  destruct (String.eqb e "") eqn:E1; [done|].
  destruct (String.eqb e ".") eqn:E2; [done|].
  destruct (String.eqb e "..") eqn:E3.
  - destruct (last out) as [l|] eqn:Hlast; [|done].
    apply last_Some in Hlast as [out' ->].
    apply Forall_app in Hout as [Hout' Hl].
    rewrite Forall_singleton in Hl.
    apply valid_name_spec in Hl as (_ & _ & Hl & _).
    rewrite (eqb_false l ".."), removelast_last; done.
  - apply Forall_app. split; [done|]. rewrite Forall_singleton.
    apply valid_name_spec. apply String.eqb_neq in E1, E2, E3. done.
Qed.

Lemma clean_fold_rooted_valid (es out : list string) :
  Forall (fun e => GoStrings.ContainsRune e "/" = false) es →
  Forall (fun e => GoStrings.ContainsRune e "000" = false) es →
  valid_names out → valid_names (fold_left (clean_step true) es out).
Proof.
  intros Hs. revert out. induction Hs as [|e es He Hs IH]; intros out Hz Hout.
  - done.
  - apply Forall_cons in Hz as [Hze Hz]. cbn [fold_left].
    apply IH; [done|]. by apply clean_step_rooted_valid.
Qed.

Lemma elements_slashfree_all (p : string) :
  Forall (fun e => GoStrings.ContainsRune e "/" = false) (elements p).
Proof. apply Forall_forall. intros e. apply elements_no_separator. Qed.

Lemma IsAbs_nonempty (p : string) : IsAbs p = true → p ≠ "".
Proof. by intros H ->. Qed.

Lemma IsAbs_app (p s : string) : IsAbs p = true → IsAbs (p +:+ s) = true.
Proof.
  destruct p as [|a p]; [done|]. unfold IsAbs, GoStrings.HasPrefix.
  rewrite str_app_cons, !prefix_cons_cons.
  destruct (ascii_dec "/" a); [|done]. by rewrite !prefix_nil.
Qed.

(** The location an absolute path names after [Clean]. *)
Lemma Clean_rooted (base : string) :
  IsAbs base = true → GoStrings.ContainsRune base "000" = false →
  valid_names (clean_elements true (elements base))
  ∧ Clean base = abs_path (clean_elements true (elements base)).
Proof.
  intros Habs Hz. split.
  - apply clean_fold_rooted_valid;
      [apply elements_slashfree_all|by apply elements_free|done].
  - unfold Clean. rewrite (eqb_false base "") by by apply IsAbs_nonempty.
    by rewrite Habs.
Qed.

Lemma clean_fold_no_dotdot (r : bool) (es out : list string) :
  Forall (fun e => e ≠ "..") es →
  fold_left (clean_step r) es out
  = out ++ filter (fun e => e ≠ "" ∧ e ≠ ".") es.
Proof.
  intros Hes. revert out. induction Hes as [|e es He Hes IH]; intros out.
  - by rewrite filter_nil, app_nil_r.
  - cbn [fold_left]. rewrite IH. unfold clean_step.
    destruct (String.eqb e "") eqn:E1.
    { apply String.eqb_eq in E1 as ->.
      rewrite filter_cons_False; [done|]. by intros [? _]. }
    destruct (String.eqb e ".") eqn:E2.
    { apply String.eqb_eq in E2 as ->.
      rewrite filter_cons_False; [done|]. by intros [_ ?]. }
    rewrite (eqb_false e "..") by done.
    apply String.eqb_neq in E1, E2.
    rewrite filter_cons_True by done. by rewrite <- app_assoc.
Qed.

Lemma Join_rooted (base path : string) :
  IsAbs base = true → GoStrings.ContainsRune base "000" = false →
  GoStrings.Contains path ".." = false →
  GoStrings.ContainsRune path "000" = false →
  valid_names (added_names_of path)
  ∧ Join [base; path]
    = abs_path (clean_elements true (elements base) ++ added_names_of path).
Proof.
  intros Habs Hz Hdd Hpz. split.
  - unfold added_names_of. apply Forall_forall. intros e He.
    apply list_elem_of_filter in He as [[He1 He2] He].
    apply valid_name_spec. repeat split; try done.
    + pose proof (elements_no_dotdot path Hdd) as H.
      rewrite Forall_forall in H. by apply H.
    + by eapply elements_no_separator.
    + pose proof (elements_free "000" path Hpz) as H.
      rewrite Forall_forall in H. by apply H.
  - cbn [Join]. rewrite (eqb_false base "") by by apply IsAbs_nonempty.
    change (GoStrings.Join [base; path] "/") with (base +:+ "/" +:+ path).
    unfold Clean.
    rewrite (eqb_false (base +:+ "/" +:+ path) "")
      by (apply IsAbs_nonempty; by apply IsAbs_app).
    rewrite IsAbs_app by done. rewrite elements_app_sep.
    unfold clean_elements. rewrite fold_left_app.
    by rewrite (clean_fold_no_dotdot true (elements path))
      by by apply elements_no_dotdot.
Qed.

Lemma isPathSafe_rooted (base path : string) :
  IsAbs base = true → GoStrings.ContainsRune base "000" = false →
  Archive.isPathSafe path base
  = negb (String.eqb path "") && negb (GoStrings.Contains path "..")
    && negb (IsAbs path) && negb (GoStrings.ContainsRune path "000").
Proof.
  intros Habs Hz. unfold Archive.isPathSafe.
  destruct (String.eqb path ""); [done|].
  destruct (GoStrings.Contains path "..") eqn:Hdd; [done|].
  destruct (IsAbs path); [done|].
  destruct (GoStrings.ContainsRune path "000") eqn:Hpz; [done|].
  cbn [negb andb].
  destruct (Clean_rooted base Habs Hz) as [Hl ->].
  destruct (Join_rooted base path Habs Hz Hdd Hpz) as [Hn ->].
  rewrite Clean_abs_path by by apply Forall_app.
  destruct (abs_path_app (clean_elements true (elements base))
              (added_names_of path)) as [s ->].
  apply prefix_app.
Qed.

End AbsoluteDestination.

(** X1: under a destination that is an absolute path, however it is
    written, the last test of [isPathSafe] never fails, so the verdict
    depends on the entry's path alone: a path is accepted exactly when it
    is not empty, does not contain two dots next to each other, is not
    absolute and has no zero byte.  (The destination has no zero byte
    itself.) *)
Theorem isPathSafe_absolute_destination (base path : string)
    (Habs : Filepath.IsAbs base = true)
    (Hz : GoStrings.ContainsRune base "000" = false) :
  Archive.isPathSafe path base = true
  ↔ path ≠ "" ∧ GoStrings.Contains path ".." = false
    ∧ Filepath.IsAbs path = false
    ∧ GoStrings.ContainsRune path "000" = false.
Proof.
  rewrite (isPathSafe_rooted base path Habs Hz).
  rewrite !andb_true_iff, !negb_true_iff, String.eqb_neq. tauto.
Qed.

Lemma isPathSafe_absolute_destination_witness :
  Archive.isPathSafe "./a//b/" "/tmp/test/../out/" = true
  ↔ "./a//b/" ≠ "" ∧ GoStrings.Contains "./a//b/" ".." = false
    ∧ Filepath.IsAbs "./a//b/" = false
    ∧ GoStrings.ContainsRune "./a//b/" "000" = false.
Proof.
  apply (isPathSafe_absolute_destination "/tmp/test/../out/" "./a//b/").
  - vm_compute. reflexivity.
  - vm_compute. reflexivity.
Defined.

(** X2: an entry [isPathSafe] accepts under an absolute destination is
    written to a path below the destination: [Clean] of the destination
    names a location, and the target path [Extract] joins from the
    destination and the entry's path names that location followed by the
    elements of the entry's path, the empty ones and [.] left out, each a
    file name.  The containment is one of names: a symbolic link on the
    way is not looked at. *)
Theorem isPathSafe_target_below_destination (base path : string)
    (Habs : Filepath.IsAbs base = true)
    (Hz : GoStrings.ContainsRune base "000" = false)
    (Hsafe : Archive.isPathSafe path base = true) :
  ∃ l, valid_names l
       ∧ valid_names (added_names_of path)
       ∧ Filepath.Clean base = abs_path l
       ∧ Filepath.Join [base; path] = abs_path (l ++ added_names_of path).
Proof.
  rewrite (isPathSafe_rooted base path Habs Hz) in Hsafe.
  rewrite !andb_true_iff, !negb_true_iff in Hsafe.
  destruct Hsafe as [[[_ Hdd] _] Hpz].
  destruct (Clean_rooted base Habs Hz) as [Hl Hclean].
  destruct (Join_rooted base path Habs Hz Hdd Hpz) as [Hn Hjoin].
  by exists (Filepath.clean_elements true (Filepath.elements base)).
Qed.

Lemma isPathSafe_target_below_destination_witness :
  ∃ l, valid_names l
       ∧ valid_names (added_names_of "./a//b/")
       ∧ Filepath.Clean "/tmp/test/../out/" = abs_path l
       ∧ Filepath.Join ["/tmp/test/../out/"; "./a//b/"]
         = abs_path (l ++ added_names_of "./a//b/").
Proof.
  apply (isPathSafe_target_below_destination "/tmp/test/../out/" "./a//b/").
  - vm_compute. reflexivity.
  - vm_compute. reflexivity.
  - vm_compute. reflexivity.
Defined.

(** ** The listing of a created archive *)

Lemma rel_path_inj (k1 k2 : list string) :
  valid_names k1 → k1 ≠ [] → valid_names k2 → k2 ≠ [] →
  rel_path k1 = rel_path k2 → k1 = k2.
Proof.
  intros H1 N1 H2 N2 Heq.
  rewrite <- (elements_rel_path k1), <- (elements_rel_path k2) by done.
  by rewrite Heq.
Qed.

Lemma record_of_name (o : list string * Os.node) :
  Tar.Name (fst (record_of o)) = rel_path (fst o).
Proof. unfold record_of. by destruct (snd o). Qed.

(** ** Extraction over what is already there *)

Section ExtractAgain.

Import Os Archive.

Lemma put_same (st : state) (l : loc) (n : node) :
  nodes st !! l = Some n → put st l n = st.
Proof.
  intros Hl. destruct st as [m c u]. unfold put. cbn in *.
  by rewrite insert_id.
Qed.

Lemma WriteFile_existing (st : state) (l : loc) (perm m : Z)
    (old data : list Byte.byte) :
  valid_names l → dirs_above (nodes st) l →
  nodes st !! l = Some (File m old) →
  WriteFile st (abs_path l) perm data = inr (put st l (File m data)).
Proof.
  intros Hv Hd Hl. unfold WriteFile. rewrite resolve_abs, Hl; [done..|].
  right. intros t. by rewrite Hl.
Qed.

Lemma MkSymlink_existing (st : state) (l : loc) (target : string) (n : node) :
  target ≠ "" →
  valid_names l → dirs_above (nodes st) l → nodes st !! l = Some n →
  MkSymlink st target (abs_path l) = inl EEXIST.
Proof.
  intros Ht Hv Hd Hl. unfold MkSymlink. rewrite eqb_false by done.
  rewrite resolve_abs, Hl; auto.
Qed.

(** The [switch] of [Extract] on the record of an object that the
    destination holds already. *)
Lemma apply_entry_present (st : state) (D ns0 : loc) (x : string) (n : node) :
  valid_names D → valid_names (ns0 ++ [x]) →
  dirs_above (nodes st) (D ++ ns0 ++ [x]) →
  present (nodes st) D (ns0 ++ [x], n) → link_named n →
  apply_entry (abs_path D) st (fst (record_of (ns0 ++ [x], n)))
    (snd (record_of (ns0 ++ [x], n)))
  = inr (st, []).
Proof.
  intros HD Hns Hd Hpre Hln.
  assert (valid_names (D ++ ns0)) as HDns0.
  { apply Forall_app in Hns as [? _]. by apply Forall_app. }
  assert (valid_name x = true) as Hx.
  { apply Forall_app in Hns as [_ Hx]. by apply Forall_cons in Hx as [? _]. }
  assert (valid_names ((D ++ ns0) ++ [x])) as HDns.
  { apply Forall_app. split; [done|]. by rewrite Forall_singleton. }
  assert (Filepath.Join [abs_path D; rel_path (ns0 ++ [x])]
          = abs_path ((D ++ ns0) ++ [x])) as Htarget.
  { rewrite Join_abs_rel; [by rewrite app_assoc|done..|]. by destruct ns0. }
  rewrite (app_assoc D ns0 [x]) in *.
  destruct (Hd (D ++ ns0)) as [mdp Hp].
  { by apply prefix_app_r. }
  { intros E. apply (f_equal length) in E. rewrite !length_app in E.
    cbn in E. lia. }
  assert (dirs_above (nodes st) (D ++ ns0)) as Hd0.
  { eapply dirs_above_prefix; [done|]. by apply prefix_app_r. }
  unfold present in Hpre. cbn [fst snd] in Hpre.
  rewrite (app_assoc D ns0 [x]) in Hpre.
  unfold apply_entry, record_of. cbn [fst snd].
  destruct n as [m data|m|t];
    cbn [Tar.Typeflag Tar.Name Tar.Mode Tar.Linkname fst snd];
    rewrite Htarget.
  - destruct Hpre as [m' Hl]. rewrite Dir_abs_path by done.
    rewrite (MkdirAll_existing st (D ++ ns0) _ mdp) by done.
    rewrite (WriteFile_existing st _ _ m' data data) by done.
    by rewrite put_same.
  - destruct Hpre as [m' Hl].
    by rewrite (MkdirAll_existing st _ _ m') by done.
  - destruct Hpre as [n Hl]. rewrite Dir_abs_path by done.
    rewrite (MkdirAll_existing st (D ++ ns0) _ mdp) by done.
    by rewrite (MkSymlink_existing st _ _ n) by done.
Qed.

Lemma extract_loop_present (D : loc) (L : list (list string * node))
    (p : progress) :
  valid_names D →
  Forall (fun o => valid_names (fst o) ∧ fst o ≠ []
                   ∧ Forall (fun n => GoStrings.Contains n ".." = false) (fst o)
                   ∧ dirs_above (nodes (fsys p)) (D ++ fst o)
                   ∧ present (nodes (fsys p)) D o
                   ∧ link_named (snd o)
                   ∧ Z.of_nat (length (snd (record_of o))) <= MaxFileSize) L →
  0 <= totalSize p → 0 <= fileCount p →
  totalSize p + content_bytes (map record_of L) <= MaxArchiveSize →
  fileCount p + Z.of_nat (length L) <= MaxFiles →
  extract_loop (abs_path D) p (map record_of L) Tar.EOF
  = (mkProgress (fsys p) (totalSize p + content_bytes (map record_of L))
       (fileCount p + Z.of_nat (length L)) (printed p), None).
Proof.
  intros HD HL. revert p HL.
  induction L as [|[k n] L IH]; intros p HL Ht0 Hc0 Htotal Hcount.
  - cbn. destruct p. cbn. f_equal. f_equal; lia.
  - apply Forall_cons in HL as [(Hk & Hne & Hdd & Hd & Hpre & Hln & Hsize) HL].
    cbn [fst snd] in *.
    cbn [map] in *. cbn [extract_loop].
    rewrite content_bytes_cons in *.
    pose proof (content_bytes_nonneg (map record_of L)).
    cbn [length] in Hcount.
    destruct (exists_last Hne) as (ns0 & x & ->).
    pose proof (apply_entry_present (fsys p) D ns0 x n HD Hk Hd Hpre Hln)
      as Ha.
    pose proof (record_of_size (ns0 ++ [x], n)) as [HS HN].
    assert (extract_step (abs_path D) p (record_of (ns0 ++ [x], n))
            = (mkProgress (fsys p)
                 (totalSize p
                  + Z.of_nat (length (snd (record_of (ns0 ++ [x], n)))))
                 (fileCount p + 1) (printed p), None)) as Hstep.
    { unfold extract_step.
      destruct (record_of (ns0 ++ [x], n)) as [header body] eqn:Er.
      cbn [fst snd] in *.
      rewrite HN, isPathSafe_abs; [|done..|by destruct ns0|done].
      cbn [negb]. rewrite HS.
      destruct (Z.ltb_spec MaxFileSize (Z.of_nat (length body))); [lia|].
      rewrite !wrap64_id by (unfold MaxArchiveSize, MaxFiles in *; lia).
      destruct (Z.ltb_spec MaxArchiveSize
                  (totalSize p + Z.of_nat (length body))); [lia|].
      destruct (Z.ltb_spec MaxFiles (fileCount p + 1)); [lia|].
      rewrite Ha. by rewrite app_nil_r. }
    rewrite Hstep. rewrite IH; cbn [fsys totalSize fileCount printed];
      [|done|lia..].
    f_equal. f_equal; cbn [length]; lia.
Qed.

Lemma prefix_app_cases {A} (p D k : list A) :
  p `prefix_of` D ++ k →
  p `prefix_of` D ∨ ∃ k', p = D ++ k' ∧ k' `prefix_of` k.
Proof.
  revert p. induction D as [|d D IH]; intros p Hp.
  - right. by exists p.
  - destruct p as [|a p]; [left; by exists (d :: D)|].
    cbn in Hp. pose proof (prefix_cons_inv_1 _ _ _ _ Hp) as ->.
    apply prefix_cons_inv_2 in Hp.
    destruct (IH p Hp) as [H | (k' & -> & H)].
    + left. by apply prefix_cons.
    + right. by exists k'.
Qed.

End ExtractAgain.

(** ** Through a symbolic link *)

Section ThroughLink.

Import Os Archive.

Lemma components_link (m : gmap loc node) (follow : bool)
    (ns : list string) (cur : loc) (x t : string) (rest : list string) :
  valid_names ns → valid_name x = true →
  (∀ p, p `prefix_of` ns → p ≠ [] → ∃ md, m !! (cur ++ p) = Some (Dir md)) →
  m !! (cur ++ ns ++ [x]) = Some (Symlink t) → t ≠ "" →
  rest ≠ [] ∨ follow = true →
  components m follow cur (ns ++ x :: rest) = Expand (cur ++ ns) t rest.
Proof.
  revert cur. induction ns as [|a ns IH]; intros cur Hv Hx Hd Hl Ht Hr.
  - apply valid_name_spec in Hx as (H1 & H2 & H3 & _).
    cbn [app components]. rewrite !eqb_false by done.
    rewrite app_nil_r. cbn [app] in Hl. rewrite Hl.
    rewrite (eqb_false t "") by done.
    destruct Hr as [Hr | ->].
    + by destruct rest.
    + by rewrite andb_false_r.
  - apply Forall_cons in Hv as [Ha Hv].
    apply valid_name_spec in Ha as (H1 & H2 & H3 & _).
    cbn [app components]. rewrite !eqb_false by done.
    destruct (Hd [a]) as [md Hmd]; [by exists ns|done|].
    rewrite Hmd. rewrite IH; [by rewrite <- app_assoc|done..| | |done|done].
    + intros p Hp Hne. rewrite <- app_assoc.
      apply (Hd (a :: p)); [by apply prefix_cons|done].
    + by rewrite <- app_assoc.
Qed.

(** The location of a path that leads through a symbolic link to an
    absolute, clean target. *)
Lemma resolve_link (st : state) (follow : bool) (l : loc) (x : string)
    (T rest : loc) :
  valid_names l → valid_name x = true → valid_names T → valid_names rest →
  dirs_above (nodes st) (l ++ [x]) →
  nodes st !! (l ++ [x]) = Some (Symlink (abs_path T)) →
  rest ≠ [] ∨ follow = true →
  dirs_above (nodes st) (T ++ rest) →
  (follow = false ∨ ∀ t, nodes st !! (T ++ rest) ≠ Some (Symlink t)) →
  resolve st follow (abs_path (l ++ x :: rest)) = inr (T ++ rest).
Proof.
  intros Hl Hx HT Hrest Hd Hlink Hr HdT Hf. unfold resolve.
  rewrite eqb_false by apply abs_path_nonempty.
  assert (valid_names (l ++ x :: rest)) as Hall.
  { apply Forall_app. split; [done|]. by constructor. }
  rewrite IsAbs_abs_path, elements_abs_path by done.
  assert (match l ++ x :: rest with
          | [] => [""; ""]
          | _ :: _ => "" :: l ++ x :: rest
          end = "" :: l ++ x :: rest) as -> by by destruct l.
  unfold MAXSYMLINKS. cbn [namei].
  change (components (nodes st) follow [] ("" :: l ++ x :: rest))
    with (components (nodes st) follow [] (l ++ x :: rest)).
  rewrite (components_link _ _ l [] x (abs_path T) rest);
    [|done|done| |done|apply abs_path_nonempty|done].
  - rewrite IsAbs_abs_path, elements_abs_path by done.
    assert (components (nodes st) follow []
              (match T with [] => [""; ""] | _ :: _ => "" :: T end ++ rest)
            = components (nodes st) follow [] (T ++ rest)) as ->
      by by destruct T.
    rewrite components_plain; [done| |..].
    + apply Forall_app. by split.
    + intros p Hp Hne1 Hne2. by apply HdT.
    + done.
  - intros p Hp Hne. apply Hd.
    + destruct Hp as [r ->]. exists (r ++ [x]). by rewrite <- app_assoc.
    + intros E. apply (f_equal length) in E.
      destruct Hp as [r ->]. rewrite !length_app in E. cbn in E. lia.
Qed.

Lemma MkdirAll_stat_dir (st : state) (path : string) (perm md : Z) :
  Stat st path = inr (Dir md) → MkdirAll st path perm = inr st.
Proof.
  intros Hs. unfold MkdirAll.
  destruct (String.length path); cbn [MkdirAll_rec]; by rewrite Hs.
Qed.

End ThroughLink.

(** X6: [isPathSafe] looks at the names of an entry, not at what the
    names lead through.  After an entry that is a symbolic link [x] to a
    directory [T], an entry for a regular file [x/name] passes the check
    and is written to [T/name], wherever [T] lies: [MkdirAll] finds the
    parent through the link, and [OpenFile] follows the link.  A file
    that is there is overwritten and keeps its mode.  Nothing is printed,
    no error is returned, and the link and that file are all that
    changes. *)
Theorem Extract_writes_through_link (st : Os.state) (D T : Os.loc)
    (x name : string) (body : list Byte.byte) (mode md mdT : Z)
    (HD : valid_names D)
    (HDabove : dirs_above (Os.nodes st) D)
    (HDdir : Os.nodes st !! D = Some (Os.Dir md))
    (Hx : valid_name x = true)
    (Hxdd : GoStrings.Contains x ".." = false)
    (Hfresh : Os.nodes st !! (D ++ [x]) = None)
    (Hname : valid_name name = true)
    (Hndd : GoStrings.Contains name ".." = false)
    (HT : valid_names T)
    (HTabove : dirs_above (Os.nodes st) T)
    (HTdir : Os.nodes st !! T = Some (Os.Dir mdT))
    (Hthere : ∀ n, Os.nodes st !! (T ++ [name]) = Some n →
                   Os.is_regular n = true)
    (Hne : T ++ [name] ≠ D ++ [x])
    (Hsize : Z.of_nat (length body) <= Archive.MaxFileSize) :
  ∃ p m',
    Archive.Extract
      ([record_of ([x], Os.Symlink (abs_path T));
        (Tar.mkHeader Tar.TypeReg (rel_path [x; name]) ""
           (Z.of_nat (length body)) mode, body)], Tar.EOF)
      (abs_path D) st = (p, None)
    ∧ Archive.printed p = []
    ∧ Os.nodes (Archive.fsys p)
      = <[T ++ [name] := Os.File m' body]>
          (<[D ++ [x] := Os.Symlink (abs_path T)]> (Os.nodes st))
    ∧ (∀ m old, Os.nodes st !! (T ++ [name]) = Some (Os.File m old) →
                m' = m).
Proof.
  unfold Archive.Extract. cbn [fst snd Archive.extract_loop].
  assert (0 <= Z.of_nat (length body)) as Hpos by lia.
  (* the link *)
  assert (Archive.extract_step (abs_path D) (Archive.mkProgress st 0 0 [])
            (record_of ([x], Os.Symlink (abs_path T)))
          = (Archive.mkProgress
               (Os.put st (D ++ [x]) (Os.Symlink (abs_path T))) 0 1 [],
             None)) as ->.
  { apply (extract_step_record (Archive.mkProgress st 0 0 []) D [] x
             (Os.Symlink (abs_path T)) md);
      first [ done | by repeat constructor | by rewrite app_nil_r
            | unfold counters_ok, Archive.MaxArchiveSize, Archive.MaxFiles,
                Archive.MaxFileSize; cbn; lia ]. }
  set (st1 := Os.put st (D ++ [x]) (Os.Symlink (abs_path T))).
  assert (Os.nodes st1 = <[D ++ [x] := Os.Symlink (abs_path T)]> (Os.nodes st))
    as Hst1 by done.
  assert (dirs_above (Os.nodes st1) (D ++ [x])) as Hd1.
  { rewrite Hst1. apply dirs_above_insert; [|done]. by eapply dirs_above_snoc. }
  assert (Os.nodes st1 !! (D ++ [x]) = Some (Os.Symlink (abs_path T))) as Hl1
    by by rewrite Hst1, lookup_insert_eq.
  assert (dirs_above (Os.nodes st1) T) as HT1
    by (rewrite Hst1; by apply dirs_above_insert).
  assert (Os.nodes st1 !! T = Some (Os.Dir mdT)) as HTd1.
  { rewrite Hst1, lookup_insert_ne; [done|]. intros E. congruence. }
  assert (dirs_above (Os.nodes st1) (T ++ [name])) as HTn1
    by by eapply dirs_above_snoc.
  assert (Os.nodes st1 !! (T ++ [name]) = Os.nodes st !! (T ++ [name])) as Hn1
    by (rewrite Hst1, lookup_insert_ne; done).
  assert (∀ t, Os.nodes st1 !! (T ++ [name]) ≠ Some (Os.Symlink t)) as Hnl.
  { intros t E. rewrite Hn1 in E. by apply Hthere in E. }
  (* the file below the link *)
  unfold Archive.extract_step.
  cbn [Tar.Name Tar.Size Archive.fsys Archive.totalSize Archive.fileCount
       Archive.printed].
  rewrite isPathSafe_abs; [|done|by repeat constructor|done
                           |by repeat constructor].
  cbn [negb].
  destruct (Z.ltb_spec Archive.MaxFileSize (Z.of_nat (length body))); [lia|].
  rewrite !Z.add_0_l.
  rewrite !wrap64_id
    by (unfold Archive.MaxArchiveSize, Archive.MaxFileSize in *; lia).
  destruct (Z.ltb_spec Archive.MaxArchiveSize (Z.of_nat (length body)));
    [unfold Archive.MaxArchiveSize, Archive.MaxFileSize in *; lia|].
  destruct (Z.ltb_spec Archive.MaxFiles (0 + 1 + 1));
    [unfold Archive.MaxFiles in *; lia|].
  unfold Archive.apply_entry. cbn [Tar.Typeflag Tar.Name Tar.Mode].
  rewrite (Join_abs_rel D [x; name]); [|done|by repeat constructor|done].
  assert (Filepath.Dir (abs_path (D ++ [x; name])) = abs_path (D ++ [x]))
    as ->.
  { change (D ++ [x; name]) with (D ++ [x] ++ [name]).
    rewrite (app_assoc D [x] [name]).
    apply Dir_abs_path; [|done].
    apply Forall_app; split; [done|by repeat constructor]. }
  assert (Os.Stat st1 (abs_path (D ++ [x])) = inr (Os.Dir mdT)) as Hstat.
  { unfold Os.Stat, Os.stat_with.
    rewrite (resolve_link st1 true D x T []); rewrite ?app_nil_r;
      [by rewrite HTd1|done..|by right|done|].
    right. intros t. by rewrite HTd1. }
  rewrite (MkdirAll_stat_dir st1 _ _ mdT Hstat).
  unfold Os.WriteFile.
  rewrite (resolve_link st1 true D x T [name]);
    [|done|done|done|by repeat constructor|done|done|by left|done|by right].
  rewrite Hn1.
  destruct (Os.nodes st !! (T ++ [name])) as [[m old| |]|] eqn:Eold.
  - eexists _, m. cbn [Archive.printed Archive.fsys]. rewrite app_nil_r.
    repeat split. by intros ? ? [= -> _].
  - by specialize (Hthere _ eq_refl).
  - by specialize (Hthere _ eq_refl).
  - eexists _, _. cbn [Archive.printed Archive.fsys]. rewrite app_nil_r.
    repeat split. done.
Qed.

Lemma Extract_writes_through_link_witness :
  ∃ p m',
    Archive.Extract
      ([record_of (["x"], Os.Symlink (abs_path ["etc"]));
        (Tar.mkHeader Tar.TypeReg (rel_path ["x"; "passwd"]) ""
           (Z.of_nat (length (bytes "evil"))) 420, bytes "evil")], Tar.EOF)
      (abs_path ["dst"]) ex_outside = (p, None)
    ∧ Archive.printed p = []
    ∧ Os.nodes (Archive.fsys p)
      = <[["etc"] ++ ["passwd"] := Os.File m' (bytes "evil")]>
          (<[["dst"] ++ ["x"] := Os.Symlink (abs_path ["etc"])]>
             (Os.nodes ex_outside))
    ∧ (∀ m old,
         Os.nodes ex_outside !! (["etc"] ++ ["passwd"]) = Some (Os.File m old) →
         m' = m).
Proof.
  apply (Extract_writes_through_link ex_outside ["dst"] ["etc"] "x" "passwd"
           (bytes "evil") 420 493 493).
  - repeat constructor.
  - apply dirs_aboveb_spec. vm_compute. reflexivity.
  - vm_compute. reflexivity.
  - reflexivity.
  - vm_compute. reflexivity.
  - vm_compute. reflexivity.
  - reflexivity.
  - vm_compute. reflexivity.
  - repeat constructor.
  - apply dirs_aboveb_spec. vm_compute. reflexivity.
  - vm_compute. reflexivity.
  - intros n Hn. vm_compute in Hn. injection Hn as <-. reflexivity.
  - discriminate.
  - vm_compute. discriminate.
Defined.

(** ** A hard link to a name outside *)

Section LinkOutside.

Import Os Archive.

Lemma last_snoc_eq {A} (l : list A) (x : A) : last (l ++ [x]) = Some x.
Proof. induction l as [|a [|b l] IH]; done. Qed.

(** [Join] of a directory and a name in the directory above it. *)
Lemma Join_dotdot (l : list string) (d f : string) :
  valid_names l → valid_name d = true → valid_name f = true →
  Filepath.Join [abs_path (l ++ [d]); "../" +:+ f] = abs_path (l ++ [f]).
Proof.
  intros Hl Hd Hf.
  assert (valid_names (l ++ [d])) as Hld.
  { apply Forall_app. split; [done|]. by rewrite Forall_singleton. }
  cbn [Filepath.Join].
  rewrite (eqb_false (abs_path (l ++ [d])) "") by apply abs_path_nonempty.
  change (GoStrings.Join [abs_path (l ++ [d]); "../" +:+ f] "/")
    with (abs_path (l ++ [d]) +:+ "/" +:+ (".." +:+ "/" +:+ f)).
  destruct (abs_path_app [] (l ++ [d])) as [s Hs]. cbn [app] in Hs.
  unfold Filepath.Clean.
  rewrite (eqb_false (_ +:+ _) "")
    by (rewrite Hs; by destruct s).
  assert (Filepath.IsAbs (abs_path (l ++ [d]) +:+ "/" +:+ ".." +:+ "/" +:+ f)
          = true) as ->.
  { rewrite Hs. change (abs_path []) with "/". by rewrite !str_app_assoc,
      IsAbs_slash. }
  rewrite !elements_app_sep.
  unfold Filepath.clean_elements. rewrite !fold_left_app.
  fold (Filepath.clean_elements true (Filepath.elements (abs_path (l ++ [d])))).
  rewrite clean_elements_abs by done.
  change (Filepath.elements "..") with [".."].
  rewrite (elements_slashfree f) by by apply valid_slashfree.
  cbn [fold_left]. unfold Filepath.clean_step at 2.
  cbn [String.eqb Ascii.eqb Bool.eqb].
  rewrite last_snoc_eq.
  apply valid_name_spec in Hd as (_ & _ & Hd & _).
  rewrite (eqb_false d "..") by done. rewrite removelast_last.
  by rewrite clean_step_valid.
Qed.

Lemma Link_new (st : state) (lo l : loc) (m : Z) (data : list Byte.byte) :
  valid_names lo → dirs_above (nodes st) lo →
  nodes st !! lo = Some (File m data) →
  valid_names l → dirs_above (nodes st) l → nodes st !! l = None →
  Link st (abs_path lo) (abs_path l) = inr (put st l (File m data)).
Proof.
  intros Hlo Hdo Ho Hl Hd Hn. unfold Link.
  rewrite resolve_abs, Ho by auto. rewrite resolve_abs, Hn by auto. done.
Qed.

End LinkOutside.

(** X7: the link name of a hard link entry is not checked.  [Extract]
    tests the name of the entry with [isPathSafe] and joins the link name
    to the destination as it is, so an entry [x] whose link name is
    [../f] passes and becomes a link, in the destination, to the file [f]
    in the directory above the destination: its bytes and its mode appear
    under [x].  Nothing is printed and no error is returned. *)
Theorem Extract_links_outside (st : Os.state) (D0 : Os.loc)
    (d x f : string) (m md mode : Z) (data : list Byte.byte)
    (HD0 : valid_names D0)
    (Hd : valid_name d = true)
    (Hx : valid_name x = true)
    (Hxdd : GoStrings.Contains x ".." = false)
    (Hf : valid_name f = true)
    (HDabove : dirs_above (Os.nodes st) (D0 ++ [d]))
    (HDdir : Os.nodes st !! (D0 ++ [d]) = Some (Os.Dir md))
    (Hfresh : Os.nodes st !! ((D0 ++ [d]) ++ [x]) = None)
    (Hfile : Os.nodes st !! (D0 ++ [f]) = Some (Os.File m data)) :
  Archive.isPathSafe ("../" +:+ f) (abs_path (D0 ++ [d])) = false
  ∧ Archive.Extract
      ([(Tar.mkHeader Tar.TypeLink x ("../" +:+ f) 0 mode, [])], Tar.EOF)
      (abs_path (D0 ++ [d])) st
    = (Archive.mkProgress
         (Os.put st ((D0 ++ [d]) ++ [x]) (Os.File m data)) 0 1 [], None).
Proof.
  split.
  { unfold Archive.isPathSafe.
    change (String.eqb ("../" +:+ f) "") with false. cbn iota.
    change ("../" +:+ f) with ("" +:+ ".." +:+ ("/" +:+ f)).
    by rewrite Contains_app. }
  assert (valid_names (D0 ++ [d])) as HD.
  { apply Forall_app. split; [done|]. by rewrite Forall_singleton. }
  assert (dirs_above (Os.nodes st) D0) as HD0above.
  { eapply dirs_above_prefix; [done|]. by exists [d]. }
  destruct (HDabove D0) as [md0 HD0dir]; [by exists [d]| |].
  { intros E. apply (f_equal length) in E. rewrite length_app in E.
    cbn in E. lia. }
  unfold Archive.Extract. cbn [fst snd Archive.extract_loop].
  unfold Archive.extract_step.
  cbn [Tar.Name Tar.Size Archive.fsys Archive.totalSize Archive.fileCount
       Archive.printed].
  change (Archive.isPathSafe x (abs_path (D0 ++ [d])))
    with (Archive.isPathSafe (rel_path [x]) (abs_path (D0 ++ [d]))).
  rewrite isPathSafe_abs; [|done|by repeat constructor|done
                           |by repeat constructor].
  cbn [negb].
  change (Archive.MaxFileSize <? 0) with false.
  change (Archive.wrap64 (0 + 0)) with 0.
  change (Archive.MaxArchiveSize <? 0) with false.
  change (Archive.wrap64 (0 + 1)) with 1.
  change (Archive.MaxFiles <? 1) with false. cbn iota.
  unfold Archive.apply_entry. cbn [Tar.Typeflag Tar.Name Tar.Linkname].
  rewrite Join_abs_name, Dir_abs_path by done.
  rewrite (MkdirAll_existing st (D0 ++ [d]) _ md) by done.
  rewrite Join_dotdot by done.
  rewrite (Link_new st (D0 ++ [f]) ((D0 ++ [d]) ++ [x]) m data); [done|..].
  - apply Forall_app. split; [done|]. by rewrite Forall_singleton.
  - by eapply dirs_above_snoc.
  - done.
  - apply Forall_app. split; [done|]. by rewrite Forall_singleton.
  - by eapply dirs_above_snoc.
  - done.
Qed.

Lemma Extract_links_outside_witness :
  Archive.isPathSafe ("../" +:+ "secret") (abs_path (["srv"] ++ ["dst"]))
  = false
  ∧ Archive.Extract
      ([(Tar.mkHeader Tar.TypeLink "x" ("../" +:+ "secret") 0 420, [])],
       Tar.EOF)
      (abs_path (["srv"] ++ ["dst"])) ex_beside
    = (Archive.mkProgress
         (Os.put ex_beside ((["srv"] ++ ["dst"]) ++ ["x"])
            (Os.File 384 (bytes "key"))) 0 1 [], None).
Proof.
  apply (Extract_links_outside ex_beside ["srv"] "dst" "x" "secret"
           384 493 420 (bytes "key")).
  - repeat constructor.
  - reflexivity.
  - reflexivity.
  - vm_compute. reflexivity.
  - reflexivity.
  - apply dirs_aboveb_spec. vm_compute. reflexivity.
  - vm_compute. reflexivity.
  - vm_compute. reflexivity.
  - vm_compute. reflexivity.
Defined.

(** ** A file made at a fresh location *)

Section FreshFile.

Import Os.

Variable m : gmap loc node.
Variable O : loc.
Variable md : Z.
Variable d : list Byte.byte.
Hypothesis Hfresh : m !! O = None.

Lemma components_fresh_file (follow : bool) (todo : list string) (cur : loc) :
  match components m follow cur todo with
  | Fail _ => True
  | r => components (<[O := File md d]> m) follow cur todo = r
  end.
Proof.
  revert cur. induction todo as [|x rest IH]; intros cur; [done|].
  cbn [components].
  destruct (String.eqb x ""); [apply IH|].
  destruct (String.eqb x "."); [apply IH|].
  destruct (String.eqb x ".."); [apply IH|].
  destruct (decide (cur ++ [x] = O)) as [E|E].
  - rewrite E, Hfresh, lookup_insert_eq. by destruct (is_nil rest).
  - rewrite lookup_insert_ne by done.
    destruct (m !! (cur ++ [x])) as [[| |t]|]; try done.
    + by destruct (is_nil rest).
    + apply IH.
    + destruct (is_nil rest && negb follow); [done|].
      by destruct (String.eqb t "").
    + by destruct (is_nil rest).
Qed.

Lemma namei_fresh_file (links : nat) (follow : bool) (cur : loc)
    (todo : list string) (l : loc) :
  namei links m follow cur todo = inr l →
  namei links (<[O := File md d]> m) follow cur todo = inr l.
Proof.
  revert cur todo. induction links as [|links IH]; intros cur todo;
    cbn [namei];
    pose proof (components_fresh_file follow todo cur) as Hc;
    destruct (components m follow cur todo) as [l'|c t rest|e];
    try done; rewrite Hc; try done.
  apply IH.
Qed.

End FreshFile.

Section FreshFileState.

Import Os.

Lemma Stat_fresh_file (st : state) (O : loc) (md : Z) (d : list Byte.byte)
    (path : string) (n : node) :
  nodes st !! O = None → Stat st path = inr n →
  Stat (put st O (File md d)) path = inr n.
Proof.
  intros Hfresh Hs. unfold Stat, stat_with in *.
  destruct (resolve st true path) as [e|l] eqn:Hr; [discriminate Hs|].
  assert (resolve (put st O (File md d)) true path = inr l) as ->.
  { unfold resolve in *. cbn [nodes put cwd].
    destruct (String.eqb path ""); [discriminate Hr|].
    exact (namei_fresh_file (nodes st) O md d Hfresh _ _ _ _ _ Hr). }
  destruct (nodes st !! l) as [n'|] eqn:Hl; [|discriminate Hs].
  injection Hs as <-. cbn [nodes put].
  rewrite lookup_insert_ne; [by rewrite Hl|]. congruence.
Qed.

Lemma CalculateCRC32_fresh_file (st : state) (O : loc) (md : Z)
    (d : list Byte.byte) (path : string) (c : Z) :
  nodes st !! O = None → Checksum.CalculateCRC32 st path = inr c →
  Checksum.CalculateCRC32 (put st O (File md d)) path = inr c.
Proof.
  intros Hfresh. unfold Checksum.CalculateCRC32.
  destruct (Stat st path) as [e|n] eqn:Hs; [done|].
  rewrite (Stat_fresh_file st O md d path n Hfresh Hs).
  by destruct n.
Qed.

End FreshFileState.

(** ** The two checksum commands, one after the other *)

Section Commands.

Import Os Checksum.

(** What [CreateCRC32Sums] leaves when the output path names a fresh
    location. *)
Lemma CreateCRC32Sums_fresh (st st1 : state) (directory : string) (O : loc)
    (entries : list Entry) :
  valid_names O → dirs_above (nodes st) O → nodes st !! O = None →
  CreateCRC32Sums st directory (abs_path O) = (inr entries, st1) →
  Walker.Walk st directory (sums_fn st directory) [] = (entries, None)
  ∧ st1 = put st O (File (masked st (syscallMode 0x1b6))
                       (bytes (manifest entries))).
Proof.
  intros HO Hd Hfresh. unfold CreateCRC32Sums.
  destruct (Walker.Walk st directory (sums_fn st directory) [])
    as [es [err|]]; [done|].
  rewrite WriteFile_new by done. by intros [= -> <-].
Qed.

Lemma Stat_written (st : state) (O : loc) (md : Z) (d : list Byte.byte) :
  valid_names O → dirs_above (nodes st) O → nodes st !! O = None →
  Stat (put st O (File md d)) (abs_path O) = inr (File md d).
Proof.
  intros HO Hd Hfresh.
  rewrite Stat_abs; cbn [nodes put]; rewrite ?lookup_insert_eq; try done.
  by apply dirs_above_insert.
Qed.

End Commands.

(** ** A manifest inside the directory it lists *)

Section ManifestInside.

Import Os Checksum.

Lemma wf_tree_insert_file (m : gmap loc node) (l : loc) (x : string)
    (md mode : Z) (data : list Byte.byte) :
  wf_tree m → m !! l = Some (Dir md) → valid_name x = true →
  m !! (l ++ [x]) = None →
  wf_tree (<[l ++ [x] := File mode data]> m).
Proof.
  intros Hwf Hl Hx Hfresh l' x' n' Hn.
  destruct (decide (l' ++ [x'] = l ++ [x])) as [E|E].
  - apply app_inj_tail in E as [-> ->]. split; [done|].
    exists md. rewrite lookup_insert_ne; [done|].
    intros E. apply (f_equal length) in E. rewrite length_app in E.
    cbn in E. lia.
  - rewrite lookup_insert_ne in Hn by done.
    destruct (Hwf l' x' n' Hn) as [Hv [md' Hd]]. split; [done|].
    exists md'. rewrite lookup_insert_ne; [done|].
    intros <-. congruence.
Qed.

Lemma CreateCRC32Sums_entries (st st' : state) (directory outputPath : string)
    (entries : list Entry) :
  CreateCRC32Sums st directory outputPath = (inr entries, st') →
  Walker.run (sums_fn st directory) (Walker.visits st directory) []
  = (entries, None).
Proof.
  unfold CreateCRC32Sums, Walker.Walk.
  destruct (Walker.run _ _ _) as [es [err|]]; [done|].
  destruct (WriteFile _ _ _ _); [done|]. by intros [= -> _].
Qed.

(** The entries of a well-formed tree, one for each listed object that
    is not a directory. *)
Lemma entries_of_listing (st st' : state) (root : loc) (md : Z)
    (outputPath : string) (entries : list Entry) :
  wf_tree (nodes st) → valid_names root → dirs_above (nodes st) root →
  nodes st !! root = Some (Dir md) →
  CreateCRC32Sums st (abs_path root) outputPath = (inr entries, st') →
  (∀ e, e ∈ entries →
        ∃ k n, k ≠ [] ∧ nodes st !! (root ++ k) = Some n
               ∧ Path e = rel_path k ∧ valid_names k)
  ∧ (∀ k n, k ≠ [] → nodes st !! (root ++ k) = Some n → is_dir n = false →
            ∃ e, e ∈ entries ∧ Path e = rel_path k
                 ∧ CalculateCRC32 st (abs_path (root ++ k))
                   = inr (Checksum e)).
Proof.
  intros Hwf Hroot Habove Hdir Hgen.
  apply CreateCRC32Sums_entries in Hgen.
  apply run_sums in Hgen as (new & -> & HF). cbn [app].
  rewrite (visits_abs st root (Dir md)) in HF by done.
  set (L := listing _ _ _ _ _) in HF.
  assert (nodes st !! (root ++ []) = Some (Dir md)) as Hdir'
    by by rewrite app_nil_r.
  split.
  - intros e He. apply list_elem_of_lookup in He as [i Hi].
    destruct (Forall2_lookup_r _ _ _ _ _ HF Hi) as (v & Hv & [Hrec _] & _).
    apply list_elem_of_lookup_2 in Hv.
    apply list_elem_of_filter in Hv as [Hfile Hv].
    apply list_elem_of_fmap in Hv as ([k n] & -> & Hin).
    destruct (listing_lookup _ _ _ _ _ _ _ Hdir' Hin) as [Hk _].
    destruct k as [|x k].
    { rewrite Hdir' in Hk. injection Hk as <-. done. }
    exists (x :: k), n. pose proof (wf_tree_names _ _ _ _ Hwf Hk) as Hval.
    repeat split; [done..| |done].
    unfold visit_of in Hrec. cbn [Walker.v_path fst] in Hrec.
    rewrite Rel_abs_path in Hrec by done. congruence.
  - intros k n Hne Hk Hn.
    assert ((k, n) ∈ L) as Hin.
    { apply (listing_complete _ _ root [] k (Dir md) n Hwf Hdir' Hk).
      apply max_depth_bound in Hk. rewrite length_app in Hk. lia. }
    assert (visit_of root (k, n)
            ∈ filter is_file_visit (map (visit_of root) L)) as Hv.
    { apply list_elem_of_filter. split.
      - unfold is_file_visit, visit_of. cbn. by rewrite Hn.
      - apply list_elem_of_fmap. by exists (k, n). }
    apply list_elem_of_lookup in Hv as [i Hi].
    destruct (Forall2_lookup_l _ _ _ _ _ HF Hi) as (e & He & Hrec & Hcrc).
    exists e. split; [by eapply list_elem_of_lookup_2|].
    destruct Hrec as [Hrel _].
    unfold visit_of in Hrel, Hcrc. cbn [Walker.v_path fst] in Hrel, Hcrc.
    pose proof (wf_tree_names _ _ _ _ Hwf Hk) as Hval.
    rewrite Rel_abs_path in Hrel by done. split; [congruence|done].
Qed.

End ManifestInside.



(** X13: [CreateCRC32Sums] writes the manifest after the walk, so a
    manifest that lies in the directory it lists is not among the
    entries of the first run, and is among the entries of the next run,
    with the digest of the manifest the first run wrote: a second run
    with the same arguments does not give the same manifest. *)
Theorem CreateCRC32Sums_twice (st st1 st2 : Os.state) (root : Os.loc)
    (name : string) (md : Z) (es1 es2 : list Checksum.Entry)
    (Hwf : wf_tree (Os.nodes st))
    (Hroot : valid_names root)
    (Habove : dirs_above (Os.nodes st) root)
    (Hdir : Os.nodes st !! root = Some (Os.Dir md))
    (Hname : valid_name name = true)
    (Hfresh : Os.nodes st !! (root ++ [name]) = None)
    (Hgen1 : Checksum.CreateCRC32Sums st (abs_path root)
               (abs_path (root ++ [name])) = (inr es1, st1))
    (Hgen2 : Checksum.CreateCRC32Sums st1 (abs_path root)
               (abs_path (root ++ [name])) = (inr es2, st2)) :
  (∀ e, e ∈ es1 → Checksum.Path e ≠ name)
  ∧ Checksum.mkEntry
      (Checksum.CalculateCRC32Bytes (bytes (Checksum.manifest es1))) name
    ∈ es2.
Proof.
  assert (valid_names (root ++ [name])) as Hout.
  { apply Forall_app. split; [done|]. by rewrite Forall_singleton. }
  assert (dirs_above (Os.nodes st) (root ++ [name])) as Houtabove
    by by eapply dirs_above_snoc.
  destruct (CreateCRC32Sums_fresh st st1 _ _ es1 Hout Houtabove Hfresh Hgen1)
    as [_ Hst1].
  split.
  - intros e He Hpath.
    destruct (entries_of_listing st st1 root md _ es1
                Hwf Hroot Habove Hdir Hgen1) as [Hsound _].
    destruct (Hsound e He) as (k & n & Hne & Hk & Hrel & Hval).
    assert (k = [name]) as ->.
    { apply rel_path_inj; [done..|by repeat constructor|done|].
      change (rel_path [name]) with name. congruence. }
    congruence.
  - assert (Os.nodes st1
            = <[root ++ [name]
                := Os.File (Os.masked st (Os.syscallMode 0x1b6))
                     (bytes (Checksum.manifest es1))]> (Os.nodes st)) as Hn1
      by by rewrite Hst1.
    assert (wf_tree (Os.nodes st1)) as Hwf1
      by (rewrite Hn1; by eapply wf_tree_insert_file).
    assert (dirs_above (Os.nodes st1) root) as Habove1
      by (rewrite Hn1; by apply dirs_above_insert).
    assert (Os.nodes st1 !! root = Some (Os.Dir md)) as Hdir1.
    { rewrite Hn1, lookup_insert_ne; [done|]. congruence. }
    assert (Os.nodes st1 !! (root ++ [name])
            = Some (Os.File (Os.masked st (Os.syscallMode 0x1b6))
                      (bytes (Checksum.manifest es1)))) as Hman
      by by rewrite Hn1, lookup_insert_eq.
    destruct (entries_of_listing st1 st2 root md _ es2
                Hwf1 Hroot Habove1 Hdir1 Hgen2) as [_ Hcomplete].
    destruct (Hcomplete [name] _ ltac:(done) Hman eq_refl)
      as (e & He & Hpath & Hcrc).
    rewrite (CalculateCRC32_file st1 _ (Os.masked st (Os.syscallMode 0x1b6))
               (bytes (Checksum.manifest es1))) in Hcrc.
    + destruct e as [c p]. cbn in *. by simplify_eq.
    + rewrite Stat_abs, Hman; [done..| |].
      * by eapply dirs_above_snoc.
      * intros t. by rewrite Hman.
Qed.

Lemma CreateCRC32Sums_twice_witness :
  (∀ e, e ∈ [Checksum.mkEntry 0x4ddb0c25 "f"] → Checksum.Path e ≠ "m")
  ∧ Checksum.mkEntry
      (Checksum.CalculateCRC32Bytes
         (bytes (Checksum.manifest [Checksum.mkEntry 0x4ddb0c25 "f"]))) "m"
    ∈ [Checksum.mkEntry 0x4ddb0c25 "f"; Checksum.mkEntry 0x72837b32 "m"].
Proof.
  apply (CreateCRC32Sums_twice ex_plumless
           (snd (Checksum.CreateCRC32Sums ex_plumless "/d" "/d/m"))
           (snd (Checksum.CreateCRC32Sums
                   (snd (Checksum.CreateCRC32Sums ex_plumless "/d" "/d/m"))
                   "/d" "/d/m"))
           ["d"] "m" 493).
  - apply wf_treeb_spec. vm_compute. reflexivity.
  - repeat constructor.
  - apply dirs_aboveb_spec. vm_compute. reflexivity.
  - vm_compute. reflexivity.
  - reflexivity.
  - vm_compute. reflexivity.
  - vm_compute. reflexivity.
  - vm_compute. reflexivity.
Defined.

(** ** Scanning the checksum field *)

Section ScanField.

Import Fmt.

Lemma digit_val_of (c : ascii) : digit_val c = digit_of c.
Proof. by destruct c as [[|] [|] [|] [|] [|] [|] [|] [|]]. Qed.

Lemma accepted_number_byte (c : ascii) : accepted c = number_byte c.
Proof. unfold accepted, number_byte. by rewrite digit_val_of. Qed.

Lemma parse_hex_number (acc : Z) (tok : string) :
  parse_hex acc tok = number acc tok.
Proof.
  revert acc. induction tok as [|c tok IH]; intros acc; [done|].
  simpl. rewrite digit_val_of. by destruct (digit_of c).
Qed.

Lemma token_run (tok rest : string) :
  Forall (fun c => number_byte c = true) (String.list_ascii_of_string tok) →
  no_number_byte_first rest →
  token (tok +:+ rest) = tok.
Proof.
  intros Ht Hr. induction tok as [|c tok IH].
  - destruct rest as [|c r]; [done|]. simpl in *.
    by rewrite accepted_number_byte, Hr.
  - cbn [String.list_ascii_of_string] in Ht.
    apply Forall_cons in Ht as [Hc Ht].
    rewrite str_app_cons. simpl. by rewrite accepted_number_byte, Hc, IH.
Qed.

Lemma space_len_none (s : string) : no_space_first s → space_len s = None.
Proof.
  intros H. unfold space_len. rewrite filter_none; [done|].
  intros w Hw. unfold no_space_first in H. rewrite Forall_forall in H.
  by rewrite (H w Hw).
Qed.

Lemma space_len_space (w s : string) :
  w ∈ spaces → space_len (w +:+ s) = Some (String.length w).
Proof.
  intros Hw. vm_compute in Hw.
  repeat (apply elem_of_cons in Hw as [->|Hw]);
    [by destruct s..|by apply elem_of_nil in Hw].
Qed.

Lemma skip_app (w s : string) : GoStrings.skip (String.length w) (w +:+ s) = s.
Proof. induction w as [|c w IH]; [done|]. by rewrite str_app_cons. Qed.

Lemma concat_nil_cons (w : string) (ws : list string) :
  String.concat "" (w :: ws) = w +:+ String.concat "" ws.
Proof. destruct ws; [by rewrite str_app_nil_r|done]. Qed.

Lemma SkipSpace_spaces (ws : list string) (s : string) (fuel : nat) :
  Forall (fun w => w ∈ spaces) ws → no_space_first s →
  (length ws ≤ fuel)%nat →
  SkipSpace fuel (String.concat "" ws +:+ s) = s.
Proof.
  intros Hws Hs. revert fuel.
  induction ws as [|w ws IH]; intros fuel Hf.
  - change (String.concat "" [] +:+ s) with s.
    destruct fuel; [done|]. simpl. by rewrite space_len_none.
  - apply Forall_cons in Hws as [Hw Hws].
    destruct fuel as [|fuel]; [simpl in Hf; lia|].
    rewrite concat_nil_cons, str_app_assoc. cbn [SkipSpace].
    rewrite space_len_space, skip_app by done.
    apply IH; [done|]. simpl in Hf. lia.
Qed.

Lemma spaces_length (ws : list string) :
  Forall (fun w => w ∈ spaces) ws →
  (length ws ≤ String.length (String.concat "" ws))%nat.
Proof.
  induction ws as [|w ws IH]; intros Hws; [simpl; lia|].
  apply Forall_cons in Hws as [Hw Hws].
  rewrite concat_nil_cons, str_length_app. specialize (IH Hws).
  assert (1 ≤ String.length w)%nat; [|simpl; lia].
  vm_compute in Hw.
  repeat (apply elem_of_cons in Hw as [->|Hw]);
    [simpl; lia..|by apply elem_of_nil in Hw].
Qed.

(** [Sscanf] with [%x] on a field: the space before the number is
    skipped, the run of number bytes is converted, what follows it is not
    looked at. *)
Lemma Sscanf_x_field (ws : list string) (tok rest : string) :
  Forall (fun w => w ∈ spaces) ws →
  Forall (fun c => number_byte c = true) (String.list_ascii_of_string tok) →
  no_space_first (tok +:+ rest) → no_number_byte_first rest →
  Sscanf_x (String.concat "" ws +:+ tok +:+ rest) = field_value tok.
Proof.
  intros Hws Htok Hsp Hrest. unfold Sscanf_x, field_value.
  rewrite SkipSpace_spaces; [|done..|].
  - rewrite token_run by done. by rewrite parse_hex_number.
  - rewrite str_length_app. pose proof (spaces_length ws Hws). lia.
Qed.

Lemma cut_none (s sep : string) :
  GoStrings.Contains s sep = false → GoStrings.cut s sep = None.
Proof.
  induction s as [|c s IH]; intros H; rewrite Contains_unfold in H;
    cbn [GoStrings.cut].
  - by destruct (String.prefix sep "").
  - destruct (String.prefix sep (String c s)); [done|]. by rewrite IH.
Qed.

Lemma text_of_lines_cons (l : string) (ls : list string) :
  text_of_lines (l :: ls) = l +:+ String "010" (text_of_lines ls).
Proof.
  unfold text_of_lines. cbn [map]. rewrite concat_nil_cons.
  by rewrite str_app_assoc.
Qed.

Lemma scan_text (ls : list string) (fuel : nat) :
  Forall scannable ls → (length ls < fuel)%nat →
  Bufio.scan fuel (text_of_lines ls) = (map Bufio.dropCR ls, None).
Proof.
  revert fuel. induction ls as [|l ls IH]; intros fuel Hs Hf.
  - destruct fuel; [lia|]. done.
  - destruct fuel as [|fuel]; [lia|].
    apply Forall_cons in Hs as [[H1 H2] Hs].
    rewrite text_of_lines_cons. cbn [Bufio.scan].
    rewrite next_line_app, H2 by done.
    rewrite IH; [done|done|]. simpl in Hf. lia.
Qed.

Lemma text_length (ls : list string) :
  (length ls ≤ String.length (text_of_lines ls))%nat.
Proof.
  induction ls as [|l ls IH]; [done|].
  rewrite text_of_lines_cons, str_length_app. simpl. lia.
Qed.

Lemma lines_text (ls : list string) :
  Forall scannable ls →
  Bufio.lines (text_of_lines ls) = (map Bufio.dropCR ls, None).
Proof.
  intros Hs. apply scan_text; [done|]. pose proof (text_length ls). lia.
Qed.

End ScanField.
Section FieldShape.

Import Fmt.

Lemma prefix_split (p s : string) :
  String.prefix p s = true → ∃ r, s = p +:+ r.
Proof.
  revert s. induction p as [|c p IH]; intros s H.
  - by exists s.
  - destruct s as [|c' s]; [done|]. rewrite prefix_cons_cons in H.
    destruct (ascii_dec c c') as [<-|]; [|done].
    destruct (IH s H) as [r ->]. by exists r.
Qed.

Lemma leading_space (fuel : nat) (s : string) :
  (String.length s ≤ fuel)%nat →
  ∃ ws s', Forall (fun w => w ∈ spaces) ws ∧ no_space_first s'
           ∧ s = String.concat "" ws +:+ s'.
Proof.
  revert s. induction fuel as [|fuel IH]; intros s Hlen.
  - destruct s; [|simpl in Hlen; lia].
    exists [], "". split; [done|]. split; [|done].
    unfold no_space_first. apply Forall_forall. intros w Hw.
    vm_compute in Hw.
    repeat (apply elem_of_cons in Hw as [->|Hw]);
      [done..|by apply elem_of_nil in Hw].
  - destruct (filter (fun sp => String.prefix sp s = true) spaces)
      as [|sp l] eqn:E.
    + exists [], s. split; [done|]. split; [|done].
      unfold no_space_first. apply Forall_forall. intros w Hw.
      destruct (String.prefix w s) eqn:Ew; [|done].
      assert (w ∈ filter (fun sp => String.prefix sp s = true) spaces) as Hin
        by by apply list_elem_of_filter.
      rewrite E in Hin. by apply elem_of_nil in Hin.
    + assert (sp ∈ filter (fun sp => String.prefix sp s = true) spaces)
        as Hin by (rewrite E; left).
      apply list_elem_of_filter in Hin as [Hp Hsp].
      destruct (prefix_split _ _ Hp) as [r ->].
      pose proof (spaces_length [sp]) as Hl.
      rewrite Forall_singleton in Hl. specialize (Hl Hsp).
      cbn [String.concat length] in Hl.
      rewrite str_length_app in Hlen.
      destruct (IH r) as (ws & s' & Hws & Hs' & ->); [lia|].
      exists (sp :: ws), s'. split; [by constructor|]. split; [done|].
      by rewrite concat_nil_cons, str_app_assoc.
Qed.

Lemma token_split (s : string) :
  ∃ rest, s = token s +:+ rest ∧ no_number_byte_first rest
          ∧ Forall (fun c => number_byte c = true)
              (String.list_ascii_of_string (token s)).
Proof.
  induction s as [|c s (rest & IH1 & IH2 & IH3)].
  - by exists "".
  - simpl. destruct (accepted c) eqn:Ec.
    + exists rest. rewrite str_app_cons, <- IH1. split; [done|].
      split; [done|]. cbn [String.list_ascii_of_string]. constructor; [|done].
      by rewrite <- accepted_number_byte.
    + exists (String c s). split; [done|]. split; [|done].
      simpl. by rewrite <- accepted_number_byte.
Qed.

(** Every field is some space runes, a run of number bytes, and a rest
    that starts with neither. *)
Lemma field_shape (p0 : string) :
  ∃ ws tok rest,
    Forall (fun w => w ∈ spaces) ws
    ∧ Forall (fun c => number_byte c = true) (String.list_ascii_of_string tok)
    ∧ no_space_first (tok +:+ rest) ∧ no_number_byte_first rest
    ∧ p0 = String.concat "" ws +:+ tok +:+ rest.
Proof.
  destruct (leading_space (String.length p0) p0) as (ws & s' & Hws & Hs' & ->);
    [done|].
  destruct (token_split s') as (rest & E & Hrest & Htok).
  exists ws, (token s'), rest. rewrite <- E. done.
Qed.

End FieldShape.

(** C6, amended: a manifest line with the two-space separator is
    classified by the checksum field before the separator, read as
    [Sscanf] with [%x] reads it: space runes at its start are skipped, the
    run of hexadecimal digits and underscores that follows is the number,
    and what stands after the run is not looked at.  If the run is empty,
    holds an underscore, or denotes 2^32 or more, the line's path goes to
    failed; otherwise it goes to passed when the file below the base
    directory has the digest the run denotes, and to failed when the
    digest differs or the file cannot be read.  Every field has this
    shape.  A line without the separator is skipped.  The error
    [VerifyCRC32Sums] returns is the scanner's alone: for a manifest whose
    lines are shorter than 64 KiB it is nil, whatever the two lists
    hold. *)
Theorem C6_verify_classifies (st : Os.state) (baseDir line p1 : string)
    (ws : list string) (tok rest : string) (passed failed : list string)
    (Hws : Forall (fun w => w ∈ Fmt.spaces) ws)
    (Htok : Forall (fun c => number_byte c = true)
              (String.list_ascii_of_string tok))
    (Hsp : no_space_first (tok +:+ rest))
    (Hrest : no_number_byte_first rest)
    (Hsplit : GoStrings.SplitN2 line "  "
              = [String.concat "" ws +:+ tok +:+ rest; p1]) :
  Checksum.verify_line st baseDir (passed, failed) line
  = match field_value tok,
          Checksum.CalculateCRC32 st (Filepath.Join [baseDir; p1]) with
    | Some v, inr c =>
        if Z.eqb c v then (passed ++ [p1], failed)
        else (passed, failed ++ [p1])
    | _, _ => (passed, failed ++ [p1])
    end
  ∧ (∀ p0, ∃ ws' tok' rest',
       Forall (fun w => w ∈ Fmt.spaces) ws'
       ∧ Forall (fun c => number_byte c = true)
           (String.list_ascii_of_string tok')
       ∧ no_space_first (tok' +:+ rest') ∧ no_number_byte_first rest'
       ∧ p0 = String.concat "" ws' +:+ tok' +:+ rest')
  ∧ (∀ other, GoStrings.Contains other "  " = false →
              Checksum.verify_line st baseDir (passed, failed) other
              = (passed, failed))
  ∧ (∀ sumsFile m data,
       Os.Stat st sumsFile = inr (Os.File m data) →
       (snd (Checksum.VerifyCRC32Sums st sumsFile baseDir) = None
        ↔ snd (Bufio.lines (String.string_of_list_byte data)) = None))
  ∧ (∀ sumsFile m ls,
       Forall scannable ls →
       Os.Stat st sumsFile = inr (Os.File m (bytes (text_of_lines ls))) →
       Checksum.VerifyCRC32Sums st sumsFile baseDir
       = (fst (fold_left (Checksum.verify_line st baseDir)
                 (map Bufio.dropCR ls) ([], [])),
          snd (fold_left (Checksum.verify_line st baseDir)
                 (map Bufio.dropCR ls) ([], [])),
          None)).
Proof.
  split; [|split; [|split; [|split]]].
  - unfold Checksum.verify_line.
    destruct (String.eqb line "") eqn:El.
    { apply String.eqb_eq in El. by subst line. }
    rewrite Hsplit, Sscanf_x_field by done.
    destruct (field_value tok) as [v|]; [|done].
    by destruct (Checksum.CalculateCRC32 _ _).
  - apply field_shape.
  - intros other Hc. unfold Checksum.verify_line, GoStrings.SplitN2.
    rewrite cut_none by done. by destruct (String.eqb other "").
  - intros sumsFile m data HS. unfold Checksum.VerifyCRC32Sums.
    rewrite HS. destruct (Bufio.lines _) as [ls [[]|]].
    + by destruct (fold_left _ _ _).
    + by destruct (fold_left _ _ _).
  - intros sumsFile m ls Hls HS. unfold Checksum.VerifyCRC32Sums.
    rewrite HS. unfold bytes.
    rewrite String.string_of_list_byte_of_string, lines_text by done.
    by destruct (fold_left _ _ _).
Qed.
Lemma C6_verify_classifies_witness :
  Checksum.verify_line ex_lines "/d" ([], []) " 3610A686zz  hello.txt"
  = (["hello.txt"], [])
  ∧ Checksum.verify_line ex_lines "/d" ([], []) "3610_a686  hello.txt"
    = ([], ["hello.txt"])
  ∧ Checksum.verify_line ex_lines "/d" ([], []) "13610a686  hello.txt"
    = ([], ["hello.txt"])
  ∧ Checksum.verify_line ex_lines "/d" ([], []) "zz  hello.txt"
    = ([], ["hello.txt"])
  ∧ Checksum.verify_line ex_lines "/d" ([], []) "3610a687  hello.txt"
    = ([], ["hello.txt"])
  ∧ Checksum.verify_line ex_lines "/d" ([], []) "3610a686  gone.txt"
    = ([], ["gone.txt"])
  ∧ Checksum.verify_line ex_lines "/d" ([], []) "no separator here"
    = ([], [])
  ∧ Checksum.VerifyCRC32Sums ex_lines "/m" "/d"
    = (["hello.txt"], ["gone.txt"], None).
Proof.
  pose proof (fun line p1 ws tok rest =>
                C6_verify_classifies ex_lines "/d" line p1 ws tok rest [] [])
    as H.
  assert (∀ s : string, s ∈ Fmt.spaces ↔ In s Fmt.spaces) as Hin
    by (intros s; apply list_elem_of_In).
  split; [|split; [|split; [|split; [|split; [|split; [|split]]]]]].
  - destruct (H " 3610A686zz  hello.txt" "hello.txt" [" "] "3610A686" "zz")
      as [E _]; [| | | |reflexivity|by rewrite E].
    + constructor; [|constructor]. apply Hin. vm_compute. tauto.
    + by repeat constructor.
    + unfold no_space_first. vm_compute. by repeat constructor.
    + reflexivity.
  - destruct (H "3610_a686  hello.txt" "hello.txt" [] "3610_a686" "")
      as [E _]; [| | | |reflexivity|by rewrite E].
    + constructor.
    + by repeat constructor.
    + unfold no_space_first. vm_compute. by repeat constructor.
    + reflexivity.
  - destruct (H "13610a686  hello.txt" "hello.txt" [] "13610a686" "")
      as [E _]; [| | | |reflexivity|by rewrite E].
    + constructor.
    + by repeat constructor.
    + unfold no_space_first. vm_compute. by repeat constructor.
    + reflexivity.
  - destruct (H "zz  hello.txt" "hello.txt" [] "" "zz")
      as [E _]; [| | | |reflexivity|by rewrite E].
    + constructor.
    + by repeat constructor.
    + unfold no_space_first. vm_compute. by repeat constructor.
    + reflexivity.
  - destruct (H "3610a687  hello.txt" "hello.txt" [] "3610a687" "")
      as [E _]; [| | | |reflexivity|by rewrite E].
    + constructor.
    + by repeat constructor.
    + unfold no_space_first. vm_compute. by repeat constructor.
    + reflexivity.
  - destruct (H "3610a686  gone.txt" "gone.txt" [] "3610a686" "")
      as [E _]; [| | | |reflexivity|by rewrite E].
    + constructor.
    + by repeat constructor.
    + unfold no_space_first. vm_compute. by repeat constructor.
    + reflexivity.
  - destruct (H "zz  hello.txt" "hello.txt" [] "" "zz")
      as (_ & _ & E & _); [| | | |reflexivity|by apply E].
    + constructor.
    + by repeat constructor.
    + unfold no_space_first. vm_compute. by repeat constructor.
    + reflexivity.
  - destruct (H "zz  hello.txt" "hello.txt" [] "" "zz")
      as (_ & _ & _ & _ & E); [| | | |reflexivity|].
    + constructor.
    + by repeat constructor.
    + unfold no_space_first. vm_compute. by repeat constructor.
    + reflexivity.
    + rewrite (E "/m" 420
                 ["3610a686  hello.txt"; "no separator here"; "";
                  "00000000  gone.txt"]).
      * by vm_compute.
      * by repeat constructor.
      * reflexivity.
Defined.

(** ** The lines of the manifest *)

Section ManifestLines.

Import Fmt Checksum.




End ManifestLines.




(** ** Paths as they are written: [Clean], [Join], [Rel], [Dir] *)

Section WrittenPaths.

Import Filepath.

Lemma valid_proper (n : string) : valid_name n = true → proper n.
Proof. rewrite valid_name_spec. unfold proper. tauto. Qed.

Lemma valid_names_proper (ns : list string) :
  valid_names ns → Forall proper ns.
Proof.
  intros H. eapply Forall_impl; [exact H|]. intros n. apply valid_proper.
Qed.

Lemma clean_step_proper (r : bool) (out : list string) (e : string) :
  proper e → clean_step r out e = out ++ [e].
Proof.
  intros (H1 & H2 & H3 & _). unfold clean_step. by rewrite !eqb_false.
Qed.

Lemma clean_fold_proper (r : bool) (ns out : list string) :
  Forall proper ns → fold_left (clean_step r) ns out = out ++ ns.
Proof.
  revert out. induction ns as [|n ns IH]; intros out Hv; simpl.
  - by rewrite app_nil_r.
  - apply Forall_cons in Hv as [Hn Hv].
    rewrite clean_step_proper, IH by done. by rewrite <- app_assoc.
Qed.

Lemma replicate_snoc {A} (k : nat) (x : A) :
  replicate k x ++ [x] = replicate (S k) x.
Proof. induction k as [|k IH]; [done|]. simpl. by rewrite IH. Qed.

Lemma last_replicate {A} (k : nat) (x : A) :
  last (replicate (S k) x) = Some x.
Proof. by rewrite <- replicate_snoc, last_snoc. Qed.

Lemma cleaned_nil (r : bool) : cleaned r [].
Proof. by exists 0%nat, []. Qed.

Lemma clean_step_cleaned (r : bool) (out : list string) (e : string) :
  cleaned r out → GoStrings.ContainsRune e "/" = false →
  cleaned r (clean_step r out e).
Proof.
  intros (k & rest & -> & Hk & Hrest) He. unfold clean_step.
  destruct (String.eqb_spec e ""); [by exists k, rest|].
  destruct (String.eqb_spec e "."); [by exists k, rest|].
  destruct (String.eqb_spec e "..") as [->|Hdd].
  - destruct rest as [|x rest _] using rev_ind.
    + rewrite app_nil_r. destruct k as [|k].
      * simpl. destruct r; [by exists 0%nat, []|].
        by exists 1%nat, [].
      * rewrite last_replicate. simpl String.eqb. cbv iota.
        rewrite replicate_snoc. exists (S (S k)), [].
        split; [by rewrite app_nil_r|]. split; [|done].
        intros Hr. by specialize (Hk Hr).
    + apply Forall_app in Hrest as [Hrest Hx].
      apply Forall_cons in Hx as [(_ & _ & Hx & _) _].
      rewrite app_assoc, last_snoc, eqb_false by done.
      rewrite removelast_last. by exists k, rest.
  - exists k, (rest ++ [e]). split; [by rewrite app_assoc|].
    split; [done|]. apply Forall_app. split; [done|].
    by apply Forall_singleton.
Qed.

Lemma clean_fold_cleaned (r : bool) (es out : list string) :
  cleaned r out →
  Forall (fun e => GoStrings.ContainsRune e "/" = false) es →
  cleaned r (fold_left (clean_step r) es out).
Proof.
  revert out. induction es as [|e es IH]; intros out Ho He; [done|].
  apply Forall_cons in He as [H1 H2]. simpl.
  apply IH; [|done]. by apply clean_step_cleaned.
Qed.

Lemma clean_of_cleaned (p : string) : cleaned (IsAbs p) (clean_of p).
Proof.
  apply clean_fold_cleaned; [apply cleaned_nil|apply elements_slashfree_all].
Qed.

Lemma cleaned_app (r : bool) (c ns : list string) :
  cleaned r c → Forall proper ns → cleaned r (c ++ ns).
Proof.
  intros (k & rest & -> & Hk & Hrest) Hns. exists k, (rest ++ ns).
  split; [by rewrite app_assoc|]. split; [done|]. by apply Forall_app.
Qed.

Lemma clean_fold_dots (j k : nat) :
  fold_left (clean_step false) (replicate k "..") (replicate j "..")
  = replicate (j + k) "..".
Proof.
  revert j. induction k as [|k IH]; intros j.
  - by rewrite Nat.add_0_r.
  - cbn [replicate fold_left].
    assert (clean_step false (replicate j "..") ".." = replicate (S j) "..")
      as ->.
    { unfold clean_step. simpl String.eqb. cbv iota.
      destruct j as [|j]; [done|].
      rewrite last_replicate. simpl String.eqb. cbv iota.
      apply replicate_snoc. }
    rewrite IH. f_equal. lia.
Qed.

(** A cleaned buffer comes out of [Clean]'s loop as it is. *)
Lemma clean_fold_idem (r : bool) (l : list string) :
  cleaned r l → fold_left (clean_step r) l [] = l.
Proof.
  intros (k & rest & -> & Hk & Hrest). rewrite fold_left_app.
  assert (fold_left (clean_step r) (replicate k "..") []
          = replicate k "..") as ->.
  { destruct r.
    - by rewrite Hk.
    - apply (clean_fold_dots 0 k). }
  by apply clean_fold_proper.
Qed.

Lemma proper_slashfree (e : string) :
  proper e → GoStrings.ContainsRune e "/" = false.
Proof. by intros (_ & _ & _ & H). Qed.

Lemma cleaned_slashfree (r : bool) (l : list string) :
  cleaned r l → Forall (fun e => GoStrings.ContainsRune e "/" = false) l.
Proof.
  intros (k & rest & -> & _ & Hrest). apply Forall_app. split.
  - apply Forall_replicate. done.
  - eapply Forall_impl; [done|]. apply proper_slashfree.
Qed.

Lemma cleaned_nonempty (r : bool) (l : list string) :
  cleaned r l → Forall (fun e => e ≠ "") l.
Proof.
  intros (k & rest & -> & _ & Hrest). apply Forall_app. split.
  - apply Forall_replicate. done.
  - eapply Forall_impl; [done|]. by intros e (H & _).
Qed.

Lemma elements_join (l : list string) :
  l ≠ [] → Forall (fun e => GoStrings.ContainsRune e "/" = false) l →
  elements (GoStrings.Join l "/") = l.
Proof.
  induction l as [|n ns IH]; [done|]. intros _ Hv.
  apply Forall_cons in Hv as [Hn Hv].
  destruct ns as [|n' ns].
  - simpl. by apply elements_slashfree.
  - change (GoStrings.Join (n :: n' :: ns) "/")
      with (rel_path (n :: n' :: ns)).
    rewrite rel_path_cons by done. rewrite elements_app_sep.
    unfold rel_path. rewrite IH by done.
    by rewrite elements_slashfree.
Qed.

(** The elements of a rendered buffer, as the loop of [Clean] and the
    kernel read them. *)
Lemma elements_render (r : bool) (l : list string) :
  cleaned r l →
  elements (render r l)
  = match r, l with
    | true, [] => [""; ""]
    | true, _ => "" :: l
    | false, [] => ["."]
    | false, _ => l
    end.
Proof.
  intros Hc. pose proof (cleaned_slashfree r l Hc) as Hs.
  destruct r, l as [|a l]; try done.
  - unfold render.
    change ("/" +:+ GoStrings.Join (a :: l) "/")
      with (String "/" (GoStrings.Join (a :: l) "/")).
    cbn [elements]. unfold IsPathSeparator. simpl Ascii.eqb. cbv iota.
    by rewrite elements_join.
  - unfold render. by rewrite elements_join.
Qed.

Lemma clean_elements_render (r : bool) (l more : list string) :
  cleaned r l →
  fold_left (clean_step r) (elements (render r l) ++ more) []
  = fold_left (clean_step r) more l.
Proof.
  intros Hc. rewrite fold_left_app, elements_render by done.
  f_equal. destruct r, l as [|a l]; try done.
  - change (fold_left (clean_step true) ("" :: a :: l) [])
      with (fold_left (clean_step true) (a :: l) []).
    by apply clean_fold_idem.
  - by apply clean_fold_idem.
Qed.

Lemma IsAbs_render (r : bool) (l : list string) :
  cleaned r l → IsAbs (render r l) = r.
Proof.
  intros Hc. destruct r; [apply IsAbs_slash|].
  destruct l as [|a l]; [done|].
  pose proof (cleaned_slashfree _ _ Hc) as Hs.
  pose proof (cleaned_nonempty _ _ Hc) as Hn.
  apply Forall_cons in Hs as [Hs _]. apply Forall_cons in Hn as [Hn _].
  unfold render. destruct (rel_path_first a l) as [s Hs'].
  unfold rel_path in Hs'. rewrite Hs'. by apply unrooted_slashfree.
Qed.

Lemma render_nonempty (r : bool) (l : list string) :
  cleaned r l → render r l ≠ "".
Proof.
  intros Hc. destruct r; [done|]. destruct l as [|a l]; [done|].
  pose proof (cleaned_nonempty _ _ Hc) as Hn.
  apply Forall_cons in Hn as [Hn _].
  unfold render. destruct (rel_path_first a l) as [s Hs'].
  unfold rel_path in Hs'. rewrite Hs'. by destruct a.
Qed.

Lemma clean_of_render (r : bool) (l : list string) :
  cleaned r l → clean_of (render r l) = l.
Proof.
  intros Hc. unfold clean_of, clean_elements. rewrite IsAbs_render by done.
  rewrite <- (app_nil_r (elements _)).
  by rewrite clean_elements_render.
Qed.

(** A rendered buffer is clean. *)
Lemma Clean_render (r : bool) (l : list string) :
  cleaned r l → Clean (render r l) = render r l.
Proof.
  intros Hc. unfold Clean. rewrite eqb_false by by apply render_nonempty.
  fold (clean_of (render r l)).
  by rewrite clean_of_render, IsAbs_render.
Qed.

Lemma Clean_below (p : string) : Clean p = below p [].
Proof.
  unfold Clean, below. rewrite app_nil_r.
  destruct (String.eqb_spec p ""); [by subst p|done].
Qed.

Lemma cleaned_below (p : string) (ns : list string) :
  valid_names ns → cleaned (IsAbs p) (clean_of p ++ ns).
Proof.
  intros Hns. apply cleaned_app; [apply clean_of_cleaned|].
  by apply valid_names_proper.
Qed.

Lemma IsAbs_below (p : string) (ns : list string) :
  valid_names ns → IsAbs (below p ns) = IsAbs p.
Proof. intros Hns. by apply IsAbs_render, cleaned_below. Qed.

Lemma clean_of_below (p : string) (ns : list string) :
  valid_names ns → clean_of (below p ns) = clean_of p ++ ns.
Proof. intros Hns. by apply clean_of_render, cleaned_below. Qed.

Lemma below_nonempty (p : string) (ns : list string) :
  valid_names ns → below p ns ≠ "".
Proof. intros Hns. by apply render_nonempty, cleaned_below. Qed.

Lemma below_below (p : string) (ns ms : list string) :
  valid_names ns → below (below p ns) ms = below p (ns ++ ms).
Proof.
  intros Hns. unfold below at 1.
  rewrite IsAbs_below, clean_of_below by done.
  by rewrite <- app_assoc.
Qed.

Lemma IsAbs_app_nonempty (p s : string) : p ≠ "" → IsAbs (p +:+ s) = IsAbs p.
Proof.
  intros H. destruct p as [|a p]; [done|].
  unfold IsAbs, GoStrings.HasPrefix. rewrite str_app_cons, !prefix_cons_cons.
  destruct (ascii_dec _ _); [by rewrite !prefix_nil|done].
Qed.

(** [Join] of a directory and a relative path of names. *)
Lemma Join_below (p : string) (ns : list string) :
  valid_names ns → ns ≠ [] → Join [p; rel_path ns] = below p ns.
Proof.
  intros Hns Hne. unfold Join.
  assert (Clean (rel_path ns) = below "" ns) as Hrel.
  { unfold Clean. rewrite eqb_false by by apply rel_path_nonempty.
    rewrite rel_path_not_abs by done. unfold below.
    rewrite elements_rel_path by done. unfold clean_elements.
    by rewrite clean_fold_valid. }
  destruct (String.eqb_spec p "") as [->|Hp].
  - rewrite eqb_false by by apply rel_path_nonempty.
    change (GoStrings.Join [rel_path ns] "/") with (rel_path ns).
    done.
  - change (GoStrings.Join [p; rel_path ns] "/")
      with (p +:+ "/" +:+ rel_path ns).
    unfold Clean. rewrite eqb_false by by destruct p.
    rewrite IsAbs_app_nonempty by done.
    rewrite elements_app_sep, elements_rel_path by done.
    unfold below, clean_of, clean_elements. rewrite fold_left_app.
    by rewrite clean_fold_valid.
Qed.

Lemma Join_below_name (p x : string) :
  valid_name x = true → Join [p; x] = below p [x].
Proof.
  intros Hx. apply (Join_below p [x]); [|done]. by apply Forall_singleton.
Qed.

(** [Join] of a path below a directory and one more name. *)
Lemma Join_below_snoc (p : string) (ns : list string) (x : string) :
  valid_names ns → valid_name x = true →
  Join [below p ns; x] = below p (ns ++ [x]).
Proof.
  intros Hns Hx. by rewrite Join_below_name, below_below.
Qed.

End WrittenPaths.
Section WrittenPaths2.

Import Filepath.

Lemma filter_nonempty (l : list string) :
  Forall (fun e => e ≠ "") l → filter (fun e : string => e ≠ "") l = l.
Proof.
  induction 1 as [|n l Hn Hv IH]; [done|].
  by rewrite filter_cons_True, IH.
Qed.

Lemma rel_elements_render (r : bool) (l : list string) :
  cleaned r l →
  rel_elements (render r l)
  = match r, l with false, [] => ["."] | _, _ => l end.
Proof.
  intros Hc. unfold rel_elements. rewrite elements_render by done.
  pose proof (filter_nonempty l (cleaned_nonempty r l Hc)) as Hf.
  by destruct r, l as [|a l].
Qed.

Lemma render_dot (r : bool) (l : list string) :
  cleaned r l → render r l = "." → r = false ∧ l = [].
Proof.
  intros Hc E. split.
  - rewrite <- (IsAbs_render r l Hc), E. done.
  - rewrite <- (clean_of_render r l Hc), E. done.
Qed.

(** What [Walk] hands to [Rel]: the root as it was given and a path
    below it. *)
Lemma Rel_below (p : string) (ns : list string) :
  valid_names ns → ns ≠ [] → Rel p (below p ns) = Some (rel_path ns).
Proof.
  intros Hns Hne. unfold Rel.
  pose proof (clean_of_cleaned p) as Hc.
  pose proof (cleaned_below p ns Hns) as Hcn.
  assert (Clean (below p ns) = below p ns) as -> by by apply Clean_render.
  rewrite (Clean_below p). cbv zeta.
  rewrite eqb_false; cycle 1.
  { intros E. apply (f_equal clean_of) in E.
    rewrite !clean_of_below in E by done.
    apply app_inv_head in E. by rewrite E in Hne. }
  assert (rel_elements (if String.eqb (below p []) "." then ""
                        else below p []) = clean_of p
          ∧ IsAbs (if String.eqb (below p []) "." then "" else below p [])
            = IsAbs p) as [Hb Ha].
  { unfold below. rewrite app_nil_r.
    destruct (String.eqb_spec (render (IsAbs p) (clean_of p)) ".") as [E|E].
    - destruct (render_dot _ _ Hc E) as [-> ->]. done.
    - rewrite IsAbs_render, rel_elements_render by done. split; [|done].
      destruct (IsAbs p), (clean_of p); done. }
  rewrite Ha, IsAbs_below, Bool.eqb_reflx by done. simpl negb. cbv iota.
  rewrite Hb. unfold below at 1. rewrite rel_elements_render by done.
  assert (match IsAbs p, clean_of p ++ ns with
          | false, [] => ["."]
          | _, _ => clean_of p ++ ns
          end = clean_of p ++ ns) as ->.
  { destruct (IsAbs p); [done|].
    destruct (clean_of p ++ ns) eqn:E; [|done].
    apply app_eq_nil in E as [_ ->]. done. }
  by rewrite strip_common_app.
Qed.








End WrittenPaths2.

(** ** Path resolution below a directory however it is named *)

Section Resolution.

Import Os.

Lemma namei_unfold (k : nat) (m : gmap loc node) (f : bool) (cur : loc)
    (todo : list string) :
  namei k m f cur todo
  = match components m f cur todo with
    | Found l => inr l
    | Fail e => inl e
    | Expand c t rest =>
        match k with
        | O => inl ELOOP
        | S k' =>
            namei k' m f (if Filepath.IsAbs t then [] else c)
              (Filepath.elements t ++ rest)
        end
    end.
Proof. by destruct k. Qed.

(** The kernel reads a rendered buffer as the list of its elements. *)
Lemma components_render (m : gmap loc node) (f : bool) (cur : loc)
    (r : bool) (l : list string) :
  cleaned r l →
  components m f cur (Filepath.elements (Filepath.render r l))
  = components m f cur l.
Proof.
  intros Hc. rewrite elements_render by done.
  by destruct r, l as [|a l].
Qed.

Lemma resolve_render (st : state) (f r : bool) (l : list string) :
  cleaned r l →
  resolve st f (Filepath.render r l)
  = namei MAXSYMLINKS (nodes st) f (if r then [] else cwd st) l.
Proof.
  intros Hc. unfold resolve.
  rewrite eqb_false by by apply render_nonempty.
  rewrite IsAbs_render by done.
  by rewrite !(namei_unfold MAXSYMLINKS), components_render.
Qed.

(** Resolution up to a directory, then on from it. *)
Lemma components_app_found (m : gmap loc node) (f : bool)
    (es1 es2 : list string) (cur R : loc) (md : Z) :
  components m true cur es1 = Found R → m !! R = Some (Dir md) →
  components m f cur (es1 ++ es2) = components m f R es2.
Proof.
  revert cur. induction es1 as [|x es1 IH]; intros cur H HR.
  - simpl in H. by injection H as ->.
  - cbn [components app] in *.
    destruct (String.eqb x ""); [by apply IH|].
    destruct (String.eqb x "."); [by apply IH|].
    destruct (String.eqb x ".."); [by apply IH|].
    destruct (m !! (cur ++ [x])) as [[md' d|md'|t]|] eqn:E.
    + destruct es1; [|done]. injection H as <-. congruence.
    + by apply IH.
    + rewrite andb_false_r in H. by destruct (String.eqb t "").
    + destruct es1; [|done]. injection H as <-. congruence.
Qed.

Lemma components_app_expand (m : gmap loc node) (f : bool)
    (es1 es2 : list string) (cur c : loc) (t : string) (rest : list string) :
  components m true cur es1 = Expand c t rest → es2 ≠ [] →
  components m f cur (es1 ++ es2) = Expand c t (rest ++ es2).
Proof.
  revert cur. induction es1 as [|x es1 IH]; intros cur H Hne; [done|].
  cbn [components app] in *.
  destruct (String.eqb x ""); [by apply IH|].
  destruct (String.eqb x "."); [by apply IH|].
  destruct (String.eqb x ".."); [by apply IH|].
  destruct (m !! (cur ++ [x])) as [[md' d|md'|t']|] eqn:E.
  - by destruct es1.
  - by apply IH.
  - rewrite andb_false_r in H.
    assert (is_nil (es1 ++ es2) = false) as ->.
    { destruct es1; [by destruct es2|done]. }
    simpl andb. cbv iota.
    destruct (String.eqb t' ""); [done|]. by injection H as -> -> ->.
  - by destruct es1.
Qed.

Lemma namei_app (k : nat) (m : gmap loc node) (f : bool)
    (es1 es2 : list string) (cur R : loc) (md : Z) :
  namei k m true cur es1 = inr R → m !! R = Some (Dir md) → es2 ≠ [] →
  ∃ k', namei k m f cur (es1 ++ es2) = namei k' m f R es2.
Proof.
  revert cur es1. induction k as [|k IH]; intros cur es1 H HR Hne;
    rewrite namei_unfold in H; rewrite (namei_unfold _ m f cur).
  - destruct (components m true cur es1) as [l|c t rest|e] eqn:E; [|done..].
    injection H as ->. exists 0%nat.
    rewrite (components_app_found m f es1 es2 cur R md) by done.
    by rewrite (namei_unfold 0).
  - destruct (components m true cur es1) as [l|c t rest|e] eqn:E; [| |done].
    + injection H as ->. exists (S k).
      rewrite (components_app_found m f es1 es2 cur R md) by done.
      by rewrite (namei_unfold (S k)).
    + rewrite (components_app_expand m f es1 es2 cur c t rest) by done.
      destruct (IH _ _ H HR Hne) as [k' Hk']. exists k'.
      by rewrite app_assoc.
Qed.

(** The paths [Join] builds below a directory lead to the objects of
    these names, when the cleaned path of the directory leads to it. *)
Lemma resolve_below (st : state) (f : bool) (p : string) (R : loc) (md : Z)
    (ns : list string) :
  resolve st true (Filepath.Clean p) = inr R →
  nodes st !! R = Some (Dir md) →
  valid_names ns → ns ≠ [] →
  (∀ q, q `prefix_of` ns → q ≠ [] → q ≠ ns →
        ∃ md', nodes st !! (R ++ q) = Some (Dir md')) →
  (f = false ∨ ∀ t, nodes st !! (R ++ ns) ≠ Some (Symlink t)) →
  resolve st f (below p ns) = inr (R ++ ns).
Proof.
  intros Hp HR Hns Hne Hd Hf.
  rewrite Clean_below in Hp. unfold below in *. rewrite app_nil_r in Hp.
  rewrite resolve_render in Hp by apply clean_of_cleaned.
  rewrite resolve_render by by apply cleaned_below.
  destruct (namei_app _ _ f _ ns _ _ _ Hp HR Hne) as [k' ->].
  rewrite namei_unfold. by rewrite components_plain.
Qed.

(** Whether a last link is followed makes no difference where there is
    none. *)
Lemma components_follow (m : gmap loc node) (cur : loc) (todo : list string) :
  match components m false cur todo with
  | Found l =>
      (∀ t, m !! l ≠ Some (Symlink t)) → components m true cur todo = Found l
  | r => components m true cur todo = r
  end.
Proof.
  revert cur. induction todo as [|x todo IH]; intros cur; [done|].
  cbn [components].
  destruct (String.eqb x ""); [apply IH|].
  destruct (String.eqb x "."); [apply IH|].
  destruct (String.eqb x ".."); [apply IH|].
  destruct (m !! (cur ++ [x])) as [[md' d|md'|t]|] eqn:E.
  - by destruct todo.
  - apply IH.
  - destruct todo as [|y todo].
    + simpl. intros H. by destruct (H t).
    + simpl. by destruct (String.eqb t "").
  - by destruct todo.
Qed.

Lemma namei_follow (k : nat) (m : gmap loc node) (cur : loc)
    (todo : list string) (l : loc) :
  namei k m false cur todo = inr l → (∀ t, m !! l ≠ Some (Symlink t)) →
  namei k m true cur todo = inr l.
Proof.
  revert cur todo. induction k as [|k IH]; intros cur todo H Hl;
    rewrite namei_unfold in H; rewrite namei_unfold;
    pose proof (components_follow m cur todo) as Hc;
    destruct (components m false cur todo) as [l'|c t rest|e]; try done;
    try (injection H as ->; by rewrite Hc).
  rewrite Hc. by apply IH.
Qed.

Lemma resolve_follow (st : state) (p : string) (l : loc) :
  resolve st false p = inr l → (∀ t, nodes st !! l ≠ Some (Symlink t)) →
  resolve st true p = inr l.
Proof.
  unfold resolve. destruct (String.eqb p ""); [done|]. apply namei_follow.
Qed.




(** Nor by new bytes in a file. *)
Lemma components_rewrite (m : gmap loc node) (O : loc) (md md' : Z)
    (d d' : list Byte.byte) (f : bool) (todo : list string) (cur : loc) :
  m !! O = Some (File md d) →
  components (<[O := File md' d']> m) f cur todo = components m f cur todo.
Proof.
  intros HO. revert cur. induction todo as [|x todo IH]; intros cur; [done|].
  cbn [components].
  destruct (String.eqb x ""); [apply IH|].
  destruct (String.eqb x "."); [apply IH|].
  destruct (String.eqb x ".."); [apply IH|].
  destruct (decide (cur ++ [x] = O)) as [<-|Hne].
  - by rewrite lookup_insert_eq, HO.
  - rewrite lookup_insert_ne by done.
    destruct (m !! (cur ++ [x])) as [[? ?|?|?]|]; try done; apply IH.
Qed.

Lemma namei_rewrite (k : nat) (m : gmap loc node) (O : loc) (md md' : Z)
    (d d' : list Byte.byte) (f : bool) (cur : loc) (todo : list string) :
  m !! O = Some (File md d) →
  namei k (<[O := File md' d']> m) f cur todo = namei k m f cur todo.
Proof.
  intros HO. revert cur todo. induction k as [|k IH]; intros cur todo;
    rewrite !(namei_unfold _ _ f cur), (components_rewrite m O md md' d d')
      by done;
    destruct (components m f cur todo); try done; apply IH.
Qed.

End Resolution.

(** ** [Walk] and [Create] from a directory however it is named *)

Section WalkAt.

Import Os Archive.

Lemma wf_dirs_above_all (m : gmap loc node) (l : loc) (n : node) :
  wf_tree m → m !! l = Some n → dirs_above m l.
Proof.
  intros Hwf Hl. apply (wf_dirs_above m [] l n); [done| |done].
  intros p Hp Hne. apply prefix_nil_inv in Hp. by subst p.
Qed.

(** The paths below [p] lead to the objects below the directory [R]
    that the cleaned [p] leads to. *)
Lemma resolve_object (st : state) (f : bool) (p : string) (R : loc)
    (md : Z) (ns : list string) (n : node) :
  wf_tree (nodes st) →
  resolve st true (Filepath.Clean p) = inr R →
  nodes st !! R = Some (Dir md) →
  nodes st !! (R ++ ns) = Some n → ns ≠ [] →
  f = false ∨ is_symlink n = false →
  resolve st f (below p ns) = inr (R ++ ns).
Proof.
  intros Hwf Hp HR Hn Hne Hf.
  apply (resolve_below st f p R md ns); [exact Hp|exact HR| |exact Hne| |].
  - by eapply wf_tree_names.
  - intros q [k ->] Hq Hqk. rewrite app_assoc in Hn.
    eapply wf_tree_dir_above; [done..|]. intros ->.
    by rewrite app_nil_r in Hqk.
  - destruct Hf as [->|Hf]; [by left|]. right. intros t. rewrite Hn.
    intros [= ->]. done.
Qed.

Lemma path_at_snoc (p : string) (ns : list string) (x : string) :
  path_at p (ns ++ [x]) = below p (ns ++ [x]).
Proof. by destruct ns. Qed.

Lemma Join_path_at (p : string) (ns : list string) (x : string) :
  valid_names ns → valid_name x = true →
  Filepath.Join [path_at p ns; x] = below p (ns ++ [x]).
Proof.
  intros Hns Hx. destruct ns as [|a ns].
  - by apply Join_below_name.
  - by apply Join_below_snoc.
Qed.

Lemma readDirNames_at (st : state) (p : string) (R : loc) (md md' : Z)
    (ns : list string) :
  wf_tree (nodes st) →
  resolve st true p = inr R →
  resolve st true (Filepath.Clean p) = inr R →
  nodes st !! R = Some (Dir md) →
  nodes st !! (R ++ ns) = Some (Dir md') →
  readDirNames st (path_at p ns)
  = inr (merge_sort String.leb (names_at (nodes st) (R ++ ns))).
Proof.
  intros Hwf Hp Hc HR Hn. unfold readDirNames.
  destruct ns as [|a ns].
  - cbn [path_at]. rewrite Hp. rewrite app_nil_r in *. by rewrite HR.
  - cbn [path_at].
    rewrite (resolve_object st true p R md (a :: ns) (Dir md') Hwf Hc HR Hn);
      [by rewrite Hn|done|by right].
Qed.

(** What [walk] visits is the listing. *)
Lemma walk_listing_at (depth : nat) (st : state) (p : string) (R : loc)
    (md : Z) (ns : list string) (n : node) :
  wf_tree (nodes st) →
  resolve st true p = inr R →
  resolve st true (Filepath.Clean p) = inr R →
  nodes st !! R = Some (Dir md) →
  nodes st !! (R ++ ns) = Some n →
  Walker.walk depth st (path_at p ns) n
  = map (visit_at p) (listing depth (nodes st) R ns n).
Proof.
  intros Hwf Hp Hc HR. revert ns n.
  induction depth as [|d IH]; intros ns n Hn.
  - destruct n as [m data|md'|t]; simpl; try done.
    by rewrite (readDirNames_at st p R md md').
  - destruct n as [m data|md'|t]; try done.
    cbn [Walker.walk listing is_dir negb map].
    rewrite (readDirNames_at st p R md md') by done.
    f_equal. apply flat_map_fmap_ext. intros x Hx.
    apply sorted_names_spec in Hx as [c Hc'].
    destruct (Hwf _ _ _ Hc') as [Hx _].
    rewrite Join_path_at; [|by eapply wf_tree_names|done].
    rewrite <- (app_assoc R ns [x]) in Hc'.
    unfold Lstat, stat_with.
    rewrite (resolve_object st false p R md (ns ++ [x]) c Hwf Hc HR Hc');
      [|by destruct ns|by left].
    rewrite Hc'. rewrite <- path_at_snoc. by apply IH.
Qed.

(** [Walk] from a directory. *)
Lemma visits_at (st : state) (p : string) (R : loc) (md : Z) :
  wf_tree (nodes st) →
  resolve st false p = inr R →
  resolve st true (Filepath.Clean p) = inr R →
  nodes st !! R = Some (Dir md) →
  Walker.visits st p
  = map (visit_at p)
      (listing (S (Walker.max_depth st)) (nodes st) R [] (Dir md)).
Proof.
  intros Hwf Hp Hc HR. unfold Walker.visits, Lstat, stat_with.
  rewrite Hp, HR.
  apply (walk_listing_at _ st p R md [] (Dir md) Hwf); [|exact Hc|exact HR|].
  - apply resolve_follow; [exact Hp|]. intros t. by rewrite HR.
  - by rewrite app_nil_r.
Qed.

(** The function of [Create] on an object below the root writes its
    record. *)
Lemma create_fn_visit_at (st : state) (p : string) (R : loc) (md : Z)
    (ns : list string) (n : node) (res : CreateResult)
    (out : list Tar.record) :
  wf_tree (nodes st) →
  resolve st true (Filepath.Clean p) = inr R →
  nodes st !! R = Some (Dir md) →
  nodes st !! (R ++ ns) = Some n → ns ≠ [] →
  ∃ res', create_fn st p (res, out) (visit_at p (ns, n))
          = ((res', out ++ [record_of (ns, n)]), None).
Proof.
  intros Hwf Hc HR Hn Hne. unfold create_fn, visit_at.
  cbn [Walker.v_err Walker.v_info Walker.v_path fst snd].
  assert (valid_names ns) as Hns by by eapply wf_tree_names.
  assert (path_at p ns = below p ns) as -> by by destruct ns.
  rewrite Rel_below by done.
  rewrite eqb_false by by apply rel_path_not_dot.
  unfold record_of. cbn [fst snd].
  destruct n as [m data|m|t]; cbn [is_symlink is_regular Tar.FileInfoHeader
    Tar.Typeflag Tar.Linkname Tar.Size Tar.Mode Tar.Name].
  - unfold ReadAll, Stat, stat_with.
    rewrite (resolve_object st true p R md ns (File m data) Hwf Hc HR Hn Hne);
      [|by right].
    rewrite Hn. by eexists.
  - by eexists.
  - unfold Readlink, Lstat, stat_with.
    rewrite (resolve_object st false p R md ns (Symlink t) Hwf Hc HR Hn Hne);
      [|by left].
    rewrite Hn. by eexists.
Qed.

Lemma run_create_listing_at (st : state) (p : string) (R : loc) (md : Z)
    (L : list (list string * node)) (res : CreateResult)
    (out : list Tar.record) :
  wf_tree (nodes st) →
  resolve st true (Filepath.Clean p) = inr R →
  nodes st !! R = Some (Dir md) →
  Forall (fun o => fst o ≠ [] ∧ nodes st !! (R ++ fst o) = Some (snd o)) L →
  ∃ res', Walker.run (create_fn st p) (map (visit_at p) L) (res, out)
          = ((res', out ++ map record_of L), None).
Proof.
  intros Hwf Hc HR. revert res out.
  induction L as [|[ns n] L IH]; intros res out HL.
  - exists res. by rewrite app_nil_r.
  - apply Forall_cons in HL as [(Hne & Hn) HL].
    cbn [fst snd] in *. cbn [map Walker.run].
    destruct (create_fn_visit_at st p R md ns n res out Hwf Hc HR Hn Hne)
      as [res1 ->].
    destruct (IH res1 (out ++ [record_of (ns, n)]) HL) as [res' ->].
    exists res'. by rewrite <- app_assoc.
Qed.

(** The walk of [Create] writes a record for each object below the
    source directory, in the order of the walk. *)
Lemma Walk_create_at (st : state) (p : string) (R : loc) (md : Z) :
  wf_tree (nodes st) →
  resolve st false p = inr R →
  resolve st true (Filepath.Clean p) = inr R →
  nodes st !! R = Some (Dir md) →
  ∃ res, Walker.Walk st p (create_fn st p) (mkCreateResult 0 0, [])
         = ((res, map record_of (below_root st R md)), None).
Proof.
  intros Hwf Hp Hc HR.
  destruct (below_root_spec st R md Hwf) as (HL & _);
    [by eapply wf_dirs_above_all|exact HR|].
  unfold Walker.Walk. rewrite (visits_at st p R md Hwf Hp Hc HR).
  assert (listing (S (Walker.max_depth st)) (nodes st) R [] (Dir md)
          = ([], Dir md) :: below_root st R md) as -> by done.
  cbn [map Walker.run].
  assert (create_fn st p (mkCreateResult 0 0, []) (visit_at p ([], Dir md))
          = ((mkCreateResult 0 0, []), None)) as ->.
  { unfold create_fn, visit_at.
    cbn [Walker.v_err Walker.v_info Walker.v_path fst snd path_at].
    by rewrite Rel_same. }
  destruct (run_create_listing_at st p R md (below_root st R md)
              (mkCreateResult 0 0) [] Hwf Hc HR) as [res ->].
  - eapply Forall_impl; [exact HL|]. by intros o (_ & ? & _ & ?).
  - by exists res.
Qed.

(** What [os.Create] does to the file system. *)
Lemma WriteFile_inv (st st0 : state) (path : string) (perm : Z)
    (data : list Byte.byte) :
  WriteFile st path perm data = inr st0 →
  ∃ A md, resolve st true path = inr A ∧ st0 = put st A (File md data)
          ∧ (nodes st !! A = None
             ∨ ∃ old, nodes st !! A = Some (File md old)).
Proof.
  unfold WriteFile. destruct (resolve st true path) as [e|A]; [done|].
  destruct (nodes st !! A) as [[m old|m|t]|] eqn:E; try done;
    intros [= <-]; eexists A, _; (split; [done|]); (split; [done|]).
  - right. by eexists.
  - by left.
Qed.

Lemma Create_at (st st0 : state) (a p : string) (R : loc) (md : Z) :
  WriteFile st a 0x1b6 [] = inr st0 →
  wf_tree (nodes st0) →
  resolve st0 false p = inr R →
  resolve st0 true (Filepath.Clean p) = inr R →
  nodes st0 !! R = Some (Dir md) →
  ∃ res, Create st a p = (map record_of (below_root st0 R md), inr res).
Proof.
  intros Ha Hwf Hp Hc HR. unfold Create. rewrite Ha.
  destruct (Walk_create_at st0 p R md Hwf Hp Hc HR) as [res ->].
  by exists res.
Qed.

End WalkAt.

(** ** [Extract] into a directory however it is named *)

Section ExtractAt.

Import Os Archive.








End ExtractAt.

(** ** The round trip *)




(** ** The counters of [Create] *)





(** ** Generating, then verifying, for a directory however it is named *)

Section SumsAt.

Import Os Checksum.




End SumsAt.



(** ** Extras on [Create], [ListContents] and a stream that breaks *)

(** X8: [Create] descends only into what [Lstat] calls a directory.
    When the archive file has been made and the source path names
    anything else, a regular file or a symbolic link, also one that
    leads to a directory, the walk visits that one object, whose
    relative path is [.], and [Create] returns without error an archive
    with no record and both counters zero. *)
Theorem Create_of_non_directory (st st0 : Os.state)
    (archivePath sourceDir : string) (n : Os.node)
    (Hmade : Os.WriteFile st archivePath 0x1b6 [] = inr st0)
    (Hlstat : Os.Lstat st0 sourceDir = inr n)
    (Hn : Os.is_dir n = false) :
  Archive.Create st archivePath sourceDir
  = ([], inr (Archive.mkCreateResult 0 0)).
Proof.
  unfold Archive.Create, Walker.Walk. rewrite Hmade.
  rewrite (visits_non_directory st0 sourceDir n Hlstat Hn).
  cbn [Walker.run]. unfold Archive.create_fn.
  cbn [Walker.v_err Walker.v_info Walker.v_path].
  rewrite Rel_same. by rewrite String.eqb_refl.
Qed.

Lemma Create_of_non_directory_witness :
  Archive.Create ex_linked "/out.tar.xz" "/link"
  = ([], inr (Archive.mkCreateResult 0 0)).
Proof.
  apply (Create_of_non_directory ex_linked
           (Os.put ex_linked ["out.tar.xz"] (Os.File 420 []))
           "/out.tar.xz" "/link" (Os.Symlink "src")).
  - vm_compute. reflexivity.
  - vm_compute. reflexivity.
  - reflexivity.
Defined.

(** X9: [ListContents] of the archive that [Create] writes.  The
    process is one that access rights do not stop, the tree is well
    formed, the source path leads to a directory both as written and
    cleaned, and the archive file lies outside that directory.  Then
    the list holds every object below the source directory exactly once,
    under its path relative to the source, a directory like a file
    without a slash at the end, and holds nothing else; the source
    directory itself is not listed. *)
Theorem ListContents_of_Create (src src0 : Os.state)
    (archivePath sourceDir : string) (R : Os.loc) (md : Z)
    (Hmade : Os.WriteFile src archivePath 0x1b6 [] = inr src0)
    (Houtside : ∀ A, Os.resolve src true archivePath = inr A →
                     ¬ R `prefix_of` A)
    (Hwf : wf_tree (Os.nodes src0))
    (Hsrc : Os.resolve src0 false sourceDir = inr R)
    (Hclean : Os.resolve src0 true (Filepath.Clean sourceDir) = inr R)
    (HRdir : Os.nodes src0 !! R = Some (Os.Dir md)) :
  ∃ names,
    Archive.ListContents
      (fst (Archive.Create src archivePath sourceDir), Tar.EOF)
    = inr names
    ∧ NoDup names
    ∧ (∀ k, valid_names k → k ≠ [] →
            rel_path k ∈ names ↔ is_Some (Os.nodes src !! (R ++ k)))
    ∧ (∀ name, name ∈ names →
               ∃ k, valid_names k ∧ k ≠ [] ∧ name = rel_path k
                    ∧ is_Some (Os.nodes src !! (R ++ k))).
Proof.
  assert (∀ k, Os.nodes src0 !! (R ++ k) = Os.nodes src !! (R ++ k))
    as Hsame.
  { destruct (WriteFile_inv _ _ _ _ _ Hmade) as (A & mdA & HA & -> & _).
    intros k. cbn [Os.put Os.nodes]. apply lookup_insert_ne.
    intros ->. apply (Houtside _ HA). by apply prefix_app_r. }
  destruct (below_root_spec src0 R md Hwf) as (HL & Hnd & _ & Hmem);
    [by eapply wf_dirs_above_all|exact HRdir|].
  destruct (Create_at src src0 archivePath sourceDir R md
              Hmade Hwf Hsrc Hclean HRdir) as [res ->].
  set (L := below_root src0 R md) in *. rewrite Forall_forall in HL.
  exists (map rel_path (map fst L)).
  assert (∀ name, name ∈ map rel_path (map fst L) →
                  ∃ k n, (k, n) ∈ L ∧ name = rel_path k) as Hnames.
  { intros name Hin.
    apply list_elem_of_fmap in Hin as (k & -> & Hin).
    apply list_elem_of_fmap in Hin as ([k' n] & -> & Hin). by exists k', n. }
  split; [|split; [|split]].
  - unfold Archive.ListContents. cbn [fst snd]. f_equal.
    rewrite !map_map. apply map_ext. intros o. apply record_of_name.
  - apply NoDup_fmap_2_strong; [|done].
    intros k1 k2 H1 H2.
    apply list_elem_of_fmap in H1 as ([k1' n1] & -> & H1).
    apply list_elem_of_fmap in H2 as ([k2' n2] & -> & H2).
    destruct (HL _ H1) as (? & ? & _), (HL _ H2) as (? & ? & _).
    by apply rel_path_inj.
  - intros k Hk Hne. rewrite <- Hsame. split.
    + intros Hin. destruct (Hnames _ Hin) as (k' & n & Hin' & Heq).
      destruct (HL _ Hin') as (Hk' & Hne' & _). cbn [fst] in *.
      apply rel_path_inj in Heq; [|done..]. subst k'.
      exists n. by apply Hmem.
    + intros [n Hn]. apply Hmem in Hn; [|done].
      apply list_elem_of_fmap. exists k. split; [done|].
      apply list_elem_of_fmap. by exists (k, n).
  - intros name Hin. destruct (Hnames _ Hin) as (k & n & Hin' & ->).
    destruct (HL _ Hin') as (Hk & Hne & _ & Hlook). cbn [fst snd] in *.
    exists k. rewrite <- Hsame. eauto.
Qed.

Lemma ListContents_of_Create_witness :
  ∃ names,
    Archive.ListContents
      (fst (Archive.Create ex_tree "/out.tar.xz" "./src/"), Tar.EOF)
    = inr names
    ∧ NoDup names
    ∧ (∀ k, valid_names k → k ≠ [] →
            rel_path k ∈ names
            ↔ is_Some (Os.nodes ex_tree !! (["src"] ++ k)))
    ∧ (∀ name, name ∈ names →
               ∃ k, valid_names k ∧ k ≠ [] ∧ name = rel_path k
                    ∧ is_Some (Os.nodes ex_tree !! (["src"] ++ k))).
Proof.
  apply (ListContents_of_Create ex_tree ex_tree_packing "/out.tar.xz"
           "./src/" ["src"] 493).
  - vm_compute. reflexivity.
  - intros A HA. vm_compute in HA. injection HA as <-.
    intros [k Hk]. discriminate Hk.
  - apply wf_treeb_spec. vm_compute. reflexivity.
  - vm_compute. reflexivity.
  - vm_compute. reflexivity.
  - vm_compute. reflexivity.
Defined.

(** X3: an archive whose stream cannot be read to its end is extracted
    as far as it can be read, and [Extract] returns an error: nothing is
    undone.  Take the records before the break to extract without error.
    When the reader fails where a header should stand, the file system,
    the counters and the warnings are those of the records before the
    break, and the error wraps the reader's as a header that could not
    be read.  When the reader fails inside the content of an entry, the
    entry is extracted with the bytes read so far; if that fails the
    error is the one of that step, and otherwise the error wraps the
    reader's, as a file that could not be written when the entry is a
    regular file that [Extract] copies, and as a header that could not
    be read when the entry is skipped or is of another kind. *)
Theorem Extract_broken_stream (rs : list Tar.record) (destDir : string)
    (st : Os.state) (p : Archive.progress) (header : Tar.Header)
    (got : list Byte.byte) (err : Os.error)
    (Hbefore : Archive.Extract (rs, Tar.EOF) destDir st = (p, None)) :
  Archive.Extract (rs, Tar.Broken err) destDir st
  = (p, Some (Os.Wrapped "failed to read tar header" err))
  ∧ Archive.Extract (rs, Tar.Cut header got err) destDir st
    = (fst (Archive.extract_step destDir p (header, got)),
       Some match snd (Archive.extract_step destDir p (header, got)) with
            | Some e => e
            | None =>
                Os.Wrapped (if Archive.copies destDir header
                            then "failed to write file"
                            else "failed to read tar header") err
            end)
  ∧ (∀ e, e ≠ Tar.EOF → snd (Archive.Extract (rs, e) destDir st) ≠ None).
Proof.
  unfold Archive.Extract in *. cbn [fst snd] in *.
  split; [|split].
  - destruct (extract_loop_broken destDir rs (Archive.mkProgress st 0 0 [])
                err) as [Hf Hs].
    rewrite Hbefore in Hf, Hs. cbn [fst snd] in Hf, Hs.
    specialize (Hs eq_refl).
    destruct (Archive.extract_loop destDir _ rs (Tar.Broken err)) as [p' e'].
    cbn [fst snd] in Hf, Hs. by subst.
  - revert Hbefore. generalize (Archive.mkProgress st 0 0 []).
    induction rs as [|r rs IH]; intros p0 Hb; cbn [Archive.extract_loop] in *.
    + injection Hb as ->. unfold Archive.extract_cut.
      by destruct (Archive.extract_step destDir p (header, got))
        as [p' [e|]].
    + destruct (Archive.extract_step destDir p0 r) as [p' [e|]]; [done|].
      by apply IH.
  - intros e He. by apply extract_loop_ending.
Qed.

Lemma Extract_broken_stream_witness :
  Archive.Extract ([], Tar.Broken (Os.Plain "unexpected EOF")) "/dst" ex_dest
  = (Archive.mkProgress ex_dest 0 0 [],
     Some (Os.Wrapped "failed to read tar header"
             (Os.Plain "unexpected EOF")))
  ∧ Archive.Extract
      ([], Tar.Cut (Tar.mkHeader Tar.TypeReg "f" "" 5 420) (bytes "he")
             (Os.Plain "unexpected EOF")) "/dst" ex_dest
    = (Archive.mkProgress (Os.put ex_dest ["dst"; "f"] (Os.File 420 (bytes "he")))
         5 1 [],
       Some (Os.Wrapped "failed to write file" (Os.Plain "unexpected EOF"))).
Proof.
  destruct (Extract_broken_stream [] "/dst" ex_dest
              (Archive.mkProgress ex_dest 0 0 [])
              (Tar.mkHeader Tar.TypeReg "f" "" 5 420) (bytes "he")
              (Os.Plain "unexpected EOF") eq_refl) as (H1 & H2 & _).
  split; [exact H1|].
  rewrite H2. vm_compute. reflexivity.
Defined.

(** ** Every line of a manifest is reported once *)

Section ScanLong.

Lemma next_line_prefix (long rest : string) :
  GoStrings.ContainsRune long "010" = false →
  Bufio.next_line (long +:+ rest)
  = (long +:+ fst (Bufio.next_line rest), snd (Bufio.next_line rest)).
Proof.
  induction long as [|c l IH]; intros H.
  - change (Bufio.next_line rest
            = ((Bufio.next_line rest).1, (Bufio.next_line rest).2)).
    by destruct (Bufio.next_line rest).
  - rewrite !str_app_cons. simpl in *.
    destruct (Ascii.eqb c "010"); [done|]. by rewrite IH.
Qed.

Lemma too_long_app (long more : string) :
  Bufio.too_long long = true → Bufio.too_long (long +:+ more) = true.
Proof.
  unfold Bufio.too_long. rewrite str_length_app.
  intros H%Z.leb_le. apply Z.leb_le. lia.
Qed.

Lemma scan_text_long (ls : list string) (long rest : string) (fuel : nat) :
  Forall scannable ls → (length ls < fuel)%nat →
  GoStrings.ContainsRune long "010" = false → Bufio.too_long long = true →
  Bufio.scan fuel (text_of_lines ls +:+ long +:+ rest)
  = (map Bufio.dropCR ls, Some Bufio.ErrTooLong).
Proof.
  intros Hs Hf Hn Hl. revert fuel Hf.
  induction Hs as [|l ls [H1 H2] Hs IH]; intros fuel Hf.
  - destruct fuel as [|fuel]; [simpl in Hf; lia|].
    assert (text_of_lines [] = "") as -> by done.
    cbn [Bufio.scan]. change ("" +:+ long +:+ rest) with (long +:+ rest).
    rewrite next_line_prefix by done.
    rewrite (too_long_app long _ Hl).
    by destruct (snd (Bufio.next_line rest)).
  - destruct fuel as [|fuel]; [simpl in Hf; lia|].
    rewrite text_of_lines_cons. cbn [Bufio.scan].
    rewrite str_app_assoc, str_app_cons.
    rewrite next_line_app, H2 by done.
    rewrite IH; [done|]. simpl in Hf. lia.
Qed.

Lemma lines_text_long (ls : list string) (long rest : string) :
  Forall scannable ls →
  GoStrings.ContainsRune long "010" = false → Bufio.too_long long = true →
  Bufio.lines (text_of_lines ls +:+ long +:+ rest)
  = (map Bufio.dropCR ls, Some Bufio.ErrTooLong).
Proof.
  intros Hs Hn Hl. apply scan_text_long; try done.
  pose proof (text_length ls). rewrite str_length_app. lia.
Qed.

End ScanLong.

(** X11: [VerifyCRC32Sums] on a manifest whose lines each end with a
    newline and are shorter than 64 KiB returns no error and reports
    every line that has the two fields exactly once, in [passed] or in
    [failed], under the path the line names, and reports nothing else:
    the two lists together are, up to order, the paths of these lines,
    and each list keeps them in the order of the manifest.  When such
    lines are followed by a line of 64 KiB or more, the scan ends there:
    the lines before it are reported in the same way, that line and all
    after it are reported nowhere, and the error says that the token is
    too long. *)
Theorem Verify_reports_each_line_once (st : Os.state) (baseDir : string)
    (ls : list string) (Hls : Forall scannable ls) :
  let paths := omap path_of_line (map Bufio.dropCR ls) in
  (∀ sumsFile m,
     Os.Stat st sumsFile = inr (Os.File m (bytes (text_of_lines ls))) →
     ∃ passed failed,
       Checksum.VerifyCRC32Sums st sumsFile baseDir = (passed, failed, None)
       ∧ passed ++ failed ≡ₚ paths
       ∧ passed `sublist_of` paths ∧ failed `sublist_of` paths)
  ∧ (∀ sumsFile m long rest,
       GoStrings.ContainsRune long "010" = false →
       Bufio.too_long long = true →
       Os.Stat st sumsFile
       = inr (Os.File m (bytes (text_of_lines ls +:+ long +:+ rest))) →
       ∃ passed failed,
         Checksum.VerifyCRC32Sums st sumsFile baseDir
         = (passed, failed, Some (Os.Plain "bufio.Scanner: token too long"))
         ∧ passed ++ failed ≡ₚ paths
         ∧ passed `sublist_of` paths ∧ failed `sublist_of` paths).
Proof.
  intros paths. subst paths.
  destruct (verify_lines_partition st baseDir (map Bufio.dropCR ls) [] [])
    as (x & y & Hfold & Hx & Hy & Hp).
  cbn [app] in Hfold. split.
  - intros sumsFile m HS. exists x, y. split; [|done].
    unfold Checksum.VerifyCRC32Sums. rewrite HS. unfold bytes.
    rewrite String.string_of_list_byte_of_string, lines_text by done.
    by rewrite Hfold.
  - intros sumsFile m long rest Hn Hl HS. exists x, y. split; [|done].
    unfold Checksum.VerifyCRC32Sums. rewrite HS. unfold bytes.
    rewrite String.string_of_list_byte_of_string, lines_text_long by done.
    by rewrite Hfold.
Qed.

Lemma Verify_reports_each_line_once_witness :
  ∃ passed failed,
    Checksum.VerifyCRC32Sums ex_lines "/m" "/d" = (passed, failed, None)
    ∧ passed ++ failed ≡ₚ ["hello.txt"; "gone.txt"]
    ∧ passed `sublist_of` ["hello.txt"; "gone.txt"]
    ∧ failed `sublist_of` ["hello.txt"; "gone.txt"].
Proof.
  assert (Forall scannable
            ["3610a686  hello.txt"; "no separator here"; "";
             "00000000  gone.txt"]) as Hls.
  { repeat constructor. }
  destruct (Verify_reports_each_line_once ex_lines "/d" _ Hls) as [H _].
  apply (H "/m" 420). vm_compute. reflexivity.
Defined.

(** ** Extraction over what is there already *)

(** X5: extraction, by a process that access rights do not stop, over a
    destination that holds the objects of the archive already changes
    nothing and prints nothing.  Where the destination has a regular
    file with the bytes of the entry, the file is written again and
    keeps the mode it has, not the mode of the header; a directory that
    exists is left as it is; and where the archive has a symbolic link
    with a target that is not empty and the destination has anything at
    all, the link is not made and no warning is printed.  The entries
    are counted all the same. *)
Theorem Extract_over_present (st : Os.state) (D : Os.loc)
    (L : list (list string * Os.node))
    (HD : valid_names D)
    (HL : Forall
            (fun o =>
               valid_names (fst o) ∧ fst o ≠ []
               ∧ Forall (fun n => GoStrings.Contains n ".." = false) (fst o)
               ∧ dirs_above (Os.nodes st) (D ++ fst o)
               ∧ present (Os.nodes st) D o
               ∧ link_named (snd o)
               ∧ Z.of_nat (length (snd (record_of o)))
                 <= Archive.MaxFileSize) L)
    (Htotal : content_bytes (map record_of L) <= Archive.MaxArchiveSize)
    (Hcount : Z.of_nat (length L) <= Archive.MaxFiles) :
  Archive.Extract (map record_of L, Tar.EOF) (abs_path D) st
  = (Archive.mkProgress st (content_bytes (map record_of L))
       (Z.of_nat (length L)) [], None).
Proof.
  unfold Archive.Extract. cbn [fst snd].
  rewrite extract_loop_present; cbn; try done; try lia.
Qed.

Lemma Extract_over_present_witness :
  Archive.Extract (map record_of ex_present_objects, Tar.EOF)
    (abs_path ["dst"]) ex_present
  = (Archive.mkProgress ex_present
       (content_bytes (map record_of ex_present_objects))
       (Z.of_nat (length ex_present_objects)) [], None).
Proof.
  apply (Extract_over_present ex_present ["dst"] ex_present_objects).
  - repeat constructor.
  - constructor; [|constructor; [|constructor; [|constructor]]];
      (split; [repeat constructor|]; split; [done|];
       split; [repeat constructor|];
       split; [apply dirs_aboveb_spec; vm_compute; reflexivity|];
       split; [|split; [done|vm_compute; discriminate]]).
    + exists 384. vm_compute. reflexivity.
    + exists 448. vm_compute. reflexivity.
    + eexists. vm_compute. reflexivity.
  - vm_compute. discriminate.
  - vm_compute. discriminate.
Defined.

(** ** Extracting an archive twice *)

(** X16: extracting the same archive a second time changes nothing.
    The process is one that access rights do not stop.  Under the
    conditions of the round trip (a well-formed source tree without two
    dots next to each other in a name and without a symbolic link of
    empty target, within the three ceilings, the archive made outside
    the source directory, and an empty destination directory), the
    archive [Create] writes is extracted without error, and extracting
    it once more into the same destination returns without error and
    without a warning and leaves the file system as the first extraction
    left it. *)
Theorem Extract_twice (src src0 dst : Os.state)
    (archivePath sourceDir : string) (R D : Os.loc) (md mdd : Z)
    (Hmade : Os.WriteFile src archivePath 0x1b6 [] = inr src0)
    (Houtside : ∀ A, Os.resolve src true archivePath = inr A →
                     ¬ R `prefix_of` A)
    (Hwf : wf_tree (Os.nodes src0))
    (Hsrc : Os.resolve src0 false sourceDir = inr R)
    (Hclean : Os.resolve src0 true (Filepath.Clean sourceDir) = inr R)
    (HRdir : Os.nodes src0 !! R = Some (Os.Dir md))
    (Hlinks : ∀ k t, Os.nodes src !! (R ++ k) = Some (Os.Symlink t) → t ≠ "")
    (Hdots : ∀ k x n, Os.nodes src !! (R ++ k ++ [x]) = Some n →
                      GoStrings.Contains x ".." = false)
    (Hsize : ∀ k m data, Os.nodes src !! (R ++ k) = Some (Os.File m data) →
                         Z.of_nat (length data) <= Archive.MaxFileSize)
    (Htotal : content_bytes
                (fst (Archive.Create src archivePath sourceDir))
              <= Archive.MaxArchiveSize)
    (Hcount : Z.of_nat
                (length (fst (Archive.Create src archivePath sourceDir)))
              <= Archive.MaxFiles)
    (HD : valid_names D)
    (HDabove : dirs_above (Os.nodes dst) D)
    (HDdir : Os.nodes dst !! D = Some (Os.Dir mdd))
    (HDempty : ∀ k, k ≠ [] → Os.nodes dst !! (D ++ k) = None) :
  ∃ p1 p2,
    Archive.Extract
      (fst (Archive.Create src archivePath sourceDir), Tar.EOF)
      (abs_path D) dst = (p1, None)
    ∧ Archive.Extract
        (fst (Archive.Create src archivePath sourceDir), Tar.EOF)
        (abs_path D) (Archive.fsys p1) = (p2, None)
    ∧ Archive.fsys p2 = Archive.fsys p1
    ∧ Archive.printed p2 = [].
Proof.
  assert (∀ k, Os.nodes src0 !! (R ++ k) = Os.nodes src !! (R ++ k)) as Hsame.
  { destruct (WriteFile_inv _ _ _ _ _ Hmade) as (A & mdA & HA & -> & _).
    intros k. cbn [Os.put Os.nodes]. apply lookup_insert_ne.
    intros ->. apply (Houtside _ HA). by apply prefix_app_r. }
  destruct (below_root_spec src0 R md Hwf) as (HL & Hnd & Hpf & Hmem);
    [by eapply wf_dirs_above_all|exact HRdir|].
  destruct (Create_at src src0 archivePath sourceDir R md Hmade Hwf Hsrc
              Hclean HRdir) as [res Hcreate].
  rewrite Hcreate in *. cbn [fst] in *. rewrite length_map in Hcount.
  set (L := below_root src0 R md) in *. rewrite Forall_forall in HL.
  assert (∀ k n, (k, n) ∈ L →
            valid_names k ∧ k ≠ []
            ∧ Forall (fun x => GoStrings.Contains x ".." = false) k
            ∧ link_named n
            ∧ Z.of_nat (length (snd (record_of (k, n))))
              <= Archive.MaxFileSize) as Hobj.
  { intros k n Hin.
    destruct (HL _ Hin) as (Hk & Hne & Hkd & Hkn). cbn [fst snd] in *.
    split; [done|]. split; [done|]. split; [|split].
    - apply Forall_forall. intros x Hx.
      apply list_elem_of_split in Hx as (k1 & k2 & ->).
      destruct k2 as [|y k2].
      + apply (Hdots k1 x n). by rewrite <- Hsame.
      + change (x :: y :: k2) with ([x] ++ (y :: k2)) in Hkn.
        rewrite !app_assoc in Hkn.
        destruct (wf_tree_dir_above _ _ _ _ Hwf Hkn) as [mdx Hmdx]; [done|].
        rewrite <- app_assoc in Hmdx. apply (Hdots k1 x (Os.Dir mdx)).
        by rewrite <- Hsame.
    - destruct n as [| |t]; [done..|]. cbn. apply (Hlinks k).
      by rewrite <- Hsame.
    - unfold record_of. cbn [snd].
      destruct n as [m data| |]; cbn [snd length]; [|done..].
      apply (Hsize k m). by rewrite <- Hsame. }
  destruct (extract_listing D (Z.land mdd Os.S_ISGID) (Os.umask dst) L
              (Archive.mkProgress dst 0 0 []) [[]])
    as (p1 & Hloop & Hnodes & Hprinted).
  - exact HD.
  - done.
  - intros s ->%list_elem_of_singleton. rewrite app_nil_r.
    cbn [Archive.fsys]. split; [exact HDabove|]. by exists mdd.
  - exact Hpf.
  - exact Hnd.
  - apply Forall_forall. intros [k n] Hin.
    destruct (Hobj k n Hin) as (? & ? & ? & ? & ?). cbn [fst snd].
    split; [done|]. split; [done|]. split; [by apply HDempty|done].
  - split; cbn; unfold Archive.MaxArchiveSize, Archive.MaxFiles; lia.
  - cbn. lia.
  - cbn [Archive.totalSize]. lia.
  - cbn [Archive.fileCount]. lia.
  - cbn [Archive.fsys Archive.printed] in *.
    exists p1, (Archive.mkProgress (Archive.fsys p1)
                  (content_bytes (map record_of L)) (Z.of_nat (length L)) []).
    split; [exact Hloop|]. split; [|done].
    unfold Archive.Extract. cbn [fst snd].
    pose proof (content_bytes_nonneg (map record_of L)).
    rewrite extract_loop_present;
      cbn [Archive.fsys Archive.totalSize Archive.fileCount Archive.printed];
      [done|exact HD| |lia..].
    apply Forall_forall. intros [k n] Hin.
    destruct (Hobj k n Hin) as (Hk & Hne & Hdd & Hln & Hsz). cbn [fst snd].
    pose proof (placed_lookup D (Z.land mdd Os.S_ISGID) (Os.umask dst)
                  (Os.nodes dst) L k n Hnd Hin) as Hhere.
    split; [done|]. split; [done|]. split; [done|].
    split; [|split; [|done]].
    + rewrite Hnodes. intros q Hq Hqne.
      apply prefix_app_cases in Hq as [Hq | (k' & -> & Hk')].
      * rewrite placed_lookup_other.
        -- destruct (decide (q = D)) as [->|Hne']; [eauto|by apply HDabove].
        -- intros [k'' n''] Hin' ->. destruct (HL _ Hin') as (_ & Hne'' & _).
           cbn [fst] in *. apply prefix_length in Hq.
           rewrite length_app in Hq. destruct k''; [done|]. cbn in Hq. lia.
      * destruct k' as [|x' k'].
        -- rewrite app_nil_r in *. rewrite placed_lookup_other; [eauto|].
           intros [k'' n''] Hin' E. destruct (HL _ Hin') as (_ & Hne'' & _).
           cbn [fst] in *. apply (f_equal length) in E.
           rewrite length_app in E. destruct k''; [done|]. cbn in E. lia.
        -- destruct (HL _ Hin) as (_ & _ & Habove & _). cbn [fst] in Habove.
           destruct (Habove (R ++ x' :: k')) as [md' Hsrc'].
           { destruct Hk' as [r ->]. exists r. by rewrite <- app_assoc. }
           { intros E%app_inv_head. apply Hqne. by rewrite E. }
           apply Hmem in Hsrc'; [|done].
           rewrite (placed_lookup D _ _ _ L (x' :: k') (Os.Dir md')) by done.
           cbn. eauto.
    + rewrite Hnodes. unfold present. cbn [fst snd]. rewrite Hhere.
      destruct n; cbn; eauto.
Qed.

Lemma Extract_twice_witness :
  ∃ p1 p2,
    Archive.Extract
      (fst (Archive.Create ex_tree "/out.tar.xz" "./src/"), Tar.EOF)
      (abs_path ["dst"]) ex_tree_packing = (p1, None)
    ∧ Archive.Extract
        (fst (Archive.Create ex_tree "/out.tar.xz" "./src/"), Tar.EOF)
        (abs_path ["dst"]) (Archive.fsys p1) = (p2, None)
    ∧ Archive.fsys p2 = Archive.fsys p1
    ∧ Archive.printed p2 = [].
Proof.
  apply (Extract_twice ex_tree ex_tree_packing ex_tree_packing
           "/out.tar.xz" "./src/" ["src"] ["dst"] 493 493).
  - vm_compute. reflexivity.
  - intros A HA. vm_compute in HA. injection HA as <-.
    intros [k Hk]. discriminate Hk.
  - apply wf_treeb_spec. vm_compute. reflexivity.
  - vm_compute. reflexivity.
  - vm_compute. reflexivity.
  - vm_compute. reflexivity.
  - intros k t E.
    apply (all_nodes_spec
             (fun _ n => match n with
                         | Os.Symlink t => negb (String.eqb t "")
                         | _ => true
                         end))
      in E; [|vm_compute; reflexivity].
    by apply negb_true_iff, String.eqb_neq in E.
  - intros k x n E.
    apply (all_nodes_spec
             (fun l _ => forallb (fun y => negb (GoStrings.Contains y "..")) l))
      in E; [|vm_compute; reflexivity].
    rewrite forallb_forall in E. apply negb_true_iff, E.
    apply in_or_app. right. apply in_or_app. right. left. reflexivity.
  - intros k m data E.
    apply (all_nodes_spec
             (fun _ n => match n with
                         | Os.File _ d =>
                             Z.of_nat (length d) <=? Archive.MaxFileSize
                         | _ => true
                         end))
      in E; [|vm_compute; reflexivity].
    apply Z.leb_le. exact E.
  - vm_compute. discriminate.
  - vm_compute. discriminate.
  - repeat constructor.
  - apply dirs_aboveb_spec. vm_compute. reflexivity.
  - vm_compute. reflexivity.
  - intros k Hk.
    destruct (Os.nodes ex_tree_packing !! (["dst"] ++ k)) as [n|] eqn:E;
      [|done].
    apply (all_nodes_spec
             (fun l _ => match l with "dst" :: _ :: _ => false | _ => true end))
      in E; [|vm_compute; reflexivity].
    destruct k; [done|discriminate E].
Defined.

(** ** The two commands on checksums, one after the other *)

Section GenerateThenVerify.

Import Os Checksum.

Lemma manifest_safeb_spec (path : string) :
  manifest_safeb path = true → manifest_safe path.
Proof.
  unfold manifest_safeb, manifest_safe.
  rewrite !andb_true_iff, !negb_true_iff.
  intros [[[H1 H2] H3] H4]. split; [done|]. split; [|split; [done|]].
  - by apply String.eqb_eq.
  - by apply Z.ltb_lt.
Qed.

(** The walk of [CreateCRC32Sums] returns no error when every visit has
    its information and every visit of something that is not a directory
    has a relative path and reads as a regular file. *)
Lemma run_sums_total (st : state) (directory : string)
    (vs : list Walker.visit) (entries : list Entry) :
  Forall (fun v =>
            Walker.v_err v = None
            ∧ ∀ info, Walker.v_info v = Some info → is_dir info = false →
                (∃ rel, Filepath.Rel directory (Walker.v_path v) = Some rel)
                ∧ ∃ c, CalculateCRC32 st (Walker.v_path v) = inr c) vs →
  ∃ es, Walker.run (sums_fn st directory) vs entries = (es, None).
Proof.
  intros HF. revert entries.
  induction HF as [|v vs [He Hv] HF IH]; intros entries; cbn [Walker.run].
  - by exists entries.
  - unfold sums_fn. rewrite He.
    destruct (Walker.v_info v) as [info|]; [|apply IH].
    destruct (is_dir info) eqn:Hd; [apply IH|].
    destruct (Hv info eq_refl Hd) as [[rel ->] [c ->]]. apply IH.
Qed.

(** On a well-formed tree where every symbolic link below the directory
    leads to a regular file, the walk of [CreateCRC32Sums] returns
    without error. *)
Lemma Walk_sums_total (st : state) (root : loc) (md : Z) :
  wf_tree (nodes st) → valid_names root → dirs_above (nodes st) root →
  nodes st !! root = Some (Dir md) →
  (∀ k t, nodes st !! (root ++ k) = Some (Symlink t) →
          ∃ m data, Stat st (abs_path (root ++ k)) = inr (File m data)) →
  ∃ es, Walker.Walk st (abs_path root) (sums_fn st (abs_path root)) []
        = (es, None).
Proof.
  intros Hwf Hroot Habove Hdir Hlinks. unfold Walker.Walk.
  rewrite (visits_abs st root (Dir md)) by done.
  apply run_sums_total. apply Forall_forall. intros v Hv.
  apply list_elem_of_fmap in Hv as ([k n] & -> & Hin).
  assert (nodes st !! (root ++ []) = Some (Dir md)) as Hdir'
    by by rewrite app_nil_r.
  destruct (listing_lookup _ _ _ _ _ _ _ Hdir' Hin) as [Hk _].
  unfold visit_of. cbn [Walker.v_err Walker.v_info Walker.v_path fst snd].
  split; [done|]. intros info [= <-] Hn.
  assert (k ≠ []) as Hne.
  { intros ->. rewrite Hdir' in Hk. by injection Hk as <-. }
  pose proof (wf_tree_names _ _ _ _ Hwf Hk) as Hval.
  split.
  - exists (rel_path k). by apply Rel_abs_path.
  - unfold CalculateCRC32. destruct n as [m data| |t]; [|done|].
    + rewrite Stat_abs, Hk; [by eexists| | |].
      * by apply Forall_app.
      * by eapply wf_dirs_above_all.
      * intros t. by rewrite Hk.
    + destruct (Hlinks k t Hk) as (m & data & ->). by eexists.
Qed.

(** The entries are those of the objects below the directory that are
    not directories. *)
Lemma entries_not_directories (st : state) (root : loc) (md : Z)
    (entries : list Entry) :
  wf_tree (nodes st) → valid_names root → dirs_above (nodes st) root →
  nodes st !! root = Some (Dir md) →
  Walker.Walk st (abs_path root) (sums_fn st (abs_path root)) []
  = (entries, None) →
  ∀ e, e ∈ entries →
       ∃ k n, k ≠ [] ∧ nodes st !! (root ++ k) = Some n
              ∧ is_dir n = false ∧ Path e = rel_path k.
Proof.
  intros Hwf Hroot Habove Hdir Hgen. unfold Walker.Walk in Hgen.
  apply run_sums in Hgen as (new & -> & HF). cbn [app].
  rewrite (visits_abs st root (Dir md)) in HF by done.
  assert (nodes st !! (root ++ []) = Some (Dir md)) as Hdir'
    by by rewrite app_nil_r.
  intros e He. apply list_elem_of_lookup in He as [i Hi].
  destruct (Forall2_lookup_r _ _ _ _ _ HF Hi) as (v & Hv & [Hrec _] & _).
  apply list_elem_of_lookup_2 in Hv.
  apply list_elem_of_filter in Hv as [Hfile Hv].
  apply list_elem_of_fmap in Hv as ([k n] & -> & Hin).
  destruct (listing_lookup _ _ _ _ _ _ _ Hdir' Hin) as [Hk _].
  unfold is_file_visit, visit_of in Hfile. cbn in Hfile.
  apply Is_true_true, negb_true_iff in Hfile.
  assert (k ≠ []) as Hne.
  { intros ->. rewrite Hdir' in Hk. injection Hk as <-. done. }
  exists k, n. pose proof (wf_tree_names _ _ _ _ Hwf Hk) as Hval.
  split; [done|]. split; [done|]. split; [done|].
  unfold visit_of in Hrec. cbn [Walker.v_path fst] in Hrec.
  rewrite Rel_abs_path in Hrec by done. congruence.
Qed.

End GenerateThenVerify.

(** X15: [GenerateChecksums] followed by [VerifyChecksums] succeeds.
    The process is one that access rights do not stop.  Take a directory
    named by an absolute, clean path in a well-formed tree, where every
    symbolic link below the directory leads to a regular file and the
    relative path of everything below it that is not a directory fits a
    line of the manifest, and a manifest path that is absolute and clean
    and names nothing yet, in the directory or elsewhere.  Then
    [GenerateChecksums] returns no error and writes the manifest, and
    [VerifyChecksums] on the file system it leaves, with the same two
    paths, returns no error either; every recorded path is in [passed].
    Each command prints its heading, one line for each entry and its
    summary. *)
Theorem GenerateChecksums_then_VerifyChecksums (st : Os.state)
    (root O : Os.loc) (md : Z)
    (Hwf : wf_tree (Os.nodes st))
    (Hroot : valid_names root)
    (Habove : dirs_above (Os.nodes st) root)
    (Hdir : Os.nodes st !! root = Some (Os.Dir md))
    (HO : valid_names O)
    (HOabove : dirs_above (Os.nodes st) O)
    (HOfresh : Os.nodes st !! O = None)
    (Hlinks : ∀ k t, Os.nodes st !! (root ++ k) = Some (Os.Symlink t) →
                     ∃ m data, Os.Stat st (abs_path (root ++ k))
                               = inr (Os.File m data))
    (Hsafe : ∀ k n, k ≠ [] → Os.nodes st !! (root ++ k) = Some n →
                    Os.is_dir n = false → manifest_safe (rel_path k)) :
  ∃ entries out1 out2,
    Builder.GenerateChecksums st (abs_path root) (abs_path O)
    = (out1, None,
       Os.put st O (Os.File (Os.masked st (Os.syscallMode 0x1b6))
                      (bytes (Checksum.manifest entries))))
    ∧ Builder.VerifyChecksums
        (Os.put st O (Os.File (Os.masked st (Os.syscallMode 0x1b6))
                        (bytes (Checksum.manifest entries))))
        (abs_path O) (abs_path root) = (out2, None)
    ∧ length out1 = S (S (length entries))
    ∧ length out2 = S (S (length entries))
    ∧ Checksum.VerifyCRC32Sums
        (Os.put st O (Os.File (Os.masked st (Os.syscallMode 0x1b6))
                        (bytes (Checksum.manifest entries))))
        (abs_path O) (abs_path root)
      = (map Checksum.Path entries, [], None).
Proof.
  destruct (Walk_sums_total st root md Hwf Hroot Habove Hdir Hlinks)
    as [entries Hwalk].
  set (st1 := Os.put st O (Os.File (Os.masked st (Os.syscallMode 0x1b6))
                             (bytes (Checksum.manifest entries)))).
  assert (Checksum.CreateCRC32Sums st (abs_path root) (abs_path O)
          = (inr entries, st1)) as Hgen.
  { unfold Checksum.CreateCRC32Sums. rewrite Hwalk.
    by rewrite WriteFile_new by done. }
  assert (Forall (fun e => manifest_safe (Checksum.Path e)) entries)
    as Hsafe'.
  { apply Forall_forall. intros e He.
    destruct (entries_not_directories st root md entries Hwf Hroot Habove
                Hdir Hwalk e He) as (k & n & Hne & Hk & Hn & ->).
    by eapply Hsafe. }
  pose proof (sums_paths st st1 root md _ entries Hwf Hroot Habove Hdir Hgen)
    as Hsums.
  assert (∀ e, e ∈ entries →
               still_matches st1 (abs_path root) e = true) as Hall.
  { intros e He. rewrite Forall_forall in Hsums. specialize (Hsums e He).
    eapply still_matches_same; [exact Hsums|].
    apply CalculateCRC32_inr in Hsums as (data & Hread & _).
    unfold Os.ReadAll in *.
    destruct (Os.Stat st _) as [err|n] eqn:Hs; [done|].
    unfold st1. by rewrite (Stat_fresh_file st O _ _ _ n HOfresh Hs). }
  assert (Checksum.VerifyCRC32Sums st1 (abs_path O) (abs_path root)
          = (map Checksum.Path entries, [], None)) as Hverify.
  { rewrite (Verify_manifest st1 _ _
               (Os.masked st (Os.syscallMode 0x1b6)) entries).
    - rewrite filter_all, filter_none; [done| |done].
      intros e He Hno. by apply Hno, Hall.
    - unfold st1. by apply Stat_written.
    - done.
    - eapply Forall_impl; [exact Hsums|]. intros e He. cbn beta in He.
      by eapply CalculateCRC32_range. }
  subst st1. exists entries. eexists _, _.
  split; [|split; [|split; [|split; [|exact Hverify]]]].
  - unfold Builder.GenerateChecksums.
    rewrite Stat_abs, Hdir by (try done; intros t; by rewrite Hdir).
    cbn [Os.is_dir negb]. by rewrite Hgen.
  - unfold Builder.VerifyChecksums. rewrite Hverify. reflexivity.
  - rewrite !length_app, length_map. cbn. lia.
  - rewrite !length_app, !length_map. cbn. lia.
Qed.

Lemma GenerateChecksums_then_VerifyChecksums_witness :
  ∃ entries out1 out2,
    Builder.GenerateChecksums ex_tree (abs_path ["src"]) (abs_path ["sums"])
    = (out1, None,
       Os.put ex_tree ["sums"]
         (Os.File (Os.masked ex_tree (Os.syscallMode 0x1b6))
            (bytes (Checksum.manifest entries))))
    ∧ Builder.VerifyChecksums
        (Os.put ex_tree ["sums"]
           (Os.File (Os.masked ex_tree (Os.syscallMode 0x1b6))
              (bytes (Checksum.manifest entries))))
        (abs_path ["sums"]) (abs_path ["src"]) = (out2, None)
    ∧ length out1 = S (S (length entries))
    ∧ length out2 = S (S (length entries))
    ∧ Checksum.VerifyCRC32Sums
        (Os.put ex_tree ["sums"]
           (Os.File (Os.masked ex_tree (Os.syscallMode 0x1b6))
              (bytes (Checksum.manifest entries))))
        (abs_path ["sums"]) (abs_path ["src"])
      = (map Checksum.Path entries, [], None).
Proof.
  apply (GenerateChecksums_then_VerifyChecksums ex_tree ["src"] ["sums"] 493).
  - apply wf_treeb_spec. vm_compute. reflexivity.
  - repeat constructor.
  - apply dirs_aboveb_spec. vm_compute. reflexivity.
  - vm_compute. reflexivity.
  - repeat constructor.
  - apply dirs_aboveb_spec. vm_compute. reflexivity.
  - vm_compute. reflexivity.
  - intros k t E.
    apply (all_nodes_spec
             (fun l n => match n with
                         | Os.Symlink _ =>
                             match Os.Stat ex_tree (abs_path l) with
                             | inr (Os.File _ _) => true
                             | _ => false
                             end
                         | _ => true
                         end))
      in E; [|vm_compute; reflexivity].
    cbn beta iota in E.
    destruct (Os.Stat ex_tree (abs_path (["src"] ++ k)))
      as [e|[m data| |]]; try discriminate E.
    by exists m, data.
  - intros k n Hk E Hn.
    apply (all_nodes_spec
             (fun l _ => match l with
                         | "src" :: (_ :: _) as k => manifest_safeb (rel_path k)
                         | _ => true
                         end))
      in E; [|vm_compute; reflexivity].
    destruct k as [|x k]; [done|]. by apply manifest_safeb_spec.
Defined.
